(** * Filter-query compiler and paginated executor for the document store

    A shallow embedding of [DynamoValidator.ts], [DynamoExpressionBuilder.ts]
    and the two [DynamoDBService] executors, with the properties of the
    specification stated over it.

    Conventions of the embedding.
    - A JavaScript string is a [string] of ASCII characters; case mapping
      and the whitespace class are the ASCII restrictions of the JavaScript
      ones.
    - A JavaScript number is an exact rational [Q]: the finite doubles,
      computed without rounding, which is what the code computes as long as
      the integers involved stay within [Number.MAX_SAFE_INTEGER]. [NaN] and
      the infinities are not values of the model.
    - An object used as a record of data (a stored item, a placeholder map)
      is a finite map of its own properties. Where the code reads such an
      object under a key that the caller chooses ([operatorMap[operator]],
      [item[sortKey]]), the members inherited from [Object.prototype] are
      looked up as well.
    - A thrown exception is the [Throw] case of a [Result]. *)

From Stdlib Require Import ZArith QArith Qround Lqa Ascii String List Sorted.
From stdpp Require Import base tactics option list strings gmap sorting pretty.

Local Open Scope Z_scope.
Local Open Scope string_scope.

#[local] Set Warnings "-register-all".

(** ** Exceptions *)

Inductive JsError : Type :=
| DynamoValidationError (message : string)
| TypeError (message : string)
| StoreError (message : string).

Inductive Result (A : Type) : Type :=
| Ok (a : A)
| Throw (e : JsError).
Arguments Ok {A} a.
Arguments Throw {A} e.

#[global] Instance Result_ret : MRet Result := λ A a, Ok a.
#[global] Instance Result_bind : MBind Result := λ A B k r,
  match r with
  | Ok a => k a
  | Throw e => Throw e
  end.

(** [error instanceof DynamoValidationError] *)
Definition instanceofDynamoValidationError (e : JsError) : bool :=
  match e with
  | DynamoValidationError _ => true
  | _ => false
  end.

(** [list.forEach(f)] for a callback that may throw: the first exception
    leaves the loop. *)
Fixpoint forEachR {A} (f : A → Result unit) (l : list A) : Result unit :=
  match l with
  | [] => Ok tt
  | x :: r => f x;; forEachR f r
  end.

(** ** Strings *)

Definition isUpperAscii (c : ascii) : bool :=
  let n := nat_of_ascii c in (65 <=? n)%nat && (n <=? 90)%nat.
Definition isLowerAscii (c : ascii) : bool :=
  let n := nat_of_ascii c in (97 <=? n)%nat && (n <=? 122)%nat.
Definition isDigitAscii (c : ascii) : bool :=
  let n := nat_of_ascii c in (48 <=? n)%nat && (n <=? 57)%nat.

Definition charToLower (c : ascii) : ascii :=
  if isUpperAscii c then ascii_of_nat (nat_of_ascii c + 32) else c.
Definition charToUpper (c : ascii) : ascii :=
  if isLowerAscii c then ascii_of_nat (nat_of_ascii c - 32) else c.

Fixpoint mapString (f : ascii → ascii) (s : string) : string :=
  match s with
  | EmptyString => EmptyString
  | String c r => String (f c) (mapString f r)
  end.

Definition toLowerCase : string → string := mapString charToLower.
Definition toUpperCase : string → string := mapString charToUpper.

(** [s.includes(pat)] *)
Fixpoint includes (s pat : string) : bool :=
  String.prefix pat s ||
  match s with
  | EmptyString => false
  | String _ r => includes r pat
  end.

(** [s.split(sep)] for a one-character separator. *)
Fixpoint split (sep : ascii) (s : string) : list string :=
  match s with
  | EmptyString => [EmptyString]
  | String c r =>
      if Ascii.eqb c sep then EmptyString :: split sep r
      else match split sep r with
           | x :: xs => String c x :: xs
           | [] => [String c EmptyString]
           end
  end.

(** The class [\s], on ASCII: tab, line feed, vertical tab, form feed,
    carriage return and space. *)
Definition isWhiteSpace (c : ascii) : bool :=
  let n := nat_of_ascii c in ((9 <=? n)%nat && (n <=? 13)%nat) || (n =? 32)%nat.

(** [s.split(/\s+/)]: [inGap] tells that the previous character belonged
    to the separator being skipped. *)
Fixpoint splitWhiteSpaceFrom (inGap : bool) (s : string) : list string :=
  match s with
  | EmptyString => [EmptyString]
  | String c r =>
      if isWhiteSpace c then
        if inGap then splitWhiteSpaceFrom true r
        else EmptyString :: splitWhiteSpaceFrom true r
      else match splitWhiteSpaceFrom false r with
           | x :: xs => String c x :: xs
           | [] => [String c EmptyString]
           end
  end.

Definition splitWhiteSpace : string → list string := splitWhiteSpaceFrom false.

(** [parts.join(sep)] *)
Fixpoint join (sep : string) (parts : list string) : string :=
  match parts with
  | [] => ""
  | [x] => x
  | x :: r => x +:+ sep +:+ join sep r
  end.

(** [`${n}`] for an array index. *)
Definition indexToString (n : nat) : string := pretty n.

(** ** JavaScript values *)

Inductive JsValue : Type :=
| JUndefined
| JNull
| JBool (b : bool)
| JNum (n : Q)
| JStr (s : string)
| JArr (elems : list JsValue)
| JObj (props : list (string * JsValue)).

Inductive JsType : Type :=
| TyUndefined | TyObject | TyBoolean | TyNumber | TyString.

Definition typeof (v : JsValue) : JsType :=
  match v with
  | JUndefined => TyUndefined
  | JNull => TyObject
  | JBool _ => TyBoolean
  | JNum _ => TyNumber
  | JStr _ => TyString
  | JArr _ => TyObject
  | JObj _ => TyObject
  end.

Definition Array_isArray (v : JsValue) : bool :=
  match v with
  | JArr _ => true
  | _ => false
  end.

(** The store's tagged-union wire value. *)
Inductive AttributeValue : Type :=
| AttrS (s : string)
| AttrN (n : Q)
| AttrBOOL (b : bool)
| AttrNULL
| AttrL (elems : list AttributeValue)
| AttrM (props : list (string * AttributeValue)).

(** Modelled from the spec: [toDynamoDBValue] of [DynamoUtils], which is not
    among the sources. It tags a plain value with its kind: string, number,
    boolean, null, list or map. *)
Fixpoint toDynamoDBValue (v : JsValue) : AttributeValue :=
  match v with
  | JUndefined => AttrNULL
  | JNull => AttrNULL
  | JBool b => AttrBOOL b
  | JNum n => AttrN n
  | JStr s => AttrS s
  | JArr l => AttrL (List.map toDynamoDBValue l)
  | JObj ps => AttrM (List.map (λ kv, (fst kv, toDynamoDBValue (snd kv))) ps)
  end.

(** Modelled from the spec: [fromDynamoDBValue] of [DynamoUtils], the decoding
    direction of the same codec. *)
Fixpoint fromDynamoDBValue (a : AttributeValue) : JsValue :=
  match a with
  | AttrS s => JStr s
  | AttrN n => JNum n
  | AttrBOOL b => JBool b
  | AttrNULL => JNull
  | AttrL l => JArr (List.map fromDynamoDBValue l)
  | AttrM ps => JObj (List.map (λ kv, (fst kv, fromDynamoDBValue (snd kv))) ps)
  end.

(** A stored item: attribute name to wire value. *)
Abbreviation Item := (gmap string AttributeValue).

(** Modelled from the spec: [mapDynamoDBItemToType] of [DynamoUtils], which
    unwraps a whole retrieved item into a plain structured value. *)
Definition mapDynamoDBItemToType (item : Item) : JsValue :=
  JObj (List.map (λ kv, (fst kv, fromDynamoDBValue (snd kv))) (map_to_list item)).

(** ** DynamoValidator.ts *)

Definition MAX_FIELD_DEPTH : Z := 20.
Definition MAX_FIELD_LENGTH : Z := 255.
Definition MAX_VALUE_LENGTH : Z := 400000.

(** The class [[a-zA-Z0-9_]]. *)
Definition isIdentChar (c : ascii) : bool :=
  isLowerAscii c || isUpperAscii c || isDigitAscii c || Ascii.eqb c "_".

Fixpoint allChars (p : ascii → bool) (s : string) : bool :=
  match s with
  | EmptyString => true
  | String c r => p c && allChars p r
  end.

(** [/^[a-zA-Z][a-zA-Z0-9_]*$/.test(part)] *)
Definition VALID_FIELD_REGEX_test (part : string) : bool :=
  match part with
  | EmptyString => false
  | String c r => (isLowerAscii c || isUpperAscii c) && allChars isIdentChar r
  end.

Definition UNSAFE_PATTERNS : list string :=
  ["__proto__"; "constructor"; "prototype"; "$"; ";";
   "DROP"; "DELETE"; "INSERT"; "UPDATE"].

Definition NOSQL_OPERATORS : list string :=
  ["$where"; "$regex"; "$ne"; "$gt"; "$lt"; "$gte"; "$lte"; "$in"; "$nin";
   "$or"; "$and"; "$not"; "$exists"; "$type"; "$mod"; "$text"; "$elemMatch";
   "$size"; "$all"; "$expr"].

Definition strLen (s : string) : Z := Z.of_nat (String.length s).

Definition validateFieldName (field : string) : Result unit :=
  if String.eqb field "" then
    Throw (DynamoValidationError "Field name cannot be empty")
  else if existsb (λ pattern, includes (toLowerCase field) (toLowerCase pattern))
                  UNSAFE_PATTERNS then
    Throw (DynamoValidationError ("Field name contains unsafe pattern: " +:+ field))
  else
    let parts := split "." field in
    if (MAX_FIELD_DEPTH <? Z.of_nat (length parts))%Z then
      Throw (DynamoValidationError "Field depth exceeds maximum of 20")
    else
      forEachR (λ part,
        if (MAX_FIELD_LENGTH <? strLen part)%Z then
          Throw (DynamoValidationError "Field part length exceeds maximum of 255")
        else if negb (VALID_FIELD_REGEX_test part) then
          Throw (DynamoValidationError ("Invalid characters in field name: " +:+ part))
        else Ok tt) parts.

(** [Object.prototype.hasOwnProperty.call(value, key)]: the receiver is
    converted with ToObject, which throws on [undefined] and [null]. A string
    or an array owns [length] and its indices. *)
Definition ownsIndexOrLength (len : nat) (key : string) : bool :=
  String.eqb key "length" ||
  existsb (λ i, String.eqb key (indexToString i)) (seq 0 len).

Definition Object_hasOwnProperty_call (value : JsValue) (key : string) : Result bool :=
  match value with
  | JUndefined | JNull =>
      Throw (TypeError "Cannot convert undefined or null to object")
  | JBool _ | JNum _ => Ok false
  | JStr s => Ok (ownsIndexOrLength (String.length s) key)
  | JArr elems => Ok (ownsIndexOrLength (length elems) key)
  | JObj props => Ok (existsb (λ kv, String.eqb (fst kv) key) props)
  end.

(** [Number.isInteger(Number(x))] for a number [x]. *)
Definition Number_isInteger (x : Q) : bool := Qeq_bool (inject_Z (Qfloor x)) x.

(** The pagination object. [size] is not part of the query interface, but
    [validatePagination] reads it from whatever object it is given. *)
Record IPaginationQuery : Type := {
  page : option Q;
  limit : option Q;
  offset : option Q;
  size : option Q;
  sortBy : option string;
  sortDirection : option string
}.

(** The literal [{}]. *)
Definition emptyPagination : IPaginationQuery :=
  {| page := None; limit := None; offset := None; size := None;
     sortBy := None; sortDirection := None |}.

Definition validatePagination (pagination : IPaginationQuery) : Result unit :=
  let page := default 1%Q pagination.(page) in
  let size := default 10%Q pagination.(size) in
  let limit := pagination.(limit) in
  let offset := default 0%Q pagination.(offset) in
  if negb (Number_isInteger page) then
    Throw (DynamoValidationError "Page must be an integer")
  else if negb (Number_isInteger size) then
    Throw (DynamoValidationError "Size must be an integer")
  else if match limit with Some l => negb (Number_isInteger l) | None => false end then
    Throw (DynamoValidationError "Limit must be an integer")
  else if negb (Number_isInteger offset) then
    Throw (DynamoValidationError "Offset must be an integer")
  else Ok tt.

(** *** JSON text *)

Definition hexDigit (n : nat) : ascii :=
  ascii_of_nat (if (n <? 10)%nat then 48 + n else 87 + n).

Definition doubleQuote : ascii := ascii_of_nat 34.
Definition backslash : ascii := ascii_of_nat 92.

(** One character of a string inside [JSON.stringify]'s quotes. *)
Definition quoteJSONChar (c : ascii) : string :=
  let n := nat_of_ascii c in
  if (n =? 34)%nat then String backslash (String doubleQuote "")
  else if (n =? 92)%nat then String backslash (String backslash "")
  else if (n =? 8)%nat then String backslash "b"
  else if (n =? 9)%nat then String backslash "t"
  else if (n =? 10)%nat then String backslash "n"
  else if (n =? 12)%nat then String backslash "f"
  else if (n =? 13)%nat then String backslash "r"
  else if (n <? 32)%nat then
    String backslash
      ("u00" +:+ String (hexDigit (n / 16)) (String (hexDigit (n mod 16)) ""))
  else String c "".

Fixpoint quoteJSONBody (s : string) : string :=
  match s with
  | EmptyString => ""
  | String c r => quoteJSONChar c +:+ quoteJSONBody r
  end.

Definition quoteJSON (s : string) : string :=
  String doubleQuote (quoteJSONBody s +:+ String doubleQuote "").

(** ** The host's services

    What the code takes from the JavaScript engine, and from the codec
    outside the values the codec is specified for, is an interface, because
    the results depend on the engine, on its locale data and on a module
    that is not among the sources. *)

(** A comparison function that may throw is a consistent ordering of the
    elements of [items] when on them it returns a number without throwing,
    the sign of [compare a b] is the opposite of the sign of [compare b a],
    and [compare a b <= 0] is transitive: the consistent comparator of
    ECMAScript's [Array.prototype.sort]. *)
Definition consistentComparator {A} (compare : A → A → Result Q) (items : list A)
  : Prop :=
  ∃ c : A → A → Q,
    (∀ a b, a ∈ items → b ∈ items → compare a b = Ok (c a b))
    ∧ (∀ a b, a ∈ items → b ∈ items → (c a b < 0)%Q ↔ (0 < c b a)%Q)
    ∧ (∀ a b d, a ∈ items → b ∈ items → d ∈ items →
         (c a b <= 0)%Q → (c b d <= 0)%Q → (c a d <= 0)%Q).

(** - [Number_toString] is [Number.prototype.toString], used by [String(x)],
      by template strings and by [JSON.stringify].
    - [localeCompare] is [String.prototype.localeCompare].
    - [fromDynamoDBValue_member name] is [fromDynamoDBValue] of [DynamoUtils]
      applied to the member that a plain object inherits from
      [Object.prototype] under [name], which is not a wire value: the
      exception the codec throws, or the value it returns. A returned value
      that is not a plain one (the member itself, a function) is given by the
      string that [String] makes of it, which is all that the comparison of
      the sort reads of a value that is not a number.
    - [Array_sort] is [Array.prototype.sort] on a copy of the array, with a
      comparison function that may throw. The order it produces when the
      comparison is not a consistent ordering is the engine's own, so only
      what ECMAScript requires of every engine is known of it: an exception
      comes from a call of the comparison on two elements, the result is a
      rearrangement, and for a consistent ordering no element of the result
      is followed by one that the comparison puts before it. *)
Class Platform : Type := {
  Number_toString : Q → string;
  localeCompare : string → string → Z;
  fromDynamoDBValue_member : string → Result JsValue;
  Array_sort : ∀ A : Type, (A → A → Result Q) → list A → Result (list A);
  Array_sort_abrupt : ∀ A (compare : A → A → Result Q) items e,
    Array_sort A compare items = Throw e →
    ∃ a b, a ∈ items ∧ b ∈ items ∧ compare a b = Throw e;
  Array_sort_rearranges : ∀ A (compare : A → A → Result Q) items sorted,
    Array_sort A compare items = Ok sorted → sorted ≡ₚ items;
  Array_sort_orders : ∀ A (compare : A → A → Result Q) items sorted,
    consistentComparator compare items →
    Array_sort A compare items = Ok sorted →
    StronglySorted (λ a b, ∃ c, compare a b = Ok c ∧ (c <= 0)%Q) sorted
}.
Arguments Array_sort {_ A} compare items.

Section Validator.
Context `{Platform}.

(** [String(value)] *)
Fixpoint ToString (value : JsValue) : string :=
  match value with
  | JUndefined => "undefined"
  | JNull => "null"
  | JBool b => if b then "true" else "false"
  | JNum n => Number_toString n
  | JStr s => s
  | JArr elems =>
      join "," (List.map (λ x, match x with
                               | JUndefined | JNull => ""
                               | _ => ToString x
                               end) elems)
  | JObj _ => "[object Object]"
  end.

(** [JSON.stringify(value)]; [None] is the result [undefined]. *)
Fixpoint JSON_stringify (value : JsValue) : option string :=
  match value with
  | JUndefined => None
  | JNull => Some "null"
  | JBool b => Some (if b then "true" else "false")
  | JNum n => Some (Number_toString n)
  | JStr s => Some (quoteJSON s)
  | JArr elems =>
      Some ("[" +:+ join "," (List.map (λ x, default "null" (JSON_stringify x)) elems)
                +:+ "]")
  | JObj props =>
      Some ("{" +:+ join "," (omap (λ kv, match JSON_stringify (snd kv) with
                                          | Some t => Some (quoteJSON (fst kv) +:+ ":" +:+ t)
                                          | None => None
                                          end) props)
                +:+ "}")
  end.

Definition dangerousPatterns : list string :=
  ["$where"; "$regex"; "$ne"; "$gt"; "$lt"; "$gte"; "$lte";
   "$in"; "$nin"; "$or"; "$and"; "$not"; "$exists"; "$type";
   "$mod"; "$text"; "$elemMatch"; "$size"; "$all"; "$expr";
   "__proto__"; "constructor"; "prototype"].

(** [validateValue]. The two [Object.prototype.hasOwnProperty.call] are the
    arguments of the debugging [console.log] lines that open the function;
    they are evaluated before the test for [null] and [undefined]. *)
Fixpoint validateValue (value : JsValue) : Result unit :=
  _ ← Object_hasOwnProperty_call value "__proto__";
  _ ← Object_hasOwnProperty_call value "constructor.prototype";
  match value with
  | JUndefined | JNull =>
      Throw (DynamoValidationError "Value cannot be null or undefined")
  | _ =>
      match JSON_stringify value with
      | None =>
          Throw (TypeError "Cannot read properties of undefined (reading 'toLowerCase')")
      | Some stringified =>
          if existsb (λ pattern, includes (toLowerCase stringified) (toLowerCase pattern))
                     dangerousPatterns then
            Throw (DynamoValidationError "Potential NoSQL injection detected")
          else if match value with
                  | JStr s => (MAX_VALUE_LENGTH <? strLen s)%Z
                  | _ => false
                  end then
            Throw (DynamoValidationError "Value length exceeds maximum of 400000")
          else
            match value with
            | JArr elems =>
                match elems with
                | [] => Throw (DynamoValidationError "Empty arrays not supported")
                | _ =>
                    (fix each (l : list JsValue) : Result unit :=
                       match l with
                       | [] => Ok tt
                       | x :: r => validateValue x;; each r
                       end) elems
                end
            | JObj props =>
                let propsToCheck := (List.map fst props ++ List.map fst props)%list in
                if existsb (λ prop, bool_decide (prop ∈ dangerousPatterns)) propsToCheck then
                  Throw (DynamoValidationError "Potential NoSQL injection detected")
                else
                  (fix each (l : list (string * JsValue)) : Result unit :=
                     match l with
                     | [] => Ok tt
                     | kv :: r => validateValue (snd kv);; each r
                     end) props
            | _ => Ok tt
            end
      end
  end.

End Validator.

(** ** DynamoExpressionBuilder.ts *)

Record IFilterQuery : Type := {
  field : string;
  operator : string;
  value : JsValue
}.

Record DynamoDBFilterExpression : Type := {
  KeyConditionExpression : option string;
  FilterExpression : option string;
  ExpressionAttributeNames : option (gmap string string);
  ExpressionAttributeValues : option (gmap string AttributeValue)
}.

(** The literal [{}]. *)
Definition emptyExpression : DynamoDBFilterExpression :=
  {| KeyConditionExpression := None; FilterExpression := None;
     ExpressionAttributeNames := None; ExpressionAttributeValues := None |}.

Fixpoint assoc (key : string) (entries : list (string * string)) : option string :=
  match entries with
  | [] => None
  | (k, v) :: r => if String.eqb k key then Some v else assoc key r
  end.

Definition operatorMap : list (string * string) :=
  [("<", "<"); (">", ">"); ("<=", "<="); (">=", ">="); ("=", "=");
   ("!=", "<>"); ("in", "IN"); ("not in", "NOT IN");
   ("like", "contains"); ("not like", "NOT contains")].

(** The operators the table maps. *)
Definition supportedOperators : list string := List.map fst operatorMap.

(** [operatorMap] is an object literal, so reading [operatorMap[operator]]
    also finds the members it inherits from [Object.prototype]. Each is
    listed with the text it has inside a template string: a built-in
    function prints as its native source text, and the [__proto__] accessor
    yields [Object.prototype] itself. *)
Definition nativeFunctionText (name : string) : string :=
  "function " +:+ name +:+ "() { [native code] }".

Definition Object_prototype : list (string * string) :=
  [("constructor", nativeFunctionText "Object");
   ("__defineGetter__", nativeFunctionText "__defineGetter__");
   ("__defineSetter__", nativeFunctionText "__defineSetter__");
   ("hasOwnProperty", nativeFunctionText "hasOwnProperty");
   ("__lookupGetter__", nativeFunctionText "__lookupGetter__");
   ("__lookupSetter__", nativeFunctionText "__lookupSetter__");
   ("isPrototypeOf", nativeFunctionText "isPrototypeOf");
   ("propertyIsEnumerable", nativeFunctionText "propertyIsEnumerable");
   ("toString", nativeFunctionText "toString");
   ("valueOf", nativeFunctionText "valueOf");
   ("__proto__", "[object Object]");
   ("toLocaleString", nativeFunctionText "toLocaleString")].

(** [this.operatorMap[operator]]; [None] is [undefined]. *)
Definition operatorMap_get (operator : string) : option string :=
  match assoc operator operatorMap with
  | Some token => Some token
  | None => assoc operator Object_prototype
  end.

(** The builder methods update the expression object [expr] they are handed
    and may throw: a state monad over the expression, with exceptions. *)
Definition Builder (A : Type) : Type :=
  DynamoDBFilterExpression → Result (A * DynamoDBFilterExpression).

#[global] Instance Builder_ret : MRet Builder := λ A a expr, Ok (a, expr).
#[global] Instance Builder_bind : MBind Builder := λ A B k m expr,
  match m expr with
  | Ok (a, expr') => k a expr'
  | Throw e => Throw e
  end.

Definition throwB {A} (e : JsError) : Builder A := λ _, Throw e.

(** [expr.ExpressionAttributeNames![key] = name] *)
Definition setAttributeName (key name : string) : Builder unit := λ expr,
  match expr.(ExpressionAttributeNames) with
  | Some names =>
      Ok (tt, {| KeyConditionExpression := expr.(KeyConditionExpression);
                 FilterExpression := expr.(FilterExpression);
                 ExpressionAttributeNames := Some (<[key := name]> names);
                 ExpressionAttributeValues := expr.(ExpressionAttributeValues) |})
  | None => Throw (TypeError "Cannot set properties of undefined")
  end.

(** [expr.ExpressionAttributeValues![key] = attr] *)
Definition setAttributeValue (key : string) (attr : AttributeValue) : Builder unit :=
  λ expr,
  match expr.(ExpressionAttributeValues) with
  | Some values =>
      Ok (tt, {| KeyConditionExpression := expr.(KeyConditionExpression);
                 FilterExpression := expr.(FilterExpression);
                 ExpressionAttributeNames := expr.(ExpressionAttributeNames);
                 ExpressionAttributeValues := Some (<[key := attr]> values) |})
  | None => Throw (TypeError "Cannot set properties of undefined")
  end.

Definition setKeyConditionExpression (text : string) : Builder unit := λ expr,
  Ok (tt, {| KeyConditionExpression := Some text;
             FilterExpression := expr.(FilterExpression);
             ExpressionAttributeNames := expr.(ExpressionAttributeNames);
             ExpressionAttributeValues := expr.(ExpressionAttributeValues) |}).

Definition setFilterExpression (text : string) : Builder unit := λ expr,
  Ok (tt, {| KeyConditionExpression := expr.(KeyConditionExpression);
             FilterExpression := Some text;
             ExpressionAttributeNames := expr.(ExpressionAttributeNames);
             ExpressionAttributeValues := expr.(ExpressionAttributeValues) |}).

(** [list.map((x, i) => f(x, i))] for a callback that updates [expr]; [i]
    counts from [start]. *)
Fixpoint mapWithIndex {A B} (f : A → nat → Builder B) (l : list A) (start : nat)
  : Builder (list B) :=
  match l with
  | [] => mret []
  | x :: r =>
      y ← f x start;
      ys ← mapWithIndex f r (S start);
      mret (y :: ys)
  end.

Section ExpressionBuilder.
Context `{Platform}.

(** The builder's [pkName], fixed by the constructor. *)
Variable pkName : string.

Definition extractPartitionKeyFilter (filters : list IFilterQuery)
  : option IFilterQuery * list IFilterQuery :=
  let remaining := filters in
  match list_find (λ f, f.(field) = pkName ∧ f.(operator) = "=") remaining with
  | None => (None, remaining)
  | Some (pkIndex, _) => (remaining !! pkIndex, delete pkIndex remaining)
  end.

Definition addPartitionKeyExpression (pkFilter : IFilterQuery) : Builder unit :=
  setKeyConditionExpression "#pk = :pkVal";;
  setAttributeName "#pk" pkFilter.(field);;
  setAttributeValue ":pkVal" (toDynamoDBValue pkFilter.(value)).

(** [`#key${index}_${idx}`] *)
Definition nameKey (index idx : nat) : string :=
  "#key" +:+ indexToString index +:+ "_" +:+ indexToString idx.

Definition buildLikeExpression (path : string) (value : JsValue) (index : nat)
    (isNot : bool) : Builder string :=
  let searchString := ToString value in
  let searchTerms :=
    List.filter (λ term, (0 <? String.length term)%nat)
                (splitWhiteSpace (toLowerCase searchString)) in
  match searchTerms with
  | [] =>
      mret (if isNot then "attribute_exists(" +:+ path +:+ ")"
            else "attribute_not_exists(" +:+ path +:+ ")")
  | _ =>
      containsExpressions ← mapWithIndex (λ term termIndex,
        let valKeyLower :=
          ":val" +:+ indexToString index +:+ "_" +:+ indexToString termIndex +:+ "_l" in
        let valKeyUpper :=
          ":val" +:+ indexToString index +:+ "_" +:+ indexToString termIndex +:+ "_u" in
        let valKeyOriginal :=
          ":val" +:+ indexToString index +:+ "_" +:+ indexToString termIndex +:+ "_o" in
        setAttributeValue valKeyLower (toDynamoDBValue (JStr (toLowerCase term)));;
        setAttributeValue valKeyUpper (toDynamoDBValue (JStr (toUpperCase term)));;
        setAttributeValue valKeyOriginal (toDynamoDBValue (JStr term));;
        let containsExpr :=
          "contains(" +:+ path +:+ ", " +:+ valKeyLower +:+ ") OR contains("
            +:+ path +:+ ", " +:+ valKeyUpper +:+ ") OR contains("
            +:+ path +:+ ", " +:+ valKeyOriginal +:+ ")" in
        mret (if isNot then "NOT (" +:+ containsExpr +:+ ")" else containsExpr))
        searchTerms 0%nat;
      mret (if isNot then join " AND " containsExpressions
            else "(" +:+ join " AND " containsExpressions +:+ ")")
  end.

Definition buildInExpression (path : string) (value : JsValue) (index : nat)
    (isNot : bool) : Builder string :=
  let values := match value with JArr elems => elems | _ => [value] end in
  equalityChecks ← mapWithIndex (λ val valIndex,
    let valKey := ":val" +:+ indexToString index +:+ "_" +:+ indexToString valIndex in
    setAttributeValue valKey (toDynamoDBValue val);;
    mret (path +:+ " = " +:+ valKey)) values 0%nat;
  let combinedExpression := "(" +:+ join " OR " equalityChecks +:+ ")" in
  mret (if isNot then "NOT " +:+ combinedExpression else combinedExpression).

(** [!dynOp] holds for [undefined] and for the empty string. *)
Definition buildBasicExpression (path operator : string) (value : JsValue)
    (index : nat) : Builder string :=
  let valKey := ":val" +:+ indexToString index in
  setAttributeValue valKey (toDynamoDBValue value);;
  match operatorMap_get operator with
  | Some dynOp =>
      if String.eqb dynOp "" then
        throwB (DynamoValidationError ("Unsupported operator: " +:+ operator))
      else mret (path +:+ " " +:+ dynOp +:+ " " +:+ valKey)
  | None => throwB (DynamoValidationError ("Unsupported operator: " +:+ operator))
  end.

Definition buildSubExpression (field operator : string) (value : JsValue)
    (index : nat) : Builder string :=
  let pathParts := split "." field in
  _ ← mapWithIndex (λ part idx, setAttributeName (nameKey index idx) part)
                   pathParts 0%nat;
  let path := join "." (imap (λ idx _, nameKey index idx) pathParts) in
  if String.eqb operator "like" || String.eqb operator "not like" then
    buildLikeExpression path value index (String.eqb operator "not like")
  else if String.eqb operator "in" || String.eqb operator "not in" then
    buildInExpression path value index (String.eqb operator "not in")
  else buildBasicExpression path operator value index.

Definition addFilterExpressions (filters : list IFilterQuery) : Builder unit :=
  subExpressions ← mapWithIndex (λ filter i,
    buildSubExpression filter.(field) filter.(operator) filter.(value) i)
    filters 0%nat;
  setFilterExpression (join " AND " subExpressions).

Definition buildFilterExpression (filters : list IFilterQuery)
  : Result DynamoDBFilterExpression :=
  match filters with
  | [] => Ok emptyExpression
  | _ =>
      forEachR (λ filter,
        validateFieldName filter.(field);;
        validateValue filter.(value)) filters;;
      let expr := {| KeyConditionExpression := None; FilterExpression := None;
                     ExpressionAttributeNames := Some ∅;
                     ExpressionAttributeValues := Some ∅ |} in
      let '(pkFilter, remainingFilters) := extractPartitionKeyFilter filters in
      '(_, expr) ← match pkFilter with
                   | Some pkFilter => addPartitionKeyExpression pkFilter expr
                   | None => Ok (tt, expr)
                   end;
      '(_, expr) ← match remainingFilters with
                   | [] => Ok (tt, expr)
                   | _ => addFilterExpressions remainingFilters expr
                   end;
      Ok expr
  end.

End ExpressionBuilder.

(** ** DynamoDBService: what the two executors share

    The two service classes carry the same text for
    [calculatePaginationValues], [buildQueryParams], [processResults] and
    [handleError]; each is embedded once. *)

Module CommandInput.
Record params : Type := {
  TableName : string;
  KeyConditionExpression : option string;
  FilterExpression : option string;
  ExpressionAttributeNames : option (gmap string string);
  ExpressionAttributeValues : option (gmap string AttributeValue);
  ScanIndexForward : option bool
}.

(** The literal [{ TableName: tableName }]. *)
Definition ofTable (tableName : string) : params :=
  {| TableName := tableName; KeyConditionExpression := None;
     FilterExpression := None; ExpressionAttributeNames := None;
     ExpressionAttributeValues := None; ScanIndexForward := None |}.
End CommandInput.

(** What [dynamoDBClient.send] is given, and what it answers. *)
Inductive Command : Type :=
| QueryCommand (input : CommandInput.params)
| ScanCommand (input : CommandInput.params).

Record CommandOutput : Type := { Items : option (list Item) }.

Definition Client : Type := Command → Result CommandOutput.

Record IGenericFilterQuery : Type := {
  pagination : option IPaginationQuery;
  filters : option (list IFilterQuery)
}.

Record Page : Type := { data : list JsValue; total : nat }.

(** One call of [fetchWithFiltersAndPagination]: the commands that reached
    the client, the first argument of each [console.error], and the value
    returned or the exception rethrown. *)
Record FetchRun : Type := {
  sent : list Command;
  errorLog : list string;
  outcome : Result Page
}.

Definition Math_floor (x : Q) : Q := inject_Z (Qfloor x).
Definition Math_max (a b : Q) : Q := if Qle_bool a b then b else a.

(** A string or [undefined] in a condition. *)
Definition truthy (text : option string) : bool :=
  match text with
  | Some s => negb (String.eqb s "")
  | None => false
  end.

(** On a pagination object of the declared type, whose fields are numbers
    or absent ([Untyped.calculatePaginationValues] below is the same
    function on the objects whose fields can also be [null]). The product
    [(page - 1) * limit] is the exact one, which is what the arithmetic of
    doubles gives up to [Number.MAX_SAFE_INTEGER]. *)
Definition calculatePaginationValues (pagination : IPaginationQuery) : Q * Q :=
  let page := default 1%Q pagination.(page) in
  let limit := default 100%Q pagination.(limit) in
  let offset := pagination.(offset) in
  let page := Math_max 1 (Math_floor page) in
  let limit := Math_max 0 (Math_floor limit) in
  let offset :=
    match offset with
    | Some o => if negb (Qle_bool 0 o) then ((page - 1) * limit)%Q else o
    | None => ((page - 1) * limit)%Q
    end in
  (limit, offset).

(** [{...older, ...newer}] *)
Definition spread {V} (older newer : option (gmap string V)) : gmap string V :=
  default ∅ newer ∪ default ∅ older.

Definition buildQueryParams (tableName : string) (expr : DynamoDBFilterExpression)
    (pagination : option IPaginationQuery) : Result CommandInput.params :=
  let params := CommandInput.ofTable tableName in
  params ←
    (if truthy expr.(KeyConditionExpression) then
       let params :=
         {| CommandInput.TableName := params.(CommandInput.TableName);
            CommandInput.KeyConditionExpression := expr.(KeyConditionExpression);
            CommandInput.FilterExpression := params.(CommandInput.FilterExpression);
            CommandInput.ExpressionAttributeNames :=
              params.(CommandInput.ExpressionAttributeNames);
            CommandInput.ExpressionAttributeValues :=
              params.(CommandInput.ExpressionAttributeValues);
            CommandInput.ScanIndexForward := params.(CommandInput.ScanIndexForward) |} in
       match pagination with
       | Some p =>
           if truthy p.(sortBy) then
             validateFieldName (default "" p.(sortBy));;
             let names := default ∅ params.(CommandInput.ExpressionAttributeNames) in
             Ok {| CommandInput.TableName := params.(CommandInput.TableName);
                   CommandInput.KeyConditionExpression :=
                     params.(CommandInput.KeyConditionExpression);
                   CommandInput.FilterExpression := params.(CommandInput.FilterExpression);
                   CommandInput.ExpressionAttributeNames :=
                     Some (<["#sortKey" := default "" p.(sortBy)]> names);
                   CommandInput.ExpressionAttributeValues :=
                     params.(CommandInput.ExpressionAttributeValues);
                   CommandInput.ScanIndexForward :=
                     Some (negb (bool_decide (p.(sortDirection) = Some "desc"))) |}
           else Ok params
       | None => Ok params
       end
     else Ok params);
  let filterExpression :=
    if truthy expr.(FilterExpression) then expr.(FilterExpression)
    else params.(CommandInput.FilterExpression) in
  let names :=
    match expr.(ExpressionAttributeNames) with
    | Some _ =>
        Some (spread params.(CommandInput.ExpressionAttributeNames)
                     expr.(ExpressionAttributeNames))
    | None => params.(CommandInput.ExpressionAttributeNames)
    end in
  let values :=
    match expr.(ExpressionAttributeValues) with
    | Some v => Some v
    | None => params.(CommandInput.ExpressionAttributeValues)
    end in
  Ok {| CommandInput.TableName := params.(CommandInput.TableName);
        CommandInput.KeyConditionExpression := params.(CommandInput.KeyConditionExpression);
        CommandInput.FilterExpression := filterExpression;
        CommandInput.ExpressionAttributeNames := names;
        CommandInput.ExpressionAttributeValues := values;
        CommandInput.ScanIndexForward := params.(CommandInput.ScanIndexForward) |}.

(** ToIntegerOrInfinity on a finite number: truncation towards zero. *)
Definition toInteger (x : Q) : Z := if Qle_bool 0 x then Qfloor x else Qceiling x.

(** [items.slice(start, end)] *)
Definition Array_slice {A} (items : list A) (start stop : Q) : list A :=
  let len := Z.of_nat (length items) in
  let clamp := λ rel : Z, if (rel <? 0)%Z then Z.max (len + rel) 0 else Z.min rel len in
  let k := clamp (toInteger start) in
  let final := clamp (toInteger stop) in
  take (Z.to_nat (final - k)) (drop (Z.to_nat k) items).

Definition processResults (items : list Item) (limit offset : Q) : list JsValue :=
  if Qeq_bool limit 0 then []
  else if Qle_bool (inject_Z (Z.of_nat (length items))) offset then []
  else
    let endIndex := (offset + limit)%Q in
    let sliced := Array_slice items offset endIndex in
    List.map mapDynamoDBItemToType sliced.

(** [handleError] only writes to the console; its result here is the first
    argument of that [console.error]. *)
Definition handleError (error : JsError) : string :=
  if instanceofDynamoValidationError error then "Validation error:"
  else "Error in DynamoDB operation:".

(** ["KeyConditionExpression" in params] *)
Definition hasKeyCondition (params : CommandInput.params) : bool :=
  match params.(CommandInput.KeyConditionExpression) with
  | Some _ => true
  | None => false
  end.

(** [dynamoDBClient.send(new QueryCommand(params))] or the same with a
    [ScanCommand]. *)
Definition commandFor (params : CommandInput.params) : Command :=
  if hasKeyCondition params then QueryCommand params else ScanCommand params.

(** [item[key]] for a stored item, which is a plain object: the attribute
    when the item has one of that name, otherwise the member that every plain
    object inherits from [Object.prototype] under that name, otherwise
    [undefined]. *)
Inductive Member : Type :=
| OwnAttribute (attr : AttributeValue)
| Inherited (name : string)
| Missing.

Definition Item_get (item : Item) (key : string) : Member :=
  match item !! key with
  | Some attr => OwnAttribute attr
  | None =>
      match assoc key Object_prototype with
      | Some _ => Inherited key
      | None => Missing
      end
  end.

(** ** DynamoDBService with the client-side sort *)

Module SortingService.
Section Service.
Context `{Platform}.

(** The constructor's arguments. *)
Variables (tableName pkName : string).

Definition prepareQueryParameters (query : IGenericFilterQuery)
  : Result (CommandInput.params * Q * Q * IPaginationQuery) :=
  let pagination := default emptyPagination query.(pagination) in
  let filters := default [] query.(filters) in
  validatePagination pagination;;
  let '(limit, offset) := calculatePaginationValues pagination in
  if Qeq_bool limit 0 then
    Ok (CommandInput.ofTable tableName, 0%Q, 0%Q, pagination)
  else
    expr ← buildFilterExpression pkName filters;
    params ← buildQueryParams tableName expr (Some pagination);
    Ok (params, limit, offset, pagination).

(** The value written to the console for one of the first five items:
    [fromDynamoDBValue(item[sortKey] || { S: "" })]. A wire value and an
    inherited member are both truthy. *)
Definition loggedValue (sortKey : string) (item : Item) : Result JsValue :=
  match Item_get item sortKey with
  | OwnAttribute attr => Ok (fromDynamoDBValue attr)
  | Inherited name => fromDynamoDBValue_member name
  | Missing => Ok (fromDynamoDBValue (AttrS ""))
  end.

(** The value the comparison reads for one item:
    [a[sortKey] ? fromDynamoDBValue(a[sortKey]) : ""]. *)
Definition sortValue (sortKey : string) (a : Item) : Result JsValue :=
  match Item_get a sortKey with
  | OwnAttribute attr => Ok (fromDynamoDBValue attr)
  | Inherited name => fromDynamoDBValue_member name
  | Missing => Ok (JStr "")
  end.

(** The comparison function handed to [sort]. *)
Definition compareItems (sortKey : string) (scanForward : bool) (a b : Item)
  : Result Q :=
  aVal ← sortValue sortKey a;
  bVal ← sortValue sortKey b;
  match aVal, bVal with
  | JStr x, JStr y =>
      Ok (inject_Z (if scanForward then localeCompare x y else localeCompare y x))
  | JNum x, JNum y =>
      Ok (if scanForward then (x - y)%Q else (y - x)%Q)
  | _, _ =>
      let x := ToString aVal in
      let y := ToString bVal in
      Ok (inject_Z (if scanForward then localeCompare x y else localeCompare y x))
  end.

Definition executeQuery (params : CommandInput.params) (dynamoDBClient : Client)
    (pagination : IPaginationQuery) : list Command * Result (list Item) :=
  let command := commandFor params in
  ([command],
   response ← dynamoDBClient command;
   let items := default [] response.(Items) in
   if truthy pagination.(sortBy) then
     let sortKey := default "" pagination.(sortBy) in
     let scanForward := negb (bool_decide (pagination.(sortDirection) = Some "desc")) in
     forEachR (λ item, _ ← loggedValue sortKey item; Ok tt) (take 5 items);;
     Array_sort (compareItems sortKey scanForward) items
   else Ok items).

Definition fetchWithFiltersAndPagination (query : IGenericFilterQuery)
    (dynamoDBClient : Client) : FetchRun :=
  match prepareQueryParameters query with
  | Throw error =>
      {| sent := []; errorLog := [handleError error]; outcome := Throw error |}
  | Ok (params, limit, offset, pagination) =>
      match executeQuery params dynamoDBClient pagination with
      | (commands, Throw error) =>
          {| sent := commands; errorLog := [handleError error];
             outcome := Throw error |}
      | (commands, Ok items) =>
          let total := length items in
          let data := processResults items limit offset in
          {| sent := commands; errorLog := [];
             outcome := Ok {| data := data; total := total |} |}
      end
  end.

End Service.
End SortingService.

(** ** DynamoDBService without the client-side sort *)

Module PlainService.
Section Service.
Context `{Platform}.

Variables (tableName pkName : string).

Definition prepareQueryParameters (query : IGenericFilterQuery)
  : Result (CommandInput.params * Q * Q) :=
  let pagination := default emptyPagination query.(pagination) in
  let filters := default [] query.(filters) in
  validatePagination pagination;;
  let '(limit, offset) := calculatePaginationValues pagination in
  if Qeq_bool limit 0 then
    Ok (CommandInput.ofTable tableName, 0%Q, 0%Q)
  else
    expr ← buildFilterExpression pkName filters;
    params ← buildQueryParams tableName expr None;
    Ok (params, limit, offset).

Definition executeQuery (params : CommandInput.params) (dynamoDBClient : Client)
  : list Command * Result (list Item) :=
  let command := commandFor params in
  ([command],
   response ← dynamoDBClient command;
   Ok (default [] response.(Items))).

Definition fetchWithFiltersAndPagination (query : IGenericFilterQuery)
    (dynamoDBClient : Client) : FetchRun :=
  match prepareQueryParameters query with
  | Throw error =>
      {| sent := []; errorLog := [handleError error]; outcome := Throw error |}
  | Ok (params, limit, offset) =>
      match executeQuery params dynamoDBClient with
      | (commands, Throw error) =>
          {| sent := commands; errorLog := [handleError error];
             outcome := Throw error |}
      | (commands, Ok items) =>
          let total := length items in
          let data := processResults items limit offset in
          {| sent := commands; errorLog := [];
             outcome := Ok {| data := data; total := total |} |}
      end
  end.

End Service.
End PlainService.

(** ** Reading an expression back

    The placeholders an expression text refers to: at each [#] or [:], the
    sign together with the longest run of letters, digits and underscores
    that follows it. *)

Definition isSigil (c : ascii) : bool := Ascii.eqb c "#" || Ascii.eqb c ":".

Fixpoint identPrefix (s : string) : string :=
  match s with
  | EmptyString => EmptyString
  | String c r => if isIdentChar c then String c (identPrefix r) else EmptyString
  end.

Fixpoint placeholders (s : string) : list string :=
  match s with
  | EmptyString => []
  | String c r =>
      if isSigil c then String c (identPrefix r) :: placeholders r
      else placeholders r
  end.

(** A placeholder is defined by an expression when the map of its kind has
    an entry for it: [ExpressionAttributeNames] for [#], otherwise
    [ExpressionAttributeValues]. *)
Definition defines (expr : DynamoDBFilterExpression) (key : string) : Prop :=
  match key with
  | String "#" _ => is_Some (default ∅ expr.(ExpressionAttributeNames) !! key)
  | _ => is_Some (default ∅ expr.(ExpressionAttributeValues) !! key)
  end.

(** A character that does not open a placeholder. *)
Definition plainChar (c : ascii) : bool := negb (isSigil c).

(** A placeholder as the builder writes them: the sign, then letters,
    digits and underscores only. *)
Definition isPlaceholderKey (key : string) : Prop :=
  ∃ c body, key = String c body ∧ isSigil c = true
            ∧ allChars isIdentChar body = true.

(** The digits a string starts with. *)
Fixpoint digitPrefix (s : string) : string :=
  match s with
  | EmptyString => EmptyString
  | String c r => if isDigitAscii c then String c (digitPrefix r) else EmptyString
  end.

(** ** The pagination object as a request can carry it

    [validatePagination] takes [any], and the object comes from a request,
    where a field that the interface declares a number can also be [null].
    The two functions that read the fields, over such objects. *)

Module Untyped.

(** A field that is present: [null] or a number. An absent field, which
    reads [undefined], is [None]. *)
Inductive Given : Type :=
| null
| number (x : Q).

Record Pagination : Type := {
  page : option Given;
  limit : option Given;
  offset : option Given;
  size : option Given
}.

(** [Number(v)], the conversion that [Math.floor] applies as well. *)
Definition Number (v : Given) : Q :=
  match v with
  | null => 0%Q
  | number x => x
  end.

(** The defaults of the destructuring patterns are taken for [undefined]
    only, so a [null] is kept. *)
Definition validatePagination (pagination : Pagination) : Result unit :=
  let page := default (number 1) pagination.(page) in
  let size := default (number 10) pagination.(size) in
  let limit := pagination.(limit) in
  let offset := default (number 0) pagination.(offset) in
  if negb (Number_isInteger (Number page)) then
    Throw (DynamoValidationError "Page must be an integer")
  else if negb (Number_isInteger (Number size)) then
    Throw (DynamoValidationError "Size must be an integer")
  else if match limit with
          | Some l => negb (Number_isInteger (Number l))
          | None => false
          end then
    Throw (DynamoValidationError "Limit must be an integer")
  else if negb (Number_isInteger (Number offset)) then
    Throw (DynamoValidationError "Offset must be an integer")
  else Ok tt.

Definition calculatePaginationValues (pagination : Pagination) : Q * Q :=
  let page := default (number 1) pagination.(page) in
  let limit := default (number 100) pagination.(limit) in
  let offset := pagination.(offset) in
  let page := Math_max 1 (Math_floor (Number page)) in
  let limit := Math_max 0 (Math_floor (Number limit)) in
  let offset :=
    match offset with
    | Some (number o) => if negb (Qle_bool 0 o) then ((page - 1) * limit)%Q else o
    | _ => ((page - 1) * limit)%Q
    end in
  (limit, offset).

(** [field ?? d] *)
Definition nullish (d : Q) (field : option Given) : Q :=
  match field with
  | Some (number x) => x
  | _ => d
  end.

(** [max(0, floor(limit ?? 100))], the limit in the words of the
    specification. *)
Definition specLimit (pagination : Pagination) : Z :=
  Z.max 0 (Qfloor (nullish 100 pagination.(limit))).

End Untyped.

(** A pagination object of the declared type, among the objects a request
    can carry. *)
Definition untyped (p : IPaginationQuery) : Untyped.Pagination :=
  {| Untyped.page := Untyped.number <$> p.(page);
     Untyped.limit := Untyped.number <$> p.(limit);
     Untyped.offset := Untyped.number <$> p.(offset);
     Untyped.size := Untyped.number <$> p.(size) |}.

(** [{ limit: null }] *)
Definition limitNull : Untyped.Pagination :=
  {| Untyped.page := None; Untyped.limit := Some Untyped.null;
     Untyped.offset := None; Untyped.size := None |}.

(** ** The normalisation of the pagination, in the words of the
    specification: [page = max(1, floor(page ?? 1))],
    [limit = max(0, floor(limit ?? 100))], and [offset] itself when it is a
    number that is at least 0, otherwise [(page - 1) * limit]. *)

Definition specPage (p : IPaginationQuery) : Z :=
  Z.max 1 (Qfloor (default 1%Q p.(page))).

Definition specLimit (p : IPaginationQuery) : Z :=
  Z.max 0 (Qfloor (default 100%Q p.(limit))).

Definition specOffset (p : IPaginationQuery) : Q :=
  match p.(offset) with
  | Some o => if Qle_bool 0 o then o else inject_Z ((specPage p - 1) * specLimit p)
  | None => inject_Z ((specPage p - 1) * specLimit p)
  end.

(** [Number.MAX_SAFE_INTEGER]: up to it the integers are doubles, and the
    arithmetic of doubles on them is exact. *)
Definition MAX_SAFE_INTEGER : Z := 2 ^ 53 - 1.

(** The page, the limit and the product [(page - 1) * limit] are within the
    integers that the arithmetic of doubles computes exactly. *)
Definition withinSafeIntegers (p : IPaginationQuery) : Prop :=
  specPage p <= MAX_SAFE_INTEGER
  ∧ specLimit p <= MAX_SAFE_INTEGER
  ∧ (specPage p - 1) * specLimit p <= MAX_SAFE_INTEGER.

(** ** A store to run the executors against

    The store answers a scan that carries no expression with its whole table;
    no other command is interpreted. [matchedCount] is the number of items
    that satisfy every predicate of a list, for predicates that compare a
    top-level scalar attribute with [=]; it is [None] for any other list. *)

Definition wholeTableStore (table : list Item) : Client := λ command,
  match command with
  | ScanCommand input =>
      match input.(CommandInput.FilterExpression),
            input.(CommandInput.KeyConditionExpression) with
      | None, None => Ok {| Items := Some table |}
      | _, _ => Throw (StoreError "expression not interpreted")
      end
  | QueryCommand _ => Throw (StoreError "expression not interpreted")
  end.

Definition satisfiesEquality (item : Item) (f : IFilterQuery) : option bool :=
  if String.eqb f.(operator) "=" then
    match item !! f.(field), toDynamoDBValue f.(value) with
    | Some (AttrS a), AttrS b => Some (String.eqb a b)
    | Some (AttrN a), AttrN b => Some (Qeq_bool a b)
    | Some (AttrBOOL a), AttrBOOL b => Some (Bool.eqb a b)
    | Some (AttrL _), _ | Some (AttrM _), _ | _, AttrL _ | _, AttrM _ => None
    | _, _ => Some false
    end
  else None.

Fixpoint satisfiesAll (item : Item) (fs : list IFilterQuery) : option bool :=
  match fs with
  | [] => Some true
  | f :: r =>
      match satisfiesEquality item f, satisfiesAll item r with
      | Some b, Some c => Some (b && c)
      | _, _ => None
      end
  end.

Fixpoint matchedCount (fs : list IFilterQuery) (table : list Item) : option nat :=
  match table with
  | [] => Some 0%nat
  | item :: r =>
      match satisfiesAll item fs, matchedCount fs r with
      | Some b, Some n => Some (if b then S n else n)
      | _, _ => None
      end
  end.

(** ** Data for the examples *)

(** An instance of the host's services for running the embedding on
    examples: decimal text for an integer, and comparison by character
    code. *)
Definition integerToString (x : Q) : string := pretty (Qfloor x).

Definition codeUnitCompare (a b : string) : Z :=
  match String.compare a b with
  | Lt => -1
  | Eq => 0
  | Gt => 1
  end.

(** The sort of the example host: insertion into the sorted rest, which an
    exception of the comparison leaves. *)
Fixpoint sortInsert {A} (compare : A → A → Result Q) (x : A) (sorted : list A)
  : Result (list A) :=
  match sorted with
  | [] => Ok [x]
  | y :: r =>
      c ← compare x y;
      if Qle_bool c 0 then Ok (x :: y :: r)
      else rest ← sortInsert compare x r; Ok (y :: rest)
  end.

Fixpoint insertionSort {A} (compare : A → A → Result Q) (items : list A)
  : Result (list A) :=
  match items with
  | [] => Ok []
  | x :: r => sorted ← insertionSort compare r; sortInsert compare x sorted
  end.

(** The example host: decimal text for an integer, comparison by character
    code, a codec that rejects what is not a wire value, and the insertion
    sort. *)
Definition examplePlatform : Platform.
Proof.
  assert (∀ A (compare : A → A → Result Q) x l l',
            sortInsert compare x l = Ok l' → l' ≡ₚ x :: l) as Hinsert.
  { intros A compare x l. induction l as [|y r IH]; intros l'; simpl.
    - by intros [= <-].
    - unfold mbind, Result_bind. destruct (compare x y) as [c|]; [|done].
      destruct (Qle_bool c 0); [by intros [= <-]|].
      destruct (sortInsert compare x r) as [rest|]; [|done].
      intros [= <-]. rewrite (IH rest eq_refl). apply Permutation_swap. }
  assert (∀ A (compare : A → A → Result Q) l l',
            insertionSort compare l = Ok l' → l' ≡ₚ l) as Hsort.
  { intros A compare l. induction l as [|x r IH]; intros l'; simpl.
    - by intros [= <-].
    - unfold mbind, Result_bind.
      destruct (insertionSort compare r) as [sorted|]; [|done].
      intros Hl'. rewrite (Hinsert _ _ _ _ _ Hl'). by rewrite (IH sorted eq_refl). }
  refine {| Number_toString := integerToString;
            localeCompare := codeUnitCompare;
            fromDynamoDBValue_member := λ _, Throw (TypeError "not a wire value");
            Array_sort := @insertionSort |}.
  - intros A compare items. induction items as [|x r IH]; intros e; simpl; [done|].
    unfold mbind, Result_bind.
    destruct (insertionSort compare r) as [sorted|e'] eqn:Hr.
    + intros Hthrow.
      assert (∃ y, y ∈ sorted ∧ compare x y = Throw e) as (y & Hy & Hxy).
      { clear -Hthrow. induction sorted as [|y s IHs]; simpl in Hthrow; [done|].
        unfold mbind, Result_bind in Hthrow.
        destruct (compare x y) as [c|e'] eqn:Hc.
        - destruct (Qle_bool c 0); [done|].
          destruct (sortInsert compare x s) as [rest|e'] eqn:Hs; [done|].
          destruct (IHs Hthrow) as (z & Hz & Hxz).
          exists z. split; [by apply list_elem_of_further|done].
        - injection Hthrow as ->. exists y. split; [apply list_elem_of_here|done]. }
      exists x, y. split; [apply list_elem_of_here|].
      split; [|done]. apply list_elem_of_further. by rewrite <- (Hsort _ _ _ _ Hr).
    + intros [= ->]. destruct (IH e eq_refl) as (a & b & Ha & Hb & Hab).
      exists a, b. split; [by apply list_elem_of_further|].
      split; [by apply list_elem_of_further|done].
  - exact Hsort.
  - intros A compare items sorted (c & Hc & Hanti & Htrans).
    revert sorted. induction items as [|x r IH]; intros sorted; simpl.
    { intros [= <-]. constructor. }
    unfold mbind, Result_bind.
    destruct (insertionSort compare r) as [s|] eqn:Hr; [|done].
    assert (s ≡ₚ r) as Hperm by exact (Hsort _ _ _ _ Hr).
    assert (StronglySorted (λ a b, ∃ q, compare a b = Ok q ∧ (q <= 0)%Q) s) as Hs.
    { apply IH; [| | |done].
      - intros a b Ha Hb. apply Hc; by apply list_elem_of_further.
      - intros a b Ha Hb. apply Hanti; by apply list_elem_of_further.
      - intros a b d Ha Hb Hd. apply Htrans; by apply list_elem_of_further. }
    assert (∀ y, y ∈ s → y ∈ x :: r) as Hin.
    { intros y Hy. apply list_elem_of_further. by rewrite <- Hperm. }
    clear IH Hr Hperm. revert sorted.
    induction Hs as [|y s Hs IHs Hy]; intros sorted; simpl.
    { intros [= <-]. repeat constructor. }
    unfold mbind, Result_bind.
    assert (x ∈ x :: r) as Hx by apply list_elem_of_here.
    assert (y ∈ x :: r) as Hyin by (apply Hin, list_elem_of_here).
    rewrite (Hc x y Hx Hyin).
    destruct (Qle_bool (c x y) 0) eqn:Hle.
    + intros [= <-]. apply Qle_bool_iff in Hle.
      constructor; [by constructor|].
      constructor; [by eauto|].
      rewrite Forall_forall in Hy |- *. intros z Hz.
      destruct (Hy z Hz) as (q & Hq & Hq0).
      assert (z ∈ x :: r) as Hzin by (by apply Hin, list_elem_of_further).
      rewrite (Hc y z Hyin Hzin) in Hq. injection Hq as <-.
      exists (c x z). split; [by apply Hc|]. by apply (Htrans x y z).
    + destruct (sortInsert compare x s) as [rest|] eqn:Hrest; [|done].
      intros [= <-].
      assert (StronglySorted (λ a b, ∃ q, compare a b = Ok q ∧ (q <= 0)%Q) rest)
        as Hsrest.
      { apply IHs; [|done]. intros z Hz. by apply Hin, list_elem_of_further. }
      constructor; [done|].
      rewrite Forall_forall. intros z Hz.
      rewrite (Hinsert _ _ _ _ _ Hrest) in Hz.
      apply elem_of_cons in Hz as [->|Hz].
      * exists (c y x). split; [by apply Hc|].
        apply Qnot_lt_le. intros Hpos. apply (Hanti x y Hx Hyin) in Hpos.
        apply Qlt_le_weak, Qle_bool_iff in Hpos. congruence.
      * rewrite Forall_forall in Hy. by apply Hy.
Defined.

Definition paginationOf (page limit offset : option Q) (sortBy sortDirection : option string)
  : IPaginationQuery :=
  {| page := page; limit := limit; offset := offset; size := None;
     sortBy := sortBy; sortDirection := sortDirection |}.

Definition person (name : string) (age : Z) : Item :=
  {[ "name" := AttrS name; "age" := AttrN (inject_Z age) ]}.

Definition people : list Item := [person "Ann" 30; person "Bob" 10; person "Cy" 20].

(** ** Conditions on the expression under construction *)

(** Both placeholder maps exist, as they do from the moment
    [buildFilterExpression] creates [expr]. *)
Definition mapsPresent (expr : DynamoDBFilterExpression) : Prop :=
  is_Some expr.(ExpressionAttributeNames) ∧ is_Some expr.(ExpressionAttributeValues).

(** [later] still has both maps, defines every placeholder [earlier]
    defines, and has the same key condition. *)
Definition grows (earlier later : DynamoDBFilterExpression) : Prop :=
  mapsPresent later
  ∧ (∀ key, defines earlier key → defines later key)
  ∧ later.(KeyConditionExpression) = earlier.(KeyConditionExpression).

(** The text [path], followed by a character that cannot continue a
    placeholder, refers to the placeholders [keys] and then to those of what
    follows. *)
Definition readsAs (path : string) (keys : list string) : Prop :=
  ∀ c r, isIdentChar c = false →
    placeholders (path +:+ String c r) = (keys ++ placeholders (String c r))%list.

(** A placeholder generated for the predicate at [index]: [#key] or [:val],
    the index in decimal, and then nothing or an underscore and more. *)
Definition ownedBy (index : nat) (key : string) : Prop :=
  ∃ rest,
    (key = "#key" +:+ indexToString index +:+ rest
     ∨ key = ":val" +:+ indexToString index +:+ rest)
    ∧ (rest = "" ∨ ∃ r, rest = String "_" r).

(** Every placeholder of the text [s] is defined by [expr] and is one of
    those generated for the predicate at [index]. *)
Definition settled (index : nat) (s : string) (expr : DynamoDBFilterExpression) : Prop :=
  Forall (λ key, defines expr key ∧ ownedBy index key) (placeholders s).

(** The exception of [buildBasicExpression]. *)
Definition unsupported (operator : string) : JsError :=
  DynamoValidationError ("Unsupported operator: " +:+ operator).

(** What the plain executor's [prepareQueryParameters] returns, out of what
    the sorting one returns: the same without the [pagination] component. *)
Definition withoutPagination
    (prepared : Result (CommandInput.params * Q * Q * IPaginationQuery))
  : Result (CommandInput.params * Q * Q) :=
  match prepared with
  | Ok (params, limit, offset, _) => Ok (params, limit, offset)
  | Throw e => Throw e
  end.

(** Queries for the examples. *)
Definition tildeQuery : IGenericFilterQuery :=
  {| pagination := None;
     filters := Some [{| field := "age"; operator := "~"; value := JNum 3 |}] |}.

Definition constructorQuery : IGenericFilterQuery :=
  {| pagination := None;
     filters := Some [{| field := "age"; operator := "constructor"; value := JNum 3 |}] |}.

Definition countAnnQuery : IGenericFilterQuery :=
  {| pagination := Some (paginationOf None (Some 0%Q) None None None);
     filters := Some [{| field := "name"; operator := "="; value := JStr "Ann" |}] |}.





(** The comparison of the sort does not put [a] after [b]. *)
Definition notAfter `{Platform} (sortKey : string) (scanForward : bool)
    (a b : Item) : Prop :=
  ∃ c, SortingService.compareItems sortKey scanForward a b = Ok c ∧ (c <= 0)%Q.


(** [localeCompare] puts the empty string before every other string. *)
Definition localeCompare_empty `{Platform} : Prop :=
  ∀ s, s ≠ "" → localeCompare "" s < 0.

(** Items for the examples of the sort with a missing attribute. *)
Definition unnamed (age : Z) : Item := {[ "age" := AttrN (inject_Z age) ]}.

Definition likeHelloWorld : IFilterQuery :=
  {| field := "name"; operator := "like"; value := JStr "Hello World" |}.

Definition threeFilters : list IFilterQuery :=
  [likeHelloWorld;
   {| field := "id"; operator := "="; value := JStr "1" |};
   {| field := "address.city"; operator := "in";
      value := JArr [JStr "Oslo"; JStr "Rome"] |}].

(** ** Conditions on field names and values *)

(** A letter, a digit, the underscore or the dot. *)
Definition isFieldChar (c : ascii) : bool := isIdentChar c || Ascii.eqb c ".".

(** No [null], no [undefined], no empty array and no string longer than
    [MAX_VALUE_LENGTH], at any depth of a value. *)
Fixpoint wellFormedValue (v : JsValue) : bool :=
  match v with
  | JUndefined | JNull => false
  | JBool _ | JNum _ => true
  | JStr s => (strLen s <=? MAX_VALUE_LENGTH)%Z
  | JArr elems =>
      match elems with
      | [] => false
      | _ => forallb wellFormedValue elems
      end
  | JObj props => forallb (λ kv, wellFormedValue (snd kv)) props
  end.

(** The exceptions that leave [validateValue]. *)
Definition validateValueErrors : list JsError :=
  [TypeError "Cannot convert undefined or null to object";
   DynamoValidationError "Potential NoSQL injection detected";
   DynamoValidationError "Value length exceeds maximum of 400000";
   DynamoValidationError "Empty arrays not supported"].

(** The test of [validateValue] on the stringified value. *)
Definition injectionIn (stringified : string) : bool :=
  existsb (λ pattern, includes (toLowerCase stringified) (toLowerCase pattern))
          dangerousPatterns.

(** ** Conditions on the pagination *)

(** A number without a fractional part. *)
Definition whole (x : Q) : Prop := ∃ z : Z, (x == inject_Z z)%Q.

(** [{ page, limit }] of a request for one page. *)
Definition pageRequest (page : nat) (limit : Z) : IPaginationQuery :=
  {| page := Some (inject_Z (Z.of_nat page)); limit := Some (inject_Z limit);
     offset := None; size := None; sortBy := None; sortDirection := None |}.

(** ** What a placeholder stands for *)

(** The attribute name a [#] placeholder stands for, and the value a [:]
    placeholder stands for; [None] without an entry. *)
Definition nameOf (expr : DynamoDBFilterExpression) (key : string) : option string :=
  default ∅ expr.(ExpressionAttributeNames) !! key.

Definition valueOf (expr : DynamoDBFilterExpression) (key : string)
  : option AttributeValue :=
  default ∅ expr.(ExpressionAttributeValues) !! key.

(** [later] has the key condition of [earlier] and the same entry, or the
    same lack of one, for every placeholder outside [written]. *)
Definition keeps (written : string → Prop)
    (earlier later : DynamoDBFilterExpression) : Prop :=
  later.(KeyConditionExpression) = earlier.(KeyConditionExpression)
  ∧ ∀ key, ¬ written key →
      nameOf later key = nameOf earlier key ∧ valueOf later key = valueOf earlier key.

(** The placeholders of one search term of a [like] predicate. *)
Definition likeKey (index termIndex : nat) (suffix : string) : string :=
  ":val" +:+ indexToString index +:+ "_" +:+ indexToString termIndex +:+ suffix.

(** The placeholder of one alternative of an [in] predicate. *)
Definition inKey (index valIndex : nat) : string :=
  ":val" +:+ indexToString index +:+ "_" +:+ indexToString valIndex.

Definition likeSuffixes : list string := ["_l"; "_u"; "_o"].

(** The search terms of [buildLikeExpression] and the alternatives of
    [buildInExpression]. *)
Definition likeTerms `{Platform} (value : JsValue) : list string :=
  List.filter (λ term, (0 <? String.length term)%nat)
              (splitWhiteSpace (toLowerCase (ToString value))).

Definition inValues (value : JsValue) : list JsValue :=
  match value with JArr elems => elems | _ => [value] end.

(** The placeholders of the predicate [f] at [index] stand for the
    segments of its field name and for its value: the three case variants
    of each search term of a [like], each alternative of an [in], and the
    value itself otherwise. *)
Definition standsFor `{Platform} (index : nat) (f : IFilterQuery)
    (expr : DynamoDBFilterExpression) : Prop :=
  (∀ j part, split "." f.(field) !! j = Some part →
             nameOf expr (nameKey index j) = Some part)
  ∧ if String.eqb f.(operator) "like" || String.eqb f.(operator) "not like" then
      ∀ j term, likeTerms f.(value) !! j = Some term →
        valueOf expr (likeKey index j "_l")
        = Some (toDynamoDBValue (JStr (toLowerCase term)))
        ∧ valueOf expr (likeKey index j "_u")
          = Some (toDynamoDBValue (JStr (toUpperCase term)))
        ∧ valueOf expr (likeKey index j "_o") = Some (toDynamoDBValue (JStr term))
    else if String.eqb f.(operator) "in" || String.eqb f.(operator) "not in" then
      ∀ j v, inValues f.(value) !! j = Some v →
        valueOf expr (inKey index j) = Some (toDynamoDBValue v)
    else
      valueOf expr (":val" +:+ indexToString index) = Some (toDynamoDBValue f.(value)).

(** The expression when [buildFilterExpression] has dealt with the
    partition key and turns to the remaining predicates. *)
Definition afterPartitionKey (pkFilter : option IFilterQuery) : DynamoDBFilterExpression :=
  match pkFilter with
  | Some pk =>
      {| KeyConditionExpression := Some "#pk = :pkVal";
         FilterExpression := None;
         ExpressionAttributeNames := Some (<["#pk" := pk.(field)]> ∅);
         ExpressionAttributeValues :=
           Some (<[":pkVal" := toDynamoDBValue pk.(value)]> ∅) |}
  | None =>
      {| KeyConditionExpression := None; FilterExpression := None;
         ExpressionAttributeNames := Some ∅; ExpressionAttributeValues := Some ∅ |}
  end.

(** The people named Ann, with the default pagination. *)
Definition annQuery : IGenericFilterQuery :=
  {| pagination := None;
     filters := Some [{| field := "name"; operator := "="; value := JStr "Ann" |}] |}.

(** Everybody, by age, one person a page, the second page. *)
Definition secondByAgeQuery : IGenericFilterQuery :=
  {| pagination := Some (paginationOf (Some 2%Q) (Some 1%Q) None (Some "age") None);
     filters := None |}.

(** Every attribute name that a placeholder of [expr] stands for
    satisfies [Q]. *)
Definition namesSatisfy (Q : string → Prop) (expr : DynamoDBFilterExpression) : Prop :=
  ∀ key name, nameOf expr key = Some name → Q name.

(** * Properties *)

(** ** Partition-key extraction *)

Lemma extractPartitionKeyFilter_cases (pkName : string) (filters : list IFilterQuery) :
  let qualifies := λ f : IFilterQuery, f.(field) = pkName ∧ f.(operator) = "=" in
  (Forall (λ f, ¬ qualifies f) filters
   ∧ extractPartitionKeyFilter pkName filters = (None, filters))
  ∨ (∃ before pk after,
       filters = (before ++ pk :: after)%list
       ∧ Forall (λ f, ¬ qualifies f) before
       ∧ qualifies pk
       ∧ extractPartitionKeyFilter pkName filters = (Some pk, (before ++ after)%list)).
Proof.
  intros qualifies. unfold extractPartitionKeyFilter.
  destruct (list_find _ filters) as [[i x]|] eqn:Hfind.
  - right. apply list_find_Some in Hfind as (Hi & Hx & Hbefore).
    exists (take i filters), x, (drop (S i) filters).
    split; [by rewrite take_drop_middle|].
    split.
    { apply Forall_forall. intros y Hy.
      apply list_elem_of_lookup in Hy as [j Hj].
      pose proof (lookup_lt_Some _ _ _ Hj) as Hlt.
      rewrite length_take in Hlt.
      rewrite lookup_take_lt in Hj by lia.
      apply (Hbefore j y Hj). lia. }
    split; [exact Hx|].
    by rewrite Hi, delete_take_drop.
  - left. apply list_find_None in Hfind. by split.
Qed.

(** C2. For every filter list, [extractPartitionKeyFilter] either finds no
    predicate on the partition key with operator [=] and returns the list
    unchanged, or removes exactly the first such predicate: the list is
    [before ++ pk :: after] with no qualifying predicate in [before], the
    promoted predicate is [pk], and the remaining predicates are
    [before ++ after], in their original order and with every later
    qualifying predicate still among them. [addPartitionKeyExpression] then
    sets the key condition to [#pk = :pkVal] and binds [#pk] to the field
    and [:pkVal] to the encoded value. *)
Theorem extractPartitionKeyFilter_first_match (pkName : string)
    (filters : list IFilterQuery) :
  let qualifies := λ f : IFilterQuery, f.(field) = pkName ∧ f.(operator) = "=" in
  (Forall (λ f, ¬ qualifies f) filters
   ∧ extractPartitionKeyFilter pkName filters = (None, filters))
  ∨ (∃ before pk after,
       filters = (before ++ pk :: after)%list
       ∧ Forall (λ f, ¬ qualifies f) before
       ∧ qualifies pk
       ∧ extractPartitionKeyFilter pkName filters = (Some pk, (before ++ after)%list)
       ∧ ∀ keyCondition filterText names values,
           addPartitionKeyExpression pk
             {| KeyConditionExpression := keyCondition;
                FilterExpression := filterText;
                ExpressionAttributeNames := Some names;
                ExpressionAttributeValues := Some values |}
           = Ok (tt, {| KeyConditionExpression := Some "#pk = :pkVal";
                        FilterExpression := filterText;
                        ExpressionAttributeNames := Some (<["#pk" := pk.(field)]> names);
                        ExpressionAttributeValues :=
                          Some (<[":pkVal" := toDynamoDBValue pk.(value)]> values) |})).
Proof.
  intros qualifies.
  destruct (extractPartitionKeyFilter_cases pkName filters)
    as [?|(before & pk & after & ? & ? & ? & ?)]; [by left|].
  right. by exists before, pk, after.
Qed.

(** ** Pagination *)

Lemma Math_max_inject_Z (a b : Z) :
  Math_max (inject_Z a) (inject_Z b) = inject_Z (Z.max a b).
Proof.
  unfold Math_max, Qle_bool. simpl. rewrite !Z.mul_1_r.
  destruct (Z.leb_spec a b).
  - by rewrite Z.max_r by lia.
  - by rewrite Z.max_l by lia.
Qed.

Lemma offset_product_inject_Z (p l : Z) :
  ((inject_Z p - 1) * inject_Z l)%Q = inject_Z ((p - 1) * l).
Proof.
  unfold Qminus, Qplus, Qmult, Qopp, inject_Z. simpl. f_equal. ring.
Qed.

Lemma Number_isInteger_inject_Z (z : Z) : Number_isInteger (inject_Z z) = true.
Proof.
  unfold Number_isInteger. rewrite Qfloor_Z. apply Qeq_bool_iff. reflexivity.
Qed.

Lemma calculatePaginationValues_eq (p : IPaginationQuery) :
  calculatePaginationValues p = (inject_Z (specLimit p), specOffset p).
Proof.
  unfold calculatePaginationValues, specOffset, specLimit, specPage, Math_floor.
  change 1%Q with (inject_Z 1). change 0%Q with (inject_Z 0).
  rewrite !Math_max_inject_Z, offset_product_inject_Z.
  destruct (offset p) as [o|]; [|done].
  by destruct (Qle_bool (inject_Z 0) o).
Qed.

Lemma untyped_validatePagination (p : IPaginationQuery) :
  Untyped.validatePagination (untyped p) = validatePagination p.
Proof. by destruct p as [[?|] [?|] [?|] [?|] ? ?]. Qed.

Lemma untyped_calculatePaginationValues (p : IPaginationQuery) :
  Untyped.calculatePaginationValues (untyped p) = calculatePaginationValues p.
Proof. by destruct p as [[?|] [?|] [?|] [?|] ? ?]. Qed.

Lemma untyped_specLimit (p : IPaginationQuery) :
  Untyped.specLimit (untyped p) = specLimit p.
Proof. by destruct p as [[?|] [?|] [?|] [?|] ? ?]. Qed.

Lemma validatePagination_offset_integer (p : IPaginationQuery) :
  validatePagination p = Ok tt → Number_isInteger (default 0%Q (offset p)) = true.
Proof.
  unfold validatePagination. intros Hvalid.
  destruct (Number_isInteger (default 1%Q (page p))); [|done].
  destruct (Number_isInteger (default 10%Q (size p))); [|done].
  simpl in Hvalid.
  destruct (match limit p with Some l => _ | None => _ end); [done|].
  by destruct (Number_isInteger (default 0%Q (offset p))).
Qed.

(** C3, at the failing input and elsewhere. The pagination object
    [{ limit: null }] passes [validatePagination], since [Number(null)] is
    the integer 0, and [calculatePaginationValues] gives it the limit 0:
    the default of the destructuring pattern is not taken for [null], and
    [Math.floor(null)] is 0. The claim's [max(0, floor(limit ?? 100))] is
    100 there, which is also what the comment in the code promises
    (default to 100 if invalid).

    On the objects of the declared type, whose fields are numbers or absent
    and which the functions over untyped objects treat as the typed ones do,
    the claim holds wherever the arithmetic of doubles is exact: for every
    pagination object that passes [validatePagination] and whose page, limit
    and product [(page - 1) * limit] are within [Number.MAX_SAFE_INTEGER],
    [limit = max(0, floor(limit ?? 100))], and [offset] is the given offset
    when that is a number at least 0 and otherwise [(page - 1) * limit] with
    [page = max(1, floor(page ?? 1))]; the offset is then a non-negative
    integer. In particular [{page: 2, limit: 10}] gives offset 10,
    [{limit: -5}] gives limit 0, and [{offset: -1, page: 1, limit: 10}]
    gives offset 0. *)
Theorem calculatePaginationValues_normalizes :
  (Untyped.validatePagination limitNull = Ok tt
   ∧ fst (Untyped.calculatePaginationValues limitNull) = 0%Q
   ∧ Untyped.specLimit limitNull = 100)
  ∧ (∀ p : IPaginationQuery,
       Untyped.validatePagination (untyped p) = validatePagination p
       ∧ Untyped.calculatePaginationValues (untyped p) = calculatePaginationValues p
       ∧ Untyped.specLimit (untyped p) = specLimit p)
  ∧ (∀ p : IPaginationQuery,
       validatePagination p = Ok tt →
       withinSafeIntegers p →
       calculatePaginationValues p = (inject_Z (specLimit p), specOffset p)
       ∧ Number_isInteger (snd (calculatePaginationValues p)) = true
       ∧ (0 <= snd (calculatePaginationValues p))%Q)
  ∧ (validatePagination (paginationOf (Some 2%Q) (Some 10%Q) None None None) = Ok tt
     ∧ snd (calculatePaginationValues
              (paginationOf (Some 2%Q) (Some 10%Q) None None None)) = 10%Q)
  ∧ (validatePagination (paginationOf None (Some (-5)%Q) None None None) = Ok tt
     ∧ fst (calculatePaginationValues
              (paginationOf None (Some (-5)%Q) None None None)) = 0%Q)
  ∧ (validatePagination
       (paginationOf (Some 1%Q) (Some 10%Q) (Some (-1)%Q) None None) = Ok tt
     ∧ snd (calculatePaginationValues
              (paginationOf (Some 1%Q) (Some 10%Q) (Some (-1)%Q) None None)) = 0%Q).
Proof.
  split; [by vm_compute|].
  split.
  { intros p. split; [apply untyped_validatePagination|].
    split; [apply untyped_calculatePaginationValues|apply untyped_specLimit]. }
  split; [|by vm_compute].
  intros p Hvalid _. rewrite calculatePaginationValues_eq. simpl.
  split; [done|]. split.
  - unfold specOffset.
    pose proof (validatePagination_offset_integer p Hvalid) as Hoff.
    destruct (offset p) as [o|]; simpl in *.
    + destruct (Qle_bool 0 o); [done|]. apply Number_isInteger_inject_Z.
    + apply Number_isInteger_inject_Z.
  - unfold specOffset.
    assert (0 <= inject_Z ((specPage p - 1) * specLimit p))%Q as Hprod.
    { change 0%Q with (inject_Z 0). rewrite <- Zle_Qle.
      unfold specPage, specLimit. nia. }
    destruct (offset p) as [o|]; [|done].
    destruct (Qle_bool 0 o) eqn:Ho; [|done]. by apply Qle_bool_iff.
Qed.

(** Page 3 of 7 items a page starts at offset 14. *)
Lemma calculatePaginationValues_normalizes_witness :
  validatePagination (paginationOf (Some 3%Q) (Some 7%Q) None None None) = Ok tt
  ∧ withinSafeIntegers (paginationOf (Some 3%Q) (Some 7%Q) None None None)
  ∧ calculatePaginationValues (paginationOf (Some 3%Q) (Some 7%Q) None None None)
    = (7%Q, 14%Q).
Proof.
  assert (withinSafeIntegers (paginationOf (Some 3%Q) (Some 7%Q) None None None))
    as Hsafe by (by vm_compute).
  split; [reflexivity|]. split; [exact Hsafe|].
  exact (proj1 (proj1 (proj2 (proj2 calculatePaginationValues_normalizes))
                  (paginationOf (Some 3%Q) (Some 7%Q) None None None)
                  eq_refl Hsafe)).
Defined.

(** ** Values that are [null] or [undefined] *)

Section ValidationProperties.
Context `{Platform}.

(** C5, at the failing input. [validateValue(null)] and
    [validateValue(undefined)] leave through the [TypeError] of
    [Object.prototype.hasOwnProperty.call] in the logging lines, before the
    test that would throw [DynamoValidationError]; a query with such a value
    is rejected before any command is sent, and the error is logged as a store
    error, not as a validation error. *)
Theorem validateValue_null_throws_TypeError (tableName pkName : string)
    (dynamoDBClient : Client) :
  let thrown := TypeError "Cannot convert undefined or null to object" in
  let query := λ v,
    {| pagination := None;
       filters := Some [{| field := "name"; operator := "="; value := v |}] |} in
  validateValue JNull = Throw thrown
  ∧ validateValue JUndefined = Throw thrown
  ∧ instanceofDynamoValidationError thrown = false
  ∧ SortingService.fetchWithFiltersAndPagination tableName pkName (query JNull)
      dynamoDBClient
    = {| sent := []; errorLog := ["Error in DynamoDB operation:"];
         outcome := Throw thrown |}
  ∧ SortingService.fetchWithFiltersAndPagination tableName pkName (query JUndefined)
      dynamoDBClient
    = {| sent := []; errorLog := ["Error in DynamoDB operation:"];
         outcome := Throw thrown |}.
Proof. repeat split. Qed.

End ValidationProperties.

(** ** Operators outside the table *)

Lemma assoc_None (key : string) (entries : list (string * string)) :
  assoc key entries = None ↔ key ∉ List.map fst entries.
Proof.
  induction entries as [|[k v] r IH]; simpl.
  - split; [intros _; apply not_elem_of_nil|done].
  - destruct (String.eqb_spec k key) as [->|Hne].
    + split; [done|]. intros Hn. destruct Hn. apply list_elem_of_here.
    + rewrite IH, not_elem_of_cons. split; [by split|by intros [_ ?]].
Qed.

Lemma assoc_Some_elem (key v : string) (entries : list (string * string)) :
  assoc key entries = Some v → v ∈ List.map snd entries.
Proof.
  induction entries as [|[k w] r IH]; simpl; [done|].
  destruct (String.eqb k key).
  - intros [= ->]. apply list_elem_of_here.
  - intros Hr. apply list_elem_of_further. auto.
Qed.

Lemma operatorMap_get_nonempty (operator dynOp : string) :
  operatorMap_get operator = Some dynOp → String.eqb dynOp "" = false.
Proof.
  unfold operatorMap_get. intros Hget.
  assert (dynOp ∈ (List.map snd operatorMap ++ List.map snd Object_prototype)%list)
    as Hin.
  { apply elem_of_app.
    destruct (assoc operator operatorMap) eqn:Hown.
    - left. injection Hget as <-. by eapply assoc_Some_elem.
    - right. by eapply assoc_Some_elem. }
  clear Hget. revert dynOp Hin. apply Forall_forall. vm_compute.
  repeat constructor.
Qed.

Lemma operatorMap_get_None (operator : string) :
  operatorMap_get operator = None ↔
  (operator ∉ supportedOperators) ∧ assoc operator Object_prototype = None.
Proof.
  unfold operatorMap_get, supportedOperators. rewrite <- assoc_None.
  destruct (assoc operator operatorMap).
  - split; [done|]. by intros [? _].
  - split; [done|]. by intros [_ ?].
Qed.

Section BuilderSteps.
Context `{Platform}.

Lemma setAttributeName_Ok key name expr :
  mapsPresent expr →
  ∃ names, expr.(ExpressionAttributeNames) = Some names
  ∧ setAttributeName key name expr
    = Ok (tt, {| KeyConditionExpression := expr.(KeyConditionExpression);
                 FilterExpression := expr.(FilterExpression);
                 ExpressionAttributeNames := Some (<[key := name]> names);
                 ExpressionAttributeValues := expr.(ExpressionAttributeValues) |}).
Proof.
  intros [[names Hn] _]. exists names. split; [done|].
  unfold setAttributeName. by rewrite Hn.
Qed.

Lemma setAttributeValue_Ok key attr expr :
  mapsPresent expr →
  ∃ values, expr.(ExpressionAttributeValues) = Some values
  ∧ setAttributeValue key attr expr
    = Ok (tt, {| KeyConditionExpression := expr.(KeyConditionExpression);
                 FilterExpression := expr.(FilterExpression);
                 ExpressionAttributeNames := expr.(ExpressionAttributeNames);
                 ExpressionAttributeValues := Some (<[key := attr]> values) |}).
Proof.
  intros [_ [values Hv]]. exists values. split; [done|].
  unfold setAttributeValue. by rewrite Hv.
Qed.

Lemma setAttributeName_present key name expr :
  mapsPresent expr →
  ∃ expr', setAttributeName key name expr = Ok (tt, expr') ∧ mapsPresent expr'.
Proof.
  intros Hp. destruct (setAttributeName_Ok key name expr Hp) as (names & Hn & ->).
  eexists. split; [done|]. destruct Hp. split; simpl; eauto.
Qed.

Lemma setAttributeValue_present key attr expr :
  mapsPresent expr →
  ∃ expr', setAttributeValue key attr expr = Ok (tt, expr') ∧ mapsPresent expr'.
Proof.
  intros Hp. destruct (setAttributeValue_Ok key attr expr Hp) as (values & Hv & ->).
  eexists. split; [done|]. destruct Hp. split; simpl; eauto.
Qed.

(** A callback that cannot throw while the maps are present makes
    [mapWithIndex] return. *)
Lemma mapWithIndex_present {A B} (f : A → nat → Builder B) l start expr :
  (∀ x i e, mapsPresent e → ∃ y e', f x i e = Ok (y, e') ∧ mapsPresent e') →
  mapsPresent expr →
  ∃ ys expr', mapWithIndex f l start expr = Ok (ys, expr') ∧ mapsPresent expr'.
Proof.
  intros Hf. revert start expr.
  induction l as [|x r IH]; intros start expr Hp; simpl.
  - by exists [], expr.
  - destruct (Hf x start expr Hp) as (y & e1 & Hy & Hp1).
    destruct (IH (S start) e1 Hp1) as (ys & e2 & Hys & Hp2).
    exists (y :: ys), e2. split; [|done].
    unfold mbind, Builder_bind. rewrite Hy. simpl.
    unfold mbind, Builder_bind in Hys |- *. by rewrite Hys.
Qed.

(** With a callback that throws exactly on the elements that are [bad],
    [mapWithIndex] over a list with a bad element throws the exception of
    one of them. *)
Lemma mapWithIndex_throws {A B} (f : A → nat → Builder B) (bad : A → Prop)
    (err : A → JsError) l start expr :
  (∀ x i e, mapsPresent e →
     (bad x ∧ f x i e = Throw (err x))
     ∨ (∃ y e', f x i e = Ok (y, e') ∧ mapsPresent e')) →
  (∀ x i e, bad x → mapsPresent e → f x i e = Throw (err x)) →
  mapsPresent expr →
  (∃ x, x ∈ l ∧ bad x) →
  ∃ g, g ∈ l ∧ bad g ∧ mapWithIndex f l start expr = Throw (err g).
Proof.
  intros Hf Hbad. revert start expr.
  induction l as [|x r IH]; intros start expr Hp (z & Hz & Hzbad).
  - by apply elem_of_nil in Hz.
  - simpl. unfold mbind, Builder_bind.
    destruct (Hf x start expr Hp) as [[Hx Hthrow]|(y & e1 & Hy & Hp1)].
    + exists x. rewrite Hthrow. repeat split; [apply list_elem_of_here|done].
    + rewrite Hy. simpl.
      assert (∃ x0, x0 ∈ r ∧ bad x0) as Hr.
      { apply elem_of_cons in Hz as [->|Hz]; [|by eauto].
        rewrite (Hbad _ start expr Hzbad Hp) in Hy. discriminate. }
      destruct (IH (S start) e1 Hp1 Hr) as (g & Hg & Hgbad & Hthrow).
      exists g. split; [by apply list_elem_of_further|]. split; [done|].
      unfold mbind, Builder_bind in Hthrow. by rewrite Hthrow.
Qed.

End BuilderSteps.

Section UnsupportedOperator.
Context `{Platform}.

Lemma buildLikeExpression_present path value index isNot expr :
  mapsPresent expr →
  ∃ s expr', buildLikeExpression path value index isNot expr = Ok (s, expr')
             ∧ mapsPresent expr'.
Proof.
  intros Hp. unfold buildLikeExpression.
  destruct (List.filter _ _) as [|term terms]; [by eexists _, _|].
  set (f := λ (term : string) (termIndex : nat), _).
  destruct (mapWithIndex_present f (term :: terms) 0%nat expr) as (ys & e' & Hys & Hp').
  - intros x i e He. subst f. cbv beta zeta. unfold mbind, Builder_bind.
    destruct (setAttributeValue_present
                (":val" +:+ indexToString index +:+ "_" +:+ indexToString i +:+ "_l")
                (toDynamoDBValue (JStr (toLowerCase x))) e He) as (e1 & -> & He1).
    destruct (setAttributeValue_present
                (":val" +:+ indexToString index +:+ "_" +:+ indexToString i +:+ "_u")
                (toDynamoDBValue (JStr (toUpperCase x))) e1 He1) as (e2 & -> & He2).
    destruct (setAttributeValue_present
                (":val" +:+ indexToString index +:+ "_" +:+ indexToString i +:+ "_o")
                (toDynamoDBValue (JStr x)) e2 He2) as (e3 & -> & He3).
    by eexists _, _.
  - done.
  - unfold mbind at 1, Builder_bind at 1. rewrite Hys. by eexists _, _.
Qed.

Lemma buildInExpression_present path value index isNot expr :
  mapsPresent expr →
  ∃ s expr', buildInExpression path value index isNot expr = Ok (s, expr')
             ∧ mapsPresent expr'.
Proof.
  intros Hp. unfold buildInExpression.
  set (f := λ (val : JsValue) (valIndex : nat), _).
  destruct (mapWithIndex_present f (match value with JArr elems => elems | _ => [value] end)
              0%nat expr) as (ys & e' & Hys & Hp').
  - intros x i e He. subst f. cbv beta zeta. unfold mbind, Builder_bind.
    destruct (setAttributeValue_present
                (":val" +:+ indexToString index +:+ "_" +:+ indexToString i)
                (toDynamoDBValue x) e He) as (e1 & -> & He1).
    by eexists _, _.
  - done.
  - unfold mbind at 1, Builder_bind at 1. rewrite Hys. by eexists _, _.
Qed.

Lemma buildBasicExpression_cases path operator value index expr :
  mapsPresent expr →
  (operatorMap_get operator = None
   ∧ buildBasicExpression path operator value index expr = Throw (unsupported operator))
  ∨ (is_Some (operatorMap_get operator)
     ∧ ∃ s expr', buildBasicExpression path operator value index expr = Ok (s, expr')
                  ∧ mapsPresent expr').
Proof.
  intros Hp. unfold buildBasicExpression, mbind, Builder_bind.
  destruct (setAttributeValue_present (":val" +:+ indexToString index)
              (toDynamoDBValue value) expr Hp) as (e1 & -> & He1).
  destruct (operatorMap_get operator) as [dynOp|] eqn:Hget.
  - right. split; [done|]. rewrite (operatorMap_get_nonempty _ _ Hget). by eexists _, _.
  - by left.
Qed.

Lemma buildSubExpression_cases fieldName operator value index expr :
  mapsPresent expr →
  (operatorMap_get operator = None
   ∧ buildSubExpression fieldName operator value index expr = Throw (unsupported operator))
  ∨ (is_Some (operatorMap_get operator)
     ∧ ∃ s expr', buildSubExpression fieldName operator value index expr = Ok (s, expr')
                  ∧ mapsPresent expr').
Proof.
  intros Hp. unfold buildSubExpression.
  set (f := λ (part : string) (idx : nat), setAttributeName (nameKey index idx) part).
  destruct (mapWithIndex_present f (split "." fieldName) 0%nat expr)
    as (ys & e1 & Hys & He1); [|done|].
  { intros x i e He. subst f. cbv beta.
    destruct (setAttributeName_present (nameKey index i) x e He) as (e' & -> & ?).
    by eexists _, _. }
  unfold mbind, Builder_bind. rewrite Hys.
  destruct (String.eqb_spec operator "like") as [->|_]; simpl.
  { right. split; [by eexists|]. by apply buildLikeExpression_present. }
  destruct (String.eqb_spec operator "not like") as [->|_]; simpl.
  { right. split; [by eexists|]. by apply buildLikeExpression_present. }
  destruct (String.eqb_spec operator "in") as [->|_]; simpl.
  { right. split; [by eexists|]. by apply buildInExpression_present. }
  destruct (String.eqb_spec operator "not in") as [->|_]; simpl.
  { right. split; [by eexists|]. by apply buildInExpression_present. }
  by apply buildBasicExpression_cases.
Qed.

End UnsupportedOperator.

Section UnsupportedOperatorRejected.
Context `{Platform}.

Lemma addFilterExpressions_unsupported (filters : list IFilterQuery) expr f :
  mapsPresent expr →
  f ∈ filters →
  operatorMap_get f.(operator) = None →
  ∃ g, g ∈ filters ∧ operatorMap_get g.(operator) = None
       ∧ addFilterExpressions filters expr = Throw (unsupported g.(operator)).
Proof.
  intros Hp Hf Hbad. unfold addFilterExpressions.
  set (step := λ (filter : IFilterQuery) (i : nat), _).
  destruct (mapWithIndex_throws step
              (λ x : IFilterQuery, operatorMap_get x.(operator) = None)
              (λ x : IFilterQuery, unsupported x.(operator))
              filters 0%nat expr) as (g & Hg & Hgbad & Hthrow).
  - intros x i e He. subst step. cbv beta.
    destruct (buildSubExpression_cases x.(field) x.(operator) x.(value) i e He)
      as [[? ?]|[_ ?]]; [by left|by right].
  - intros x i e Hx He. subst step. cbv beta.
    destruct (buildSubExpression_cases x.(field) x.(operator) x.(value) i e He)
      as [[_ ?]|[[d Hd] _]]; [done|congruence].
  - done.
  - by exists f.
  - exists g. split; [done|]. split; [done|].
    unfold mbind, Builder_bind. by rewrite Hthrow.
Qed.

Lemma buildFilterExpression_unsupported (pkName : string)
    (filters : list IFilterQuery) f :
  forEachR (λ filter : IFilterQuery,
              validateFieldName filter.(field);; validateValue filter.(value))
           filters = Ok tt →
  f ∈ filters →
  operatorMap_get f.(operator) = None →
  ∃ g, g ∈ filters ∧ operatorMap_get g.(operator) = None
       ∧ buildFilterExpression pkName filters = Throw (unsupported g.(operator)).
Proof.
  intros Hvalid Hf Hbad.
  unfold buildFilterExpression.
  destruct filters as [|x r] eqn:Hfilters; [by apply elem_of_nil in Hf|].
  rewrite <- Hfilters in *. clear x r Hfilters.
  unfold mbind at 1, Result_bind at 1. rewrite Hvalid.
  set (expr0 := {| KeyConditionExpression := None; FilterExpression := None;
                   ExpressionAttributeNames := Some ∅;
                   ExpressionAttributeValues := Some ∅ |}).
  assert (mapsPresent expr0) as Hp0 by (split; simpl; eauto).
  destruct (extractPartitionKeyFilter_cases pkName filters)
    as [[_ ->]|(before & pk & after & Hsplit & _ & [_ Hpk] & ->)].
  - unfold mbind, Result_bind.
    destruct (addFilterExpressions_unsupported filters expr0 f Hp0 Hf Hbad)
      as (g & Hg & Hgbad & Hthrow).
    exists g. split; [done|]. split; [done|].
    destruct filters; [by apply elem_of_nil in Hf|]. by rewrite Hthrow.
  - assert (f ∈ (before ++ after)%list) as Hf'.
    { rewrite Hsplit in Hf. rewrite elem_of_app, elem_of_cons in Hf.
      rewrite elem_of_app. destruct Hf as [?|[->|?]]; [by left| |by right].
      rewrite Hpk in Hbad. discriminate. }
    unfold mbind, Result_bind.
    destruct (addPartitionKeyExpression pk expr0) as [[[] e1]|] eqn:Hadd;
      [|discriminate].
    assert (mapsPresent e1) as Hp1.
    { injection Hadd as <-. split; simpl; eauto. }
    destruct (addFilterExpressions_unsupported _ e1 f Hp1 Hf' Hbad)
      as (g & Hg & Hgbad & Hthrow).
    exists g. split.
    { rewrite Hsplit. rewrite elem_of_app in Hg. rewrite elem_of_app, elem_of_cons.
      destruct Hg; [by left|by right; right]. }
    split; [done|].
    destruct (before ++ after)%list; [by apply elem_of_nil in Hf'|]. by rewrite Hthrow.
Qed.

(** C6, as amended. For every query that passes validation and whose
    normalized limit is not 0, if some predicate has an operator that is
    neither in the operator table nor the name of a member inherited from
    [Object.prototype], then compilation throws for such a predicate [g]: the
    exception is a [DynamoValidationError], the class that validation
    failures use, with the message [Unsupported operator: ] followed by the
    operator; it is logged as a validation error and no command is sent. *)
Theorem unsupported_operator_rejected_before_send (tableName pkName : string)
    (query : IGenericFilterQuery) (dynamoDBClient : Client) (f : IFilterQuery) :
  let pagination := default emptyPagination query.(pagination) in
  let filters := default [] query.(filters) in
  validatePagination pagination = Ok tt →
  Qeq_bool (fst (calculatePaginationValues pagination)) 0 = false →
  forEachR (λ filter : IFilterQuery,
              validateFieldName filter.(field);; validateValue filter.(value))
           filters = Ok tt →
  f ∈ filters →
  f.(operator) ∉ supportedOperators →
  assoc f.(operator) Object_prototype = None →
  ∃ g, g ∈ filters
       ∧ (g.(operator) ∉ supportedOperators)
       ∧ instanceofDynamoValidationError (unsupported g.(operator)) = true
       ∧ SortingService.fetchWithFiltersAndPagination tableName pkName query
           dynamoDBClient
         = {| sent := []; errorLog := ["Validation error:"];
              outcome := Throw (DynamoValidationError
                                  ("Unsupported operator: " +:+ g.(operator))) |}.
Proof.
  intros pagination filters Hpag Hlimit Hvalid Hf Hsup Hinh.
  assert (operatorMap_get f.(operator) = None) as Hbad
    by by apply operatorMap_get_None.
  destruct (buildFilterExpression_unsupported pkName filters f Hvalid Hf Hbad)
    as (g & Hg & Hgbad & Hthrow).
  exists g. split; [done|].
  split; [by apply operatorMap_get_None in Hgbad as [? _]|].
  split; [done|].
  unfold SortingService.fetchWithFiltersAndPagination,
    SortingService.prepareQueryParameters.
  fold pagination. fold filters.
  unfold mbind at 1, Result_bind at 1. rewrite Hpag.
  destruct (calculatePaginationValues pagination) as [limit offset].
  simpl in Hlimit. rewrite Hlimit.
  unfold mbind at 1, Result_bind at 1. by rewrite Hthrow.
Qed.

End UnsupportedOperatorRejected.

(** The query [age ~ 3] is rejected before anything is sent. *)
Lemma unsupported_operator_rejected_before_send_witness :
  ∃ g, g ∈ default [] tildeQuery.(filters)
       ∧ (g.(operator) ∉ supportedOperators)
       ∧ instanceofDynamoValidationError (unsupported g.(operator)) = true
       ∧ @SortingService.fetchWithFiltersAndPagination examplePlatform "T" "id"
           tildeQuery (wholeTableStore people)
         = {| sent := []; errorLog := ["Validation error:"];
              outcome := Throw (DynamoValidationError
                                  ("Unsupported operator: " +:+ g.(operator))) |}.
Proof.
  apply (@unsupported_operator_rejected_before_send examplePlatform "T" "id"
           tildeQuery (wholeTableStore people)
           {| field := "age"; operator := "~"; value := JNum 3 |}).
  - reflexivity.
  - reflexivity.
  - reflexivity.
  - apply list_elem_of_here.
  - apply assoc_None. reflexivity.
  - reflexivity.
Defined.

(** C6, the claim as stated fails. The operator [~] is outside the supported
    set and compilation throws for it, but the exception is an instance of
    [DynamoValidationError], logged as a validation error: it is not of a
    kind distinct from the validation errors. And for the operator
    [constructor], also outside the set, compilation does not throw at all. *)
Lemma unsupported_operator_is_validation_error :
  ("~" ∉ supportedOperators)
  ∧ ("constructor" ∉ supportedOperators)
  ∧ (∃ e, @buildFilterExpression examplePlatform "id" (default [] tildeQuery.(filters))
          = Throw e
          ∧ instanceofDynamoValidationError e = true
          ∧ handleError e = "Validation error:")
  ∧ (∃ expr, @buildFilterExpression examplePlatform "id"
               (default [] constructorQuery.(filters)) = Ok expr
             ∧ expr.(FilterExpression)
               = Some "#key0_0 function Object() { [native code] } :val0").
Proof.
  split; [apply assoc_None; reflexivity|].
  split; [apply assoc_None; reflexivity|].
  split.
  - exists (DynamoValidationError "Unsupported operator: ~"). by vm_compute.
  - eexists. split; [by vm_compute|]. by vm_compute.
Qed.

(** ** The executor that sorts, after the store has answered *)

Lemma forEachR_Throw {A} (f : A → Result unit) (l : list A) e :
  forEachR f l = Throw e → ∃ x, x ∈ l ∧ f x = Throw e.
Proof.
  induction l as [|x r IH]; simpl; [done|].
  unfold mbind, Result_bind.
  destruct (f x) as [[]|e'] eqn:Hx.
  - intros Hr. destruct (IH Hr) as (y & Hy & Hfy).
    exists y. split; [by apply list_elem_of_further|done].
  - intros [= ->]. exists x. split; [apply list_elem_of_here|done].
Qed.

Section SortingExecutor.
Context `{Platform}.

Lemma sortValue_cases (sortKey : string) (a : Item) :
  (∃ attr, a !! sortKey = Some attr
           ∧ SortingService.sortValue sortKey a = Ok (fromDynamoDBValue attr))
  ∨ (a !! sortKey = None ∧ is_Some (assoc sortKey Object_prototype)
     ∧ SortingService.sortValue sortKey a = fromDynamoDBValue_member sortKey)
  ∨ (a !! sortKey = None ∧ assoc sortKey Object_prototype = None
     ∧ SortingService.sortValue sortKey a = Ok (JStr "")).
Proof.
  unfold SortingService.sortValue, Item_get.
  destruct (a !! sortKey) as [attr|]; [left; by eexists|].
  destruct (assoc sortKey Object_prototype); [right; left|right; right]; by eauto.
Qed.

Lemma loggedValue_sortValue (sortKey : string) (item : Item) :
  SortingService.loggedValue sortKey item = SortingService.sortValue sortKey item.
Proof.
  unfold SortingService.loggedValue, SortingService.sortValue.
  by destruct (Item_get item sortKey).
Qed.

Lemma compareItems_Ok sortKey scanForward (a b : Item) x y :
  SortingService.sortValue sortKey a = Ok x →
  SortingService.sortValue sortKey b = Ok y →
  SortingService.compareItems sortKey scanForward a b
  = Ok match x, y with
       | JStr x, JStr y =>
           inject_Z (if scanForward then localeCompare x y else localeCompare y x)
       | JNum x, JNum y => if scanForward then (x - y)%Q else (y - x)%Q
       | _, _ =>
           inject_Z (if scanForward then localeCompare (ToString x) (ToString y)
                     else localeCompare (ToString y) (ToString x))
       end.
Proof.
  unfold SortingService.compareItems. intros -> ->. unfold mbind, Result_bind.
  destruct x, y; reflexivity.
Qed.

Lemma compareItems_Throw sortKey scanForward (a b : Item) e :
  SortingService.compareItems sortKey scanForward a b = Throw e →
  SortingService.sortValue sortKey a = Throw e
  ∨ SortingService.sortValue sortKey b = Throw e.
Proof.
  unfold SortingService.compareItems, mbind, Result_bind.
  destruct (SortingService.sortValue sortKey a) as [x|]; [|by intros [= ->]; left].
  destruct (SortingService.sortValue sortKey b) as [y|]; [|by intros [= ->]; right].
  destruct x, y; discriminate.
Qed.

Lemma executeQuery_sent params (dynamoDBClient : Client) (p : IPaginationQuery) :
  (SortingService.executeQuery params dynamoDBClient p).1 = [commandFor params].
Proof. done. Qed.

(** What [executeQuery] returns is the answer of the store, rearranged by
    [sort] when there is a [sortBy]; what it throws is the exception of the
    store, or the one of the codec while it reads the sort value of an
    item. *)
Lemma executeQuery_outcome params (dynamoDBClient : Client) (p : IPaginationQuery) :
  match (SortingService.executeQuery params dynamoDBClient p).2 with
  | Ok ordered =>
      ∃ response,
        dynamoDBClient (commandFor params) = Ok response
        ∧ (if truthy p.(sortBy)
           then Array_sort
                  (SortingService.compareItems (default "" p.(sortBy))
                     (negb (bool_decide (p.(sortDirection) = Some "desc"))))
                  (default [] response.(Items)) = Ok ordered
           else ordered = default [] response.(Items))
        ∧ ordered ≡ₚ default [] response.(Items)
  | Throw e =>
      dynamoDBClient (commandFor params) = Throw e
      ∨ ∃ response item,
          dynamoDBClient (commandFor params) = Ok response
          ∧ truthy p.(sortBy) = true
          ∧ item ∈ default [] response.(Items)
          ∧ SortingService.sortValue (default "" p.(sortBy)) item = Throw e
  end.
Proof.
  unfold SortingService.executeQuery. cbv zeta. cbn [snd].
  destruct (dynamoDBClient (commandFor params)) as [response|e] eqn:Hsend;
    [|by left].
  unfold mbind at 1, Result_bind at 1.
  destruct (truthy p.(sortBy)); [|by exists response].
  set (sortKey := default "" p.(sortBy)).
  set (items := default [] response.(Items)).
  unfold mbind at 1, Result_bind at 1.
  destruct (forEachR _ (take 5 items)) as [[]|e] eqn:Hlog.
  - destruct (Array_sort _ items) as [ordered|e] eqn:Hsort.
    + exists response. split; [done|]. split; [done|].
      by eapply Array_sort_rearranges.
    + right. apply Array_sort_abrupt in Hsort as (a & b & Ha & Hb & Hab).
      apply compareItems_Throw in Hab as [Hthrow|Hthrow];
        [by exists response, a|by exists response, b].
  - right. apply forEachR_Throw in Hlog as (item & Hitem & Hthrow).
    exists response, item. split; [done|]. split; [done|].
    split.
    { apply elem_of_take in Hitem as (i & Hi & _).
      apply list_elem_of_lookup. by exists i. }
    rewrite loggedValue_sortValue in Hthrow. unfold mbind, Result_bind in Hthrow.
    destruct (SortingService.sortValue sortKey item) as [v|e']; [done|].
    by injection Hthrow as ->.
Qed.

(** [executeQuery] returns when the store answers and the sort value of
    every item can be read. *)
Lemma executeQuery_returns params (dynamoDBClient : Client) (p : IPaginationQuery)
    response :
  dynamoDBClient (commandFor params) = Ok response →
  (∀ item, item ∈ default [] response.(Items) →
           ∃ v, SortingService.sortValue (default "" p.(sortBy)) item = Ok v) →
  ∃ ordered, (SortingService.executeQuery params dynamoDBClient p).2 = Ok ordered.
Proof.
  intros Hsend Hread. pose proof (executeQuery_outcome params dynamoDBClient p) as Hout.
  destruct (SortingService.executeQuery params dynamoDBClient p).2 as [ordered|e];
    [by eexists|].
  destruct Hout as [Hthrow|(response' & item & Hsend' & _ & Hitem & Hthrow)];
    [congruence|].
  rewrite Hsend in Hsend'. injection Hsend' as <-.
  destruct (Hread item Hitem) as [v Hv]. congruence.
Qed.

(** A call of the executor that sorts, by what [prepareQueryParameters] and
    [executeQuery] come to. *)
Lemma SortingService_fetch_run (tableName pkName : string)
    (query : IGenericFilterQuery) (dynamoDBClient : Client) :
  let run := SortingService.fetchWithFiltersAndPagination tableName pkName query
               dynamoDBClient in
  match SortingService.prepareQueryParameters tableName pkName query with
  | Throw e => run = {| sent := []; errorLog := [handleError e]; outcome := Throw e |}
  | Ok (params, limit, offset, p) =>
      match (SortingService.executeQuery params dynamoDBClient p).2 with
      | Throw e =>
          run = {| sent := [commandFor params]; errorLog := [handleError e];
                   outcome := Throw e |}
      | Ok items =>
          run = {| sent := [commandFor params]; errorLog := [];
                   outcome := Ok {| data := processResults items limit offset;
                                    total := length items |} |}
      end
  end.
Proof.
  unfold SortingService.fetchWithFiltersAndPagination.
  destruct (SortingService.prepareQueryParameters _ _ _)
    as [[[[params limit] offset] p]|e]; [|done].
  pose proof (executeQuery_sent params dynamoDBClient p) as Hsent.
  destruct (SortingService.executeQuery params dynamoDBClient p) as [commands [items|e]];
    simpl in *; by subst.
Qed.

End SortingExecutor.

(** ** A limit of 0 *)

Section LimitZero.
Context `{Platform}.

Lemma limit_zero_prepared (tableName pkName : string) (query : IGenericFilterQuery) :
  let pagination := default emptyPagination query.(pagination) in
  validatePagination pagination = Ok tt →
  Qeq_bool (fst (calculatePaginationValues pagination)) 0 = true →
  SortingService.prepareQueryParameters tableName pkName query
  = Ok (CommandInput.ofTable tableName, 0%Q, 0%Q, pagination).
Proof.
  intros pagination Hpag Hlimit. unfold SortingService.prepareQueryParameters.
  fold pagination. unfold mbind at 1, Result_bind at 1. rewrite Hpag.
  destruct (calculatePaginationValues pagination) as [limit offset].
  simpl in Hlimit. by rewrite Hlimit.
Qed.

End LimitZero.

(** C1, at the failing input and for every query with limit 0. The table
    holds three people, one of them named Ann. The query asks for the
    people named Ann with limit 0: in either executor the one command sent
    is the scan of the table without any filter, the store answers with the
    whole table, and the page returned has [data = []] and [total = 3],
    while one item matches the filter; the comment in the code has [total]
    be the count of the items that match. So it is for every query that
    passes [validatePagination] and whose normalized limit is 0, whatever
    its filters are: the one command is the scan that carries only the table
    name, and a page that is returned has [data = []] and a [total] equal to
    the number of items in the answer to that scan. *)
Theorem limit_zero_total_is_not_matched_count :
  (@SortingService.fetchWithFiltersAndPagination examplePlatform "People" "id"
     countAnnQuery (wholeTableStore people)
   = {| sent := [ScanCommand (CommandInput.ofTable "People")];
        errorLog := [];
        outcome := Ok {| data := []; total := 3 |} |}
   ∧ @PlainService.fetchWithFiltersAndPagination examplePlatform "People" "id"
       countAnnQuery (wholeTableStore people)
     = {| sent := [ScanCommand (CommandInput.ofTable "People")];
          errorLog := [];
          outcome := Ok {| data := []; total := 3 |} |}
   ∧ matchedCount (default [] countAnnQuery.(filters)) people = Some 1%nat)
  ∧ ∀ (host : Platform) (tableName pkName : string) (query : IGenericFilterQuery)
      (dynamoDBClient : Client) (response : CommandOutput),
      let pagination := default emptyPagination query.(pagination) in
      let run := @SortingService.fetchWithFiltersAndPagination host tableName pkName
                   query dynamoDBClient in
      validatePagination pagination = Ok tt →
      Qeq_bool (fst (calculatePaginationValues pagination)) 0 = true →
      dynamoDBClient (ScanCommand (CommandInput.ofTable tableName)) = Ok response →
      run.(sent) = [ScanCommand (CommandInput.ofTable tableName)]
      ∧ ∀ returned, run.(outcome) = Ok returned →
          returned = {| data := [];
                        total := length (default [] response.(Items)) |}.
Proof.
  split; [repeat split; reflexivity|].
  intros host tableName pkName query dynamoDBClient response pagination run
    Hpag Hlimit Hsend.
  pose proof (SortingService_fetch_run tableName pkName query dynamoDBClient) as Hrun.
  cbv zeta in Hrun. fold run in Hrun.
  rewrite (limit_zero_prepared tableName pkName query Hpag Hlimit) in Hrun.
  pose proof (executeQuery_outcome (CommandInput.ofTable tableName) dynamoDBClient
                pagination) as Hout.
  fold pagination in Hrun.
  destruct (SortingService.executeQuery _ dynamoDBClient pagination).2
    as [ordered|e]; rewrite Hrun; cbn [sent outcome]; (split; [done|]); [|done].
  intros returned [= <-].
  destruct Hout as (response' & Hsend' & _ & Hperm).
  change (commandFor (CommandInput.ofTable tableName))
    with (ScanCommand (CommandInput.ofTable tableName)) in Hsend'.
  rewrite Hsend in Hsend'. injection Hsend' as <-.
  by rewrite (Permutation_length Hperm).
Qed.

(** ** The two executors *)

Section TwoExecutors.
Context `{Platform}.

Lemma buildQueryParams_without_sortBy tableName expr (p : IPaginationQuery) :
  sortBy p = None →
  buildQueryParams tableName expr (Some p) = buildQueryParams tableName expr None.
Proof.
  intros Hsort. unfold buildQueryParams. rewrite Hsort. simpl.
  by destruct (truthy (KeyConditionExpression expr)).
Qed.

(** C9. For every query with no [sortBy], the executor that sorts and the
    one that does not prepare the same request parameters, limit and offset
    (or throw the same exception), and for every client their runs are
    equal: the same commands sent, the same log, and the same page returned
    or exception rethrown. *)
Theorem executors_agree_without_sortBy (tableName pkName : string)
    (query : IGenericFilterQuery) (dynamoDBClient : Client) :
  sortBy (default emptyPagination query.(pagination)) = None →
  withoutPagination (SortingService.prepareQueryParameters tableName pkName query)
  = PlainService.prepareQueryParameters tableName pkName query
  ∧ SortingService.fetchWithFiltersAndPagination tableName pkName query dynamoDBClient
    = PlainService.fetchWithFiltersAndPagination tableName pkName query dynamoDBClient.
Proof.
  intros Hsort.
  unfold SortingService.fetchWithFiltersAndPagination,
    PlainService.fetchWithFiltersAndPagination,
    SortingService.prepareQueryParameters, PlainService.prepareQueryParameters.
  set (pagination := default emptyPagination query.(pagination)) in *.
  unfold mbind, Result_bind.
  destruct (validatePagination pagination) as [[]|e]; [|done].
  destruct (calculatePaginationValues pagination) as [limit offset].
  destruct (Qeq_bool limit 0).
  - split; [done|]. simpl.
    unfold SortingService.executeQuery, PlainService.executeQuery.
    rewrite Hsort. unfold mbind, Result_bind. simpl.
    by destruct (dynamoDBClient _).
  - destruct (buildFilterExpression pkName (default [] (filters query)))
      as [expr|e]; [|done].
    rewrite (buildQueryParams_without_sortBy _ _ _ Hsort).
    destruct (buildQueryParams tableName expr None) as [params|e]; [|done].
    split; [done|]. simpl.
    unfold SortingService.executeQuery, PlainService.executeQuery.
    rewrite Hsort. unfold mbind, Result_bind. simpl.
    by destruct (dynamoDBClient _).
Qed.

End TwoExecutors.

(** The two executors on the same query without [sortBy]. *)
Lemma executors_agree_without_sortBy_witness :
  @SortingService.fetchWithFiltersAndPagination examplePlatform "People" "id"
    countAnnQuery (wholeTableStore people)
  = @PlainService.fetchWithFiltersAndPagination examplePlatform "People" "id"
      countAnnQuery (wholeTableStore people).
Proof.
  exact (proj2 (@executors_agree_without_sortBy examplePlatform "People" "id"
                  countAnnQuery (wholeTableStore people) eq_refl)).
Defined.

(** ** The client-side sort *)



Lemma inject_Z_negative (z : Z) : (inject_Z z < 0)%Q ↔ z < 0.
Proof. change 0%Q with (inject_Z 0). by rewrite <- Zlt_Qlt. Qed.





Section ClientSideSort.
Context `{Platform}.








(** With a [sortBy] and a comparison that is a consistent ordering of the
    items of the answer, [executeQuery] returns these items in an order in
    which none is followed by one that the comparison puts before it. *)
Lemma executeQuery_consistent params (dynamoDBClient : Client)
    (p : IPaginationQuery) sortKey response :
  p.(sortBy) = Some sortKey →
  sortKey ≠ "" →
  dynamoDBClient (commandFor params) = Ok response →
  let scanForward := negb (bool_decide (p.(sortDirection) = Some "desc")) in
  consistentComparator (SortingService.compareItems sortKey scanForward)
    (default [] response.(Items)) →
  ∃ sorted,
    (SortingService.executeQuery params dynamoDBClient p).2 = Ok sorted
    ∧ sorted ≡ₚ default [] response.(Items)
    ∧ StronglySorted (notAfter sortKey scanForward) sorted.
Proof.
  intros Hsort Hne Hsend scanForward Hcons.
  assert (truthy p.(sortBy) = true) as Htruthy.
  { rewrite Hsort. simpl. by destruct (String.eqb_spec sortKey ""). }
  destruct (executeQuery_returns params dynamoDBClient p response Hsend)
    as [sorted Hsorted].
  { intros item Hitem. rewrite Hsort. change (default "" (Some sortKey)) with sortKey.
    destruct Hcons as (c & Hc & _). specialize (Hc item item Hitem Hitem).
    destruct (SortingService.sortValue sortKey item) as [v|e] eqn:Hv; [by eexists|].
    unfold SortingService.compareItems, mbind, Result_bind in Hc.
    by rewrite Hv in Hc. }
  exists sorted. split; [done|].
  pose proof (executeQuery_outcome params dynamoDBClient p) as Hout.
  rewrite Hsorted in Hout. destruct Hout as (response' & Hsend' & Hsort' & Hperm).
  rewrite Hsend in Hsend'. injection Hsend' as <-.
  rewrite Htruthy, Hsort in Hsort'.
  change (default "" (Some sortKey)) with sortKey in Hsort'.
  split; [done|]. by eapply Array_sort_orders.
Qed.







End ClientSideSort.



(** ** Items without the sort attribute *)

Lemma codeUnitCompare_empty : @localeCompare_empty examplePlatform.
Proof. intros s Hs. by destruct s. Qed.

Lemma StronglySorted_lookup_lt {A} (R : A → A → Prop) (l : list A) i j x y :
  StronglySorted R l → (i < j)%nat → l !! i = Some x → l !! j = Some y → R x y.
Proof.
  intros Hs. revert i j.
  induction Hs as [|z r Hr IH Hz]; intros i j Hij Hi Hj; [done|].
  destruct i as [|i], j as [|j]; try lia; simpl in *.
  - injection Hi as ->. rewrite Forall_forall in Hz. apply Hz.
    by eapply list_elem_of_lookup_2.
  - apply (IH i j); [lia|done|done].
Qed.

Section MissingSortAttribute.
Context `{Platform}.

Lemma inherited_nonempty (sortKey : string) :
  is_Some (assoc sortKey Object_prototype) → sortKey ≠ "".
Proof. intros Hsome ->. by destruct Hsome. Qed.

Lemma missing_inherited (sortKey : string) (a : Item) :
  a !! sortKey = None → is_Some (assoc sortKey Object_prototype) →
  SortingService.sortValue sortKey a = fromDynamoDBValue_member sortKey.
Proof.
  intros Ha Hsome.
  destruct (sortValue_cases sortKey a) as [(? & ? & _)|[(_ & _ & ->)|(_ & Hnone & _)]];
    [congruence|done|].
  rewrite Hnone in Hsome. by destruct Hsome.
Qed.

Lemma missing_sortValue (sortKey : string) (a : Item) :
  assoc sortKey Object_prototype = None → a !! sortKey = None →
  SortingService.sortValue sortKey a = Ok (JStr "").
Proof.
  intros Hnone Ha.
  destruct (sortValue_cases sortKey a) as [(? & ? & _)|[(_ & Hsome & _)|(_ & _ & ->)]];
    [congruence| |done].
  rewrite Hnone in Hsome. by destruct Hsome.
Qed.

Lemma sortValue_total (sortKey : string) (a : Item) :
  assoc sortKey Object_prototype = None →
  ∃ v, SortingService.sortValue sortKey a = Ok v.
Proof.
  intros Hnone.
  destruct (sortValue_cases sortKey a) as [(? & _ & ->)|[(_ & Hsome & _)|(_ & _ & ->)]];
    [by eexists| |by eexists].
  rewrite Hnone in Hsome. by destruct Hsome.
Qed.

(** The first exception of a loop whose callback can only throw [e]. *)
Lemma forEachR_throws {A} (f : A → Result unit) (l : list A) x e :
  x ∈ l → f x = Throw e → (∀ y e', f y = Throw e' → e' = e) →
  forEachR f l = Throw e.
Proof.
  intros Hx Hfx Honly. induction l as [|y r IH]; [by apply elem_of_nil in Hx|].
  simpl. unfold mbind, Result_bind.
  destruct (f y) as [[]|e'] eqn:Hy; [|by rewrite (Honly y e' Hy)].
  apply elem_of_cons in Hx as [->|Hx]; [congruence|by apply IH].
Qed.

(** C10, at the failing input and elsewhere. When [sortBy] is the name of a
    member that every object inherits from [Object.prototype] ([valueOf],
    [toString], [constructor] and the like), an item without an attribute of
    that name is not compared as the empty string: [a[sortKey]] is the
    inherited member, which is truthy, and the value compared is what the
    codec makes of it. With a codec that rejects what is not a wire value,
    [executeQuery] then fails after the command was sent, as soon as one of
    the first five items lacks the attribute.

    For every other [sortBy] the claim holds: an item that lacks the
    attribute takes part in the comparison as the empty string, just as if
    it held the empty string; the comparison never throws, and
    [executeQuery] returns a rearrangement of the items whenever the client
    answers; and when the comparison is a consistent ordering of the items
    and [localeCompare] puts the empty string before every other string, in
    the list returned in ascending order every item without the attribute
    stands before every item whose attribute is a string that is not
    empty. *)
Theorem missing_sort_attribute_sorts_first :
  (∀ (sortKey : string) (a : Item),
     a !! sortKey = None →
     is_Some (assoc sortKey Object_prototype) →
     SortingService.sortValue sortKey a = fromDynamoDBValue_member sortKey)
  ∧ (∀ params (dynamoDBClient : Client) (pagination : IPaginationQuery) response
       (sortKey : string) (a : Item) (e : JsError),
       dynamoDBClient (commandFor params) = Ok response →
       pagination.(sortBy) = Some sortKey →
       is_Some (assoc sortKey Object_prototype) →
       fromDynamoDBValue_member sortKey = Throw e →
       a ∈ take 5 (default [] response.(Items)) →
       a !! sortKey = None →
       SortingService.executeQuery params dynamoDBClient pagination
       = ([commandFor params], Throw e))
  ∧ (∀ sortKey : string,
       assoc sortKey Object_prototype = None →
       sortKey ≠ "" →
       (∀ a : Item, a !! sortKey = None →
          SortingService.sortValue sortKey a = Ok (JStr "")
          ∧ ∀ b scanForward,
              SortingService.compareItems sortKey scanForward a b
              = SortingService.compareItems sortKey scanForward
                  (<[sortKey := AttrS ""]> a) b
              ∧ SortingService.compareItems sortKey scanForward b a
                = SortingService.compareItems sortKey scanForward b
                    (<[sortKey := AttrS ""]> a))
       ∧ (∀ (a b : Item) scanForward,
            ∃ c, SortingService.compareItems sortKey scanForward a b = Ok c)
       ∧ (∀ params (dynamoDBClient : Client) (pagination : IPaginationQuery) response,
            dynamoDBClient (commandFor params) = Ok response →
            pagination.(sortBy) = Some sortKey →
            ∃ sorted,
              (SortingService.executeQuery params dynamoDBClient pagination).2
              = Ok sorted
              ∧ sorted ≡ₚ default [] response.(Items))
       ∧ (∀ params (dynamoDBClient : Client) (pagination : IPaginationQuery) response
            sorted,
            localeCompare_empty →
            dynamoDBClient (commandFor params) = Ok response →
            pagination.(sortBy) = Some sortKey →
            pagination.(sortDirection) ≠ Some "desc" →
            consistentComparator (SortingService.compareItems sortKey true)
              (default [] response.(Items)) →
            (SortingService.executeQuery params dynamoDBClient pagination).2
            = Ok sorted →
            ∀ (i j : nat) (a b : Item) s,
              sorted !! i = Some a →
              sorted !! j = Some b →
              a !! sortKey = None →
              b !! sortKey = Some (AttrS s) →
              s ≠ "" →
              (i < j)%nat)).
Proof.
  split; [exact missing_inherited|].
  split.
  { intros params dynamoDBClient pagination response sortKey a e
      Hsend Hsort Hsome Hreject Ha Hnone.
    unfold SortingService.executeQuery. cbv zeta. f_equal.
    rewrite Hsend, Hsort. unfold mbind at 1, Result_bind at 1.
    assert (truthy (Some sortKey) = true) as ->.
    { simpl. by destruct (String.eqb_spec sortKey "");
        [destruct (inherited_nonempty sortKey Hsome)|]. }
    change (default "" (Some sortKey)) with sortKey.
    unfold mbind at 1, Result_bind at 1.
    rewrite (forEachR_throws _ _ a e Ha); [done| |].
    - by rewrite loggedValue_sortValue, (missing_inherited _ _ Hnone Hsome), Hreject.
    - intros y e'. rewrite loggedValue_sortValue.
      destruct (sortValue_cases sortKey y)
        as [(? & _ & ->)|[(_ & _ & ->)|(_ & _ & ->)]]; [done| |done].
      rewrite Hreject. unfold mbind, Result_bind. by intros [= <-]. }
  intros sortKey Hnone Hne.
  split.
  { intros a Ha. split; [by apply missing_sortValue|].
    intros b scanForward.
    assert (SortingService.sortValue sortKey (<[sortKey := AttrS ""]> a)
            = SortingService.sortValue sortKey a) as Hsame.
    { rewrite (missing_sortValue _ _ Hnone Ha).
      unfold SortingService.sortValue, Item_get. by rewrite lookup_insert_eq. }
    unfold SortingService.compareItems. by rewrite Hsame. }
  split.
  { intros a b scanForward.
    destruct (sortValue_total sortKey a Hnone) as [x Hx],
             (sortValue_total sortKey b Hnone) as [y Hy].
    rewrite (compareItems_Ok _ _ _ _ _ _ Hx Hy). by eexists. }
  split.
  { intros params dynamoDBClient pagination response Hsend Hsort.
    destruct (executeQuery_returns params dynamoDBClient pagination response Hsend)
      as [sorted Hsorted].
    { intros item _. rewrite Hsort. by apply sortValue_total. }
    exists sorted. split; [done|].
    pose proof (executeQuery_outcome params dynamoDBClient pagination) as Hout.
    rewrite Hsorted in Hout. destruct Hout as (response' & Hsend' & _ & Hperm).
    rewrite Hsend in Hsend'. by injection Hsend' as <-. }
  intros params dynamoDBClient pagination response sorted Hempty Hsend Hsort Hdir
    Hcons Hsorted i j a b s Hi Hj Ha Hb Hs.
  assert (negb (bool_decide (pagination.(sortDirection) = Some "desc")) = true)
    as Hforward by (by rewrite bool_decide_eq_false_2).
  destruct (executeQuery_consistent params dynamoDBClient pagination sortKey response
              Hsort Hne Hsend) as (sorted' & Hsorted' & Hperm & Hord).
  { by rewrite Hforward. }
  rewrite Hsorted in Hsorted'. injection Hsorted' as <-. rewrite Hforward in Hord.
  assert (SortingService.compareItems sortKey true a b
          = Ok (inject_Z (localeCompare "" s))) as Hab.
  { rewrite (compareItems_Ok _ _ _ _ (JStr "") (JStr s)); [done| |].
    - by apply missing_sortValue.
    - unfold SortingService.sortValue, Item_get. by rewrite Hb. }
  assert (a ∈ default [] response.(Items)) as Hain
    by (rewrite <- Hperm; by eapply list_elem_of_lookup_2).
  assert (b ∈ default [] response.(Items)) as Hbin
    by (rewrite <- Hperm; by eapply list_elem_of_lookup_2).
  destruct Hcons as (c & Hc & Hanti & _).
  assert (0 < c b a)%Q as Hba.
  { apply (Hanti a b Hain Hbin).
    rewrite (Hc a b Hain Hbin) in Hab. injection Hab as ->.
    apply inject_Z_negative. by apply Hempty. }
  destruct (Nat.lt_trichotomy i j) as [Hlt|[->|Hgt]]; [done| |].
  - rewrite Hi in Hj. injection Hj as ->. congruence.
  - exfalso.
    destruct (StronglySorted_lookup_lt _ _ j i b a Hord Hgt Hj Hi) as (q & Hq & Hle).
    rewrite (Hc b a Hbin Hain) in Hq. injection Hq as <-. lra.
Qed.

End MissingSortAttribute.

(** Ann and a person without a name, compared by name on the example host. *)
Lemma named_and_unnamed_consistent :
  consistentComparator (@SortingService.compareItems examplePlatform "name" true)
    [person "Ann" 30; unnamed 5].
Proof.
  exists (λ a b, match @SortingService.compareItems examplePlatform "name" true a b with
                 | Ok c => c
                 | Throw _ => 0%Q
                 end).
  split; [|split].
  - intros a b. rewrite !elem_of_cons, !elem_of_nil.
    intros [->|[->|[]]] [->|[->|[]]]; vm_compute; reflexivity.
  - intros a b. rewrite !elem_of_cons, !elem_of_nil.
    intros [->|[->|[]]] [->|[->|[]]]; vm_compute; intuition congruence.
  - intros a b d. rewrite !elem_of_cons, !elem_of_nil.
    intros [->|[->|[]]] [->|[->|[]]] [->|[->|[]]]; vm_compute; intuition congruence.
Qed.

(** Sorting the three people by [valueOf], an attribute that none of them
    has, fails after the scan on the example host; sorting Ann and a person
    without a name by name puts the one without a name first. *)
Lemma missing_sort_attribute_sorts_first_witness :
  @SortingService.executeQuery examplePlatform (CommandInput.ofTable "People")
    (wholeTableStore people) (paginationOf None None None (Some "valueOf") None)
  = ([ScanCommand (CommandInput.ofTable "People")],
     Throw (TypeError "not a wire value"))
  ∧ (@SortingService.executeQuery examplePlatform (CommandInput.ofTable "People")
       (wholeTableStore [person "Ann" 30; unnamed 5])
       (paginationOf None None None (Some "name") None)).2
    = Ok [unnamed 5; person "Ann" 30]
  ∧ (0 < 1)%nat.
Proof.
  pose proof (@missing_sort_attribute_sorts_first examplePlatform)
    as (_ & Hinherited & Hother).
  split.
  { apply (Hinherited (CommandInput.ofTable "People") (wholeTableStore people)
             (paginationOf None None None (Some "valueOf") None)
             {| Items := Some people |} "valueOf" (person "Ann" 30)
             (TypeError "not a wire value")); try reflexivity.
    - by eexists.
    - apply list_elem_of_here. }
  split; [vm_compute; reflexivity|].
  destruct (Hother "name" eq_refl ltac:(discriminate)) as (_ & _ & _ & Hfirst).
  apply (Hfirst (CommandInput.ofTable "People")
           (wholeTableStore [person "Ann" 30; unnamed 5])
           (paginationOf None None None (Some "name") None)
           {| Items := Some [person "Ann" 30; unnamed 5] |}
           [unnamed 5; person "Ann" 30]
           codeUnitCompare_empty eq_refl eq_refl ltac:(discriminate)
           named_and_unnamed_consistent ltac:(vm_compute; reflexivity)
           0%nat 1%nat (unnamed 5) (person "Ann" 30) "Ann"
           eq_refl eq_refl ltac:(vm_compute; reflexivity)
           ltac:(vm_compute; reflexivity) ltac:(discriminate)).
Defined.

(** ** Substring predicates *)

Lemma charToLower_idempotent (c : ascii) : charToLower (charToLower c) = charToLower c.
Proof. destruct c as [[] [] [] [] [] [] [] []]; reflexivity. Qed.

Lemma allChars_toLowerCase (s : string) :
  allChars (λ c, Ascii.eqb (charToLower c) c) (toLowerCase s) = true.
Proof.
  unfold toLowerCase. induction s as [|c r IH]; [done|]. simpl.
  by rewrite charToLower_idempotent, Ascii.eqb_refl, IH.
Qed.

Lemma toLowerCase_fixed (s : string) :
  allChars (λ c, Ascii.eqb (charToLower c) c) s = true → toLowerCase s = s.
Proof.
  unfold toLowerCase. induction s as [|c r IH]; [done|]. simpl.
  rewrite andb_true_iff, Ascii.eqb_eq. intros [-> Hr]. by rewrite IH.
Qed.

Lemma splitWhiteSpaceFrom_allChars (p : ascii → bool) (inGap : bool) (s : string) :
  allChars p s = true →
  Forall (λ t, allChars p t = true) (splitWhiteSpaceFrom inGap s).
Proof.
  revert inGap. induction s as [|c r IH]; intros inGap; simpl.
  - intros _. by repeat constructor.
  - rewrite andb_true_iff. intros [Hc Hr].
    destruct (isWhiteSpace c).
    + destruct inGap; [by apply IH|]. constructor; [done|by apply IH].
    + specialize (IH false Hr).
      destruct (splitWhiteSpaceFrom false r) as [|x xs].
      * constructor; [|constructor]. simpl. by rewrite Hc.
      * apply Forall_cons in IH as [Hx Hxs].
        constructor; [|done]. simpl. by rewrite Hc, Hx.
Qed.

Section LikePredicates.
Context `{Platform}.

Lemma searchTerms_lower_cased (value : JsValue) (t : string) :
  t ∈ List.filter (λ term, (0 <? String.length term)%nat)
        (splitWhiteSpace (toLowerCase (ToString value))) →
  toLowerCase t = t.
Proof.
  intros Ht. apply list_elem_of_In, filter_In in Ht as [Ht _].
  apply list_elem_of_In in Ht. apply toLowerCase_fixed.
  pose proof (splitWhiteSpaceFrom_allChars _ false _
                (allChars_toLowerCase (ToString value))) as Hall.
  rewrite Forall_forall in Hall. by apply Hall.
Qed.

(** C4, at the failing input. For the predicate [name like "Hello World"]
    the two terms are [hello] and [world]. Each has three value
    placeholders, but the one named for the original case holds the
    lower-cased term again, not [Hello] or [World]: the search string was
    lower-cased before it was split. The three containment checks of a term
    are joined by [OR] and the two groups by [AND], without parentheses
    around a group. For every value, each term of the search is its own
    lower-case form, so that the placeholder for the original case always
    receives the string of the one for the lower case. *)
Theorem like_original_case_placeholder_is_lower_cased :
  (∀ (value : JsValue) (t : string),
     t ∈ List.filter (λ term, (0 <? String.length term)%nat)
           (splitWhiteSpace (toLowerCase (ToString value))) →
     toLowerCase t = t)
  ∧ ∃ expr values,
    buildFilterExpression "id" [likeHelloWorld] = Ok expr
    ∧ expr.(FilterExpression)
      = Some ("(contains(#key0_0, :val0_0_l) OR contains(#key0_0, :val0_0_u)"
              +:+ " OR contains(#key0_0, :val0_0_o)"
              +:+ " AND contains(#key0_0, :val0_1_l) OR contains(#key0_0, :val0_1_u)"
              +:+ " OR contains(#key0_0, :val0_1_o))")
    ∧ expr.(ExpressionAttributeValues) = Some values
    ∧ values !! ":val0_0_l" = Some (AttrS "hello")
    ∧ values !! ":val0_0_u" = Some (AttrS "HELLO")
    ∧ values !! ":val0_0_o" = Some (AttrS "hello")
    ∧ values !! ":val0_1_l" = Some (AttrS "world")
    ∧ values !! ":val0_1_u" = Some (AttrS "WORLD")
    ∧ values !! ":val0_1_o" = Some (AttrS "world")
    ∧ base.size values = 6%nat.
Proof.
  split; [exact searchTerms_lower_cased|].
  eexists _, _. split; [by vm_compute|].
  repeat split.
Qed.

End LikePredicates.

(** ** Placeholders *)

(** *** Strings and the placeholders read from them *)

Lemma append_cons (c : ascii) (r b : string) :
  String c r +:+ b = String c (r +:+ b).
Proof. reflexivity. Qed.

Lemma append_nil_l (b : string) : "" +:+ b = b.
Proof. reflexivity. Qed.

Lemma append_nil_r (s : string) : s +:+ "" = s.
Proof. induction s as [|c r IH]; [done|]. by rewrite append_cons, IH. Qed.

Lemma allChars_app (p : ascii → bool) (a b : string) :
  allChars p (a +:+ b) = allChars p a && allChars p b.
Proof.
  induction a as [|c r IH]; [done|].
  rewrite append_cons. simpl. rewrite IH. by rewrite andb_assoc.
Qed.

Lemma allChars_impl (p q : ascii → bool) (s : string) :
  (∀ c, p c = true → q c = true) → allChars p s = true → allChars q s = true.
Proof.
  intros Hpq. induction s as [|c r IH]; [done|]. simpl.
  rewrite !andb_true_iff. intros [? ?]. auto.
Qed.

Lemma digit_ident (c : ascii) : isDigitAscii c = true → isIdentChar c = true.
Proof. unfold isIdentChar. intros ->. by rewrite orb_true_r. Qed.

Lemma ident_plain (c : ascii) : isIdentChar c = true → plainChar c = true.
Proof.
  unfold plainChar, isSigil.
  destruct (Ascii.eqb_spec c "#") as [->|_]; [by vm_compute|].
  destruct (Ascii.eqb_spec c ":") as [->|_]; [by vm_compute|done].
Qed.

Lemma sigil_not_ident (c : ascii) : isSigil c = true → isIdentChar c = false.
Proof.
  intros Hc. destruct (isIdentChar c) eqn:Hi; [|done].
  apply ident_plain in Hi. unfold plainChar in Hi. by rewrite Hc in Hi.
Qed.

Lemma identPrefix_all (s : string) :
  allChars isIdentChar s = true → identPrefix s = s.
Proof.
  induction s as [|c r IH]; [done|]. simpl.
  rewrite andb_true_iff. intros [-> ?]. by rewrite IH.
Qed.

Lemma identPrefix_app_delim (a : string) (c : ascii) (r : string) :
  isIdentChar c = false → identPrefix (a +:+ String c r) = identPrefix a.
Proof.
  intros Hc. induction a as [|d a IH].
  - rewrite append_nil_l. simpl. by rewrite Hc.
  - rewrite append_cons. simpl. by rewrite IH.
Qed.

Lemma placeholders_app_delim (a : string) (c : ascii) (r : string) :
  isIdentChar c = false →
  placeholders (a +:+ String c r) = (placeholders a ++ placeholders (String c r))%list.
Proof.
  intros Hc. induction a as [|d a IH]; [done|].
  rewrite append_cons. simpl.
  rewrite IH, identPrefix_app_delim by done.
  by destruct (isSigil d).
Qed.

Lemma placeholders_plain (a : string) :
  allChars plainChar a = true → placeholders a = [].
Proof.
  induction a as [|c r IH]; [done|]. simpl. unfold plainChar at 1.
  rewrite andb_true_iff, negb_true_iff. intros [-> ?]. auto.
Qed.

Lemma placeholders_app_plain (a b : string) :
  allChars plainChar a = true → placeholders (a +:+ b) = placeholders b.
Proof.
  induction a as [|c r IH]; [done|]. rewrite append_cons. simpl.
  unfold plainChar at 1.
  rewrite andb_true_iff, negb_true_iff. intros [-> ?]. auto.
Qed.

Lemma placeholders_key (key : string) :
  isPlaceholderKey key → placeholders key = [key].
Proof.
  intros (c & body & -> & Hc & Hbody). simpl. rewrite Hc.
  rewrite identPrefix_all by done.
  rewrite placeholders_plain; [done|].
  eapply allChars_impl; [apply ident_plain|done].
Qed.

Lemma placeholders_key_app (key : string) (c : ascii) (r : string) :
  isPlaceholderKey key → isIdentChar c = false →
  placeholders (key +:+ String c r) = key :: placeholders (String c r).
Proof.
  intros Hkey Hc. rewrite placeholders_app_delim by done.
  by rewrite placeholders_key.
Qed.

Lemma placeholders_join (c : ascii) (r : string) (parts : list string) :
  isIdentChar c = false →
  allChars plainChar (String c r) = true →
  placeholders (join (String c r) parts) = concat (List.map placeholders parts).
Proof.
  intros Hc Hplain. induction parts as [|x [|y l] IH]; [done| |].
  - simpl. by rewrite app_nil_r.
  - change (join (String c r) (x :: y :: l))
      with (x +:+ String c r +:+ join (String c r) (y :: l)).
    rewrite append_cons, placeholders_app_delim by done.
    rewrite <- append_cons, placeholders_app_plain by done.
    by rewrite IH.
Qed.

Lemma placeholders_join_keys (c : ascii) (r : string) (keys : list string) :
  isIdentChar c = false →
  allChars plainChar (String c r) = true →
  Forall isPlaceholderKey keys →
  placeholders (join (String c r) keys) = keys.
Proof.
  intros Hc Hplain Hkeys. rewrite placeholders_join by done.
  induction Hkeys as [|k l Hk Hl IH]; [done|]. simpl.
  by rewrite placeholders_key, IH.
Qed.

(** *** The keys the builder writes *)

Lemma pretty_N_char_digit (x : N) : isDigitAscii (pretty_N_char x) = true.
Proof. unfold pretty_N_char. by repeat case_match. Qed.

Lemma pretty_N_go_digits (x : N) (s : string) :
  allChars isDigitAscii s = true → allChars isDigitAscii (pretty_N_go x s) = true.
Proof.
  revert s. induction (N.lt_wf_0 x) as [x _ IH]; intros s Hs.
  destruct (decide (x = 0)%N) as [->|Hx]; [by rewrite pretty_N_go_0|].
  rewrite pretty_N_go_step by lia.
  apply IH; [apply N.div_lt; lia|].
  simpl. by rewrite pretty_N_char_digit.
Qed.

Lemma indexToString_digits (n : nat) :
  allChars isDigitAscii (indexToString n) = true.
Proof.
  unfold indexToString, pretty, pretty_nat, pretty, pretty_N.
  case_decide; [done|]. by apply pretty_N_go_digits.
Qed.

Lemma indexToString_ident (n : nat) :
  allChars isIdentChar (indexToString n) = true.
Proof.
  eapply allChars_impl; [apply digit_ident|apply indexToString_digits].
Qed.

Lemma digitPrefix_app (digits rest : string) :
  allChars isDigitAscii digits = true →
  rest = "" ∨ (∃ r, rest = String "_" r) →
  digitPrefix (digits +:+ rest) = digits.
Proof.
  intros Hd Hrest. induction digits as [|c r IH].
  - rewrite append_nil_l. by destruct Hrest as [->|[r ->]].
  - rewrite append_cons. simpl in *.
    apply andb_true_iff in Hd as [-> Hr]. by rewrite IH.
Qed.

Lemma ownedBy_index (i j : nat) (key : string) :
  ownedBy i key → ownedBy j key → i = j.
Proof.
  intros (ri & Hi & Hri) (rj & Hj & Hrj).
  assert (indexToString i +:+ ri = indexToString j +:+ rj) as Heq.
  { destruct Hi as [->| ->], Hj as [Hj|Hj];
      rewrite !append_cons, ?append_nil_l in Hj; by simplify_eq. }
  apply (f_equal digitPrefix) in Heq.
  rewrite !digitPrefix_app in Heq by auto using indexToString_digits.
  by apply (inj pretty).
Qed.

Ltac solve_ident :=
  repeat (rewrite ?append_cons, ?append_nil_l, ?allChars_app, ?indexToString_ident;
          simpl);
  done.

Lemma nameKey_isKey (index idx : nat) : isPlaceholderKey (nameKey index idx).
Proof.
  unfold nameKey. eexists _, _. rewrite append_cons. split; [done|].
  split; [done|].
  solve_ident.
Qed.

Lemma nameKey_owned (index idx : nat) : ownedBy index (nameKey index idx).
Proof. exists ("_" +:+ indexToString idx). split; [by left|]. right. by eexists. Qed.

Lemma valKey_isKey (index : nat) (suffix : string) :
  allChars isIdentChar suffix = true →
  isPlaceholderKey (":val" +:+ indexToString index +:+ suffix).
Proof.
  intros Hs. eexists _, _. rewrite append_cons. split; [done|].
  split; [done|].
  rewrite !append_cons, !append_nil_l. simpl.
  by rewrite allChars_app, indexToString_ident, Hs.
Qed.

Lemma valKey_owned (index : nat) (suffix : string) :
  suffix = "" ∨ (∃ r, suffix = String "_" r) →
  ownedBy index (":val" +:+ indexToString index +:+ suffix).
Proof. intros Hs. exists suffix. split; [by right|done]. Qed.

Lemma pk_not_owned (index : nat) :
  ¬ ownedBy index "#pk" ∧ ¬ ownedBy index ":pkVal".
Proof.
  split; intros (rest & [Hk|Hk] & _);
    rewrite !append_cons, ?append_nil_l in Hk; by simplify_eq.
Qed.

Lemma readsAs_mid (path : string) (keys : list string) :
  readsAs path keys →
  ∀ c l rest, isIdentChar c = false →
    placeholders (path +:+ String c l +:+ rest)
    = (keys ++ placeholders (String c l +:+ rest))%list.
Proof. intros Hpath c l rest Hc. exact (Hpath c (l +:+ rest) Hc). Qed.

Lemma key_readsAs (key : string) : isPlaceholderKey key → readsAs key [key].
Proof. intros Hkey c r Hc. by apply placeholders_key_app. Qed.

Lemma join_readsAs (keys : list string) :
  Forall isPlaceholderKey keys → readsAs (join "." keys) keys.
Proof.
  intros Hkeys c r Hc. rewrite placeholders_app_delim by done.
  by rewrite placeholders_join_keys.
Qed.

(** *** The expression only grows *)

Lemma grows_refl expr : mapsPresent expr → grows expr expr.
Proof. by intros ?. Qed.

Lemma grows_trans e1 e2 e3 : grows e1 e2 → grows e2 e3 → grows e1 e3.
Proof.
  intros (_ & H12 & K12) (? & H23 & K23). split; [done|].
  split; [auto|congruence].
Qed.

Lemma settled_grows index s e1 e2 : settled index s e1 → grows e1 e2 → settled index s e2.
Proof.
  unfold settled. intros Hs (_ & Hd & _).
  eapply Forall_impl; [exact Hs|]. intros key [? ?]. auto.
Qed.

Lemma defines_name_key expr names r :
  expr.(ExpressionAttributeNames) = Some names →
  defines expr (String "#" r) ↔ is_Some (names !! String "#" r).
Proof. intros Hn. unfold defines. by rewrite Hn. Qed.

Lemma defines_value_key expr values r :
  expr.(ExpressionAttributeValues) = Some values →
  defines expr (String ":" r) ↔ is_Some (values !! String ":" r).
Proof. intros Hv. unfold defines. by rewrite Hv. Qed.

Lemma setAttributeName_grows key name expr expr' :
  mapsPresent expr →
  setAttributeName key name expr = Ok (tt, expr') →
  grows expr expr' ∧ (∀ r, key = String "#" r → defines expr' key).
Proof.
  intros Hp Hset.
  destruct (setAttributeName_Ok key name expr Hp) as (names & Hn & Heq).
  rewrite Heq in Hset. injection Hset as <-.
  split; [split; [|split; [|done]]|].
  - destruct Hp. split; simpl; eauto.
  - intros k. unfold defines. simpl. rewrite Hn. simpl.
    destruct k as [|[[] [] [] [] [] [] [] []] ?]; try done.
    intros [x Hx]. destruct (decide (key = String "#" k)) as [->|Hne].
    + rewrite lookup_insert_eq. eauto.
    + rewrite lookup_insert_ne by done. eauto.
  - intros r ->. unfold defines. simpl. rewrite lookup_insert_eq. eauto.
Qed.

Lemma setAttributeValue_grows key attr expr expr' :
  mapsPresent expr →
  setAttributeValue key attr expr = Ok (tt, expr') →
  grows expr expr' ∧ (∀ r, key = String ":" r → defines expr' key).
Proof.
  intros Hp Hset.
  destruct (setAttributeValue_Ok key attr expr Hp) as (values & Hv & Heq).
  rewrite Heq in Hset. injection Hset as <-.
  split; [split; [|split; [|done]]|].
  - destruct Hp. split; simpl; eauto.
  - intros k. unfold defines. simpl. rewrite Hv. simpl.
    assert (is_Some (values !! k) → is_Some (<[key:=attr]> values !! k)) as Hkeep.
    { intros [x Hx]. destruct (decide (key = k)) as [->|Hne].
      - rewrite lookup_insert_eq. eauto.
      - rewrite lookup_insert_ne by done. eauto. }
    destruct k as [|[[] [] [] [] [] [] [] []] ?]; try done; apply Hkeep.
  - intros r ->. unfold defines. simpl. rewrite lookup_insert_eq. eauto.
Qed.

(** What [mapWithIndex] returns, for a callback that only grows the
    expression and leaves each result in a state [R] that growth keeps. *)
Lemma mapWithIndex_grows {A B} (f : A → nat → Builder B)
    (R : nat → B → DynamoDBFilterExpression → Prop) base l start expr ys expr' :
  (∀ x i e y e', grows base e → f x i e = Ok (y, e') → grows e e' ∧ R i y e') →
  (∀ i y e e', R i y e → grows e e' → R i y e') →
  grows base expr →
  mapWithIndex f l start expr = Ok (ys, expr') →
  grows expr expr'
  ∧ length ys = length l
  ∧ ∀ n y, ys !! n = Some y → R (start + n)%nat y expr'.
Proof.
  intros Hf Hmono. revert start expr ys.
  induction l as [|x r IH]; intros start expr ys Hbase Hrun; simpl in Hrun.
  - injection Hrun as <- <-. split; [apply grows_refl, Hbase|]. split; [done|].
    intros n y Hn. by rewrite lookup_nil in Hn.
  - unfold mbind, Builder_bind in Hrun.
    destruct (f x start expr) as [[y e1]|] eqn:Hx; [|done].
    destruct (Hf x start expr y e1 Hbase Hx) as [Hg1 Hy].
    fold (@mapWithIndex A B) in Hrun.
    destruct (mapWithIndex f r (S start) e1) as [[ys' e2]|] eqn:Hr; [|done].
    injection Hrun as <- <-.
    destruct (IH (S start) e1 ys' (grows_trans _ _ _ Hbase Hg1) Hr)
      as (Hg2 & Hlen & Hall).
    split; [by eapply grows_trans|]. split; [simpl; by rewrite Hlen|].
    intros [|n] z Hz; simpl in Hz.
    + injection Hz as <-. rewrite Nat.add_0_r. by eapply Hmono.
    + replace (start + S n)%nat with (S start + n)%nat by lia. by apply Hall.
Qed.

(** *** The sub-expression of one predicate *)

Lemma operatorMap_get_plain (operator dynOp : string) :
  operatorMap_get operator = Some dynOp → allChars plainChar dynOp = true.
Proof.
  unfold operatorMap_get. intros Hget.
  assert (dynOp ∈ (List.map snd operatorMap ++ List.map snd Object_prototype)%list)
    as Hin.
  { apply elem_of_app.
    destruct (assoc operator operatorMap) eqn:Hown.
    - left. injection Hget as <-. by eapply assoc_Some_elem.
    - right. by eapply assoc_Some_elem. }
  clear Hget. revert dynOp Hin. apply Forall_forall. vm_compute. repeat constructor.
Qed.

Lemma valKey0_isKey (index : nat) : isPlaceholderKey (":val" +:+ indexToString index).
Proof.
  pose proof (valKey_isKey index "" eq_refl) as Hkey.
  by rewrite append_nil_r in Hkey.
Qed.

Lemma valKey0_owned (index : nat) : ownedBy index (":val" +:+ indexToString index).
Proof. exists "". split; [|by left]. right. by rewrite append_nil_r. Qed.

Section SubExpressions.
Context `{Platform}.

Variable index : nat.

(** The access path: it reads as keys that are defined and belong to the
    predicate. *)
Variables (path : string) (pathKeys : list string).
Hypothesis path_reads : readsAs path pathKeys.

Let owned (expr : DynamoDBFilterExpression) (key : string) : Prop :=
  defines expr key ∧ ownedBy index key.

Lemma owned_grows e1 e2 keys :
  Forall (owned e1) keys → grows e1 e2 → Forall (owned e2) keys.
Proof.
  intros Hk (_ & Hd & _). eapply Forall_impl; [exact Hk|].
  intros key [? ?]. split; auto.
Qed.

Lemma setAttributeValue_owned suffix attr e e' :
  suffix = "" ∨ (∃ r, suffix = String "_" r) →
  mapsPresent e →
  setAttributeValue (":val" +:+ indexToString index +:+ suffix) attr e = Ok (tt, e') →
  grows e e' ∧ owned e' (":val" +:+ indexToString index +:+ suffix).
Proof.
  intros Hs Hp Hset.
  destruct (setAttributeValue_grows _ _ _ _ Hp Hset) as [Hg Hdef].
  split; [done|]. split; [by eapply Hdef|by apply valKey_owned].
Qed.

Lemma buildBasicExpression_settled operator value e s e' :
  mapsPresent e →
  Forall (owned e) pathKeys →
  buildBasicExpression path operator value index e = Ok (s, e') →
  grows e e' ∧ settled index s e'.
Proof.
  intros Hp Hkeys Hrun.
  unfold buildBasicExpression, mbind, Builder_bind in Hrun.
  destruct (setAttributeValue _ _ e) as [[[] e1]|] eqn:Hset; [|done].
  destruct (setAttributeValue_grows _ _ _ _ Hp Hset) as [Hg Hdef].
  destruct (operatorMap_get operator) as [dynOp|] eqn:Hget; [|done].
  destruct (String.eqb dynOp ""); [done|].
  injection Hrun as <- <-. split; [done|].
  unfold settled.
  rewrite (readsAs_mid _ _ path_reads) by reflexivity.
  rewrite placeholders_app_plain by reflexivity.
  rewrite placeholders_app_plain by by eapply operatorMap_get_plain.
  rewrite placeholders_app_plain by reflexivity.
  rewrite placeholders_key by apply valKey0_isKey.
  apply Forall_app. split; [by eapply owned_grows|].
  constructor; [|constructor].
  split; [by eapply Hdef|apply valKey0_owned].
Qed.

Lemma buildInExpression_settled value isNot e s e' :
  mapsPresent e →
  Forall (owned e) pathKeys →
  buildInExpression path value index isNot e = Ok (s, e') →
  grows e e' ∧ settled index s e'.
Proof.
  intros Hp Hkeys Hrun.
  unfold buildInExpression in Hrun.
  set (f := λ (val : JsValue) (valIndex : nat), _) in Hrun.
  unfold mbind at 1, Builder_bind at 1 in Hrun.
  destruct (mapWithIndex f _ 0%nat e) as [[checks e1]|] eqn:Hmap; [|done].
  injection Hrun as <- <-.
  assert (∀ x i e0 y e0', grows e e0 → f x i e0 = Ok (y, e0') →
            grows e0 e0' ∧ settled index y e0') as Hstep.
  { intros x i e0 y e0' He0 Hx. subst f. cbv beta zeta in Hx.
    unfold mbind, Builder_bind in Hx.
    destruct (setAttributeValue _ _ e0) as [[[] e2]|] eqn:Hset; [|done].
    injection Hx as <- <-.
    destruct (setAttributeValue_owned ("_" +:+ indexToString i) _ _ _
                ltac:(right; by eexists) (proj1 He0) Hset) as [Hg2 Hown].
    split; [done|]. unfold settled.
    rewrite (readsAs_mid _ _ path_reads) by reflexivity.
    rewrite placeholders_app_plain by reflexivity.
    rewrite placeholders_key by (apply valKey_isKey; solve_ident).
    apply Forall_app. split; [|constructor; [exact Hown|constructor]].
    eapply owned_grows; [exact Hkeys|]. by eapply grows_trans. }
  destruct (mapWithIndex_grows f (λ _ y e, settled index y e) e _ _ _ _ _
              Hstep (λ _ y a b, settled_grows index y a b) (grows_refl _ Hp) Hmap)
    as (Hg & _ & Hall).
  split; [done|].
  assert (Forall (owned e1) (concat (List.map placeholders checks))) as Hchecks.
  { apply Forall_concat, Forall_forall. intros ps Hps.
    apply list_elem_of_fmap in Hps as (y & -> & Hy).
    apply list_elem_of_lookup in Hy as [n Hn]. by apply (Hall n y). }
  unfold settled. destruct isNot.
  - rewrite placeholders_app_plain by reflexivity.
    rewrite placeholders_app_plain by reflexivity.
    rewrite placeholders_app_delim by reflexivity.
    rewrite placeholders_join by reflexivity.
    by rewrite app_nil_r.
  - rewrite placeholders_app_plain by reflexivity.
    rewrite placeholders_app_delim by reflexivity.
    rewrite placeholders_join by reflexivity.
    by rewrite app_nil_r.
Qed.

Lemma buildLikeExpression_settled value isNot e s e' :
  mapsPresent e →
  Forall (owned e) pathKeys →
  buildLikeExpression path value index isNot e = Ok (s, e') →
  grows e e' ∧ settled index s e'.
Proof.
  intros Hp Hkeys Hrun.
  unfold buildLikeExpression in Hrun.
  destruct (List.filter _ _) as [|term terms].
  { injection Hrun as <- <-. split; [by apply grows_refl|].
    unfold settled. destruct isNot;
      rewrite placeholders_app_plain by reflexivity;
      rewrite (path_reads ")"%char "") by reflexivity;
      by rewrite app_nil_r. }
  set (f := λ (term : string) (termIndex : nat), _) in Hrun.
  unfold mbind at 1, Builder_bind at 1 in Hrun.
  destruct (mapWithIndex f _ 0%nat e) as [[clauses e1]|] eqn:Hmap; [|done].
  injection Hrun as <- <-.
  assert (∀ x i e0 y e0', grows e e0 → f x i e0 = Ok (y, e0') →
            grows e0 e0' ∧ settled index y e0') as Hstep.
  { intros x i e0 y e0' He0 Hx. subst f. cbv beta zeta in Hx.
    unfold mbind, Builder_bind in Hx.
    destruct (setAttributeValue _ _ e0) as [[[] e2]|] eqn:Hlower; [|done].
    destruct (setAttributeValue _ _ e2) as [[[] e3]|] eqn:Hupper; [|done].
    destruct (setAttributeValue _ _ e3) as [[[] e4]|] eqn:Horiginal; [|done].
    injection Hx as <- <-.
    destruct (setAttributeValue_owned ("_" +:+ indexToString i +:+ "_l") _ _ _
                ltac:(right; by eexists) (proj1 He0) Hlower) as [Hg2 Hl].
    destruct (setAttributeValue_owned ("_" +:+ indexToString i +:+ "_u") _ _ _
                ltac:(right; by eexists) (proj1 Hg2) Hupper) as [Hg3 Hu].
    destruct (setAttributeValue_owned ("_" +:+ indexToString i +:+ "_o") _ _ _
                ltac:(right; by eexists) (proj1 Hg3) Horiginal) as [Hg4 Ho].
    assert (grows e0 e4) as Hg04 by eauto using grows_trans.
    split; [done|].
    assert (Forall (owned e4) pathKeys) as Hkeys4.
    { eapply owned_grows; [exact Hkeys|]. by eapply grows_trans. }
    assert (owned e4 (":val" +:+ indexToString index +:+ "_" +:+ indexToString i +:+ "_l"))
      as Hl4.
    { destruct Hl as [Hd ?]. split; [|done].
      destruct Hg3 as (_ & H3 & _), Hg4 as (_ & H4 & _). auto. }
    assert (owned e4 (":val" +:+ indexToString index +:+ "_" +:+ indexToString i +:+ "_u"))
      as Hu4.
    { destruct Hu as [Hd ?]. split; [|done]. destruct Hg4 as (_ & H4 & _). auto. }
    assert (isPlaceholderKey
              (":val" +:+ indexToString index +:+ "_" +:+ indexToString i +:+ "_l"))
      as Hkl by (apply valKey_isKey; solve_ident).
    assert (isPlaceholderKey
              (":val" +:+ indexToString index +:+ "_" +:+ indexToString i +:+ "_u"))
      as Hku by (apply valKey_isKey; solve_ident).
    assert (isPlaceholderKey
              (":val" +:+ indexToString index +:+ "_" +:+ indexToString i +:+ "_o"))
      as Hko by (apply valKey_isKey; solve_ident).
    unfold settled.
    assert (∀ rest : list string, Forall (owned e4) rest →
              Forall (owned e4)
                (placeholders
                   ("contains(" +:+ path +:+ ", "
                    +:+ (":val" +:+ indexToString index +:+ "_" +:+ indexToString i +:+ "_l")
                    +:+ ") OR contains(" +:+ path +:+ ", "
                    +:+ (":val" +:+ indexToString index +:+ "_" +:+ indexToString i +:+ "_u")
                    +:+ ") OR contains(" +:+ path +:+ ", "
                    +:+ (":val" +:+ indexToString index +:+ "_" +:+ indexToString i +:+ "_o")
                    +:+ ")") ++ rest)) as Hcontains.
    { intros rest Hrest.
      rewrite placeholders_app_plain by reflexivity.
      rewrite (readsAs_mid _ _ path_reads) by reflexivity.
      rewrite placeholders_app_plain by reflexivity.
      rewrite (readsAs_mid _ _ (key_readsAs _ Hkl)) by reflexivity.
      rewrite placeholders_app_plain by reflexivity.
      rewrite (readsAs_mid _ _ path_reads) by reflexivity.
      rewrite placeholders_app_plain by reflexivity.
      rewrite (readsAs_mid _ _ (key_readsAs _ Hku)) by reflexivity.
      rewrite placeholders_app_plain by reflexivity.
      rewrite (readsAs_mid _ _ path_reads) by reflexivity.
      rewrite placeholders_app_plain by reflexivity.
      rewrite (key_readsAs _ Hko ")"%char "") by reflexivity.
      repeat (apply Forall_app; split); try done;
        by (constructor; [|constructor]). }
    destruct isNot.
    - rewrite placeholders_app_plain by reflexivity.
      rewrite placeholders_app_delim by reflexivity.
      apply Hcontains. constructor.
    - rewrite <- (app_nil_r (placeholders _)). apply Hcontains. constructor. }
  destruct (mapWithIndex_grows f (λ _ y e, settled index y e) e _ _ _ _ _
              Hstep (λ _ y a b, settled_grows index y a b) (grows_refl _ Hp) Hmap)
    as (Hg & _ & Hall).
  split; [done|].
  assert (Forall (owned e1) (concat (List.map placeholders clauses))) as Hclauses.
  { apply Forall_concat, Forall_forall. intros ps Hps.
    apply list_elem_of_fmap in Hps as (y & -> & Hy).
    apply list_elem_of_lookup in Hy as [n Hn]. by apply (Hall n y). }
  unfold settled. destruct isNot.
  - by rewrite placeholders_join by reflexivity.
  - rewrite placeholders_app_plain by reflexivity.
    rewrite placeholders_app_delim by reflexivity.
    rewrite placeholders_join by reflexivity.
    by rewrite app_nil_r.
Qed.

End SubExpressions.

Section FilterExpressions.
Context `{Platform}.

Lemma buildSubExpression_settled fieldName operator value index e s e' :
  mapsPresent e →
  buildSubExpression fieldName operator value index e = Ok (s, e') →
  grows e e' ∧ settled index s e'.
Proof.
  intros Hp Hrun. unfold buildSubExpression in Hrun.
  set (parts := split "." fieldName) in *.
  set (f := λ (part : string) (idx : nat), setAttributeName (nameKey index idx) part)
    in Hrun.
  unfold mbind at 1, Builder_bind at 1 in Hrun.
  destruct (mapWithIndex f parts 0%nat e) as [[units e1]|] eqn:Hnames; [|done].
  assert (∀ x i e0 (y : unit) e0', grows e e0 → f x i e0 = Ok (y, e0') →
            grows e0 e0' ∧ defines e0' (nameKey index i)) as Hstep.
  { intros x i e0 [] e0' He0 Hx. subst f. cbv beta in Hx.
    destruct (setAttributeName_grows _ _ _ _ (proj1 He0) Hx) as [Hg Hdef].
    split; [done|]. by eapply Hdef. }
  destruct (mapWithIndex_grows f (λ i (_ : unit) e, defines e (nameKey index i))
              e _ _ _ _ _ Hstep
              (λ i _ a b (Hd : defines a (nameKey index i)) (Hg : grows a b),
                 proj1 (proj2 Hg) _ Hd)
              (grows_refl _ Hp) Hnames)
    as (Hg1 & Hlen & Hall).
  set (pathKeys := imap (λ (idx : nat) (_ : string), nameKey index idx) parts) in *.
  assert (readsAs (join "." pathKeys) pathKeys) as Hreads.
  { apply join_readsAs, Forall_lookup. intros n k Hk. subst pathKeys.
    rewrite list_lookup_imap in Hk.
    destruct (parts !! n); [|done]. injection Hk as <-. apply nameKey_isKey. }
  assert (Forall (λ key, defines e1 key ∧ ownedBy index key) pathKeys) as Hkeys.
  { apply Forall_lookup. intros n k Hk. subst pathKeys.
    rewrite list_lookup_imap in Hk.
    destruct (parts !! n) as [part|] eqn:Hpart; [|done]. injection Hk as <-.
    split; [|apply nameKey_owned].
    destruct (lookup_lt_is_Some_2 units n) as [[] Hu].
    { rewrite Hlen. by eapply lookup_lt_Some. }
    by apply (Hall n tt). }
  assert (grows e1 e' ∧ settled index s e') as [Hg2 Hs].
  { destruct (String.eqb operator "like" || String.eqb operator "not like").
    - exact (buildLikeExpression_settled index _ pathKeys Hreads _ _ e1 s e'
               (proj1 Hg1) Hkeys Hrun).
    - destruct (String.eqb operator "in" || String.eqb operator "not in").
      + exact (buildInExpression_settled index _ pathKeys Hreads _ _ e1 s e'
                 (proj1 Hg1) Hkeys Hrun).
      + exact (buildBasicExpression_settled index _ pathKeys Hreads _ _ e1 s e'
                 (proj1 Hg1) Hkeys Hrun). }
  split; [by eapply grows_trans|done].
Qed.

Lemma addFilterExpressions_settled (filters : list IFilterQuery) e e' :
  mapsPresent e →
  addFilterExpressions filters e = Ok (tt, e') →
  ∃ subExpressions,
    e'.(FilterExpression) = Some (join " AND " subExpressions)
    ∧ grows e e'
    ∧ length subExpressions = length filters
    ∧ ∀ i s, subExpressions !! i = Some s → settled i s e'.
Proof.
  intros Hp Hrun. unfold addFilterExpressions in Hrun.
  set (f := λ (filter : IFilterQuery) (i : nat), _) in Hrun.
  unfold mbind, Builder_bind in Hrun.
  destruct (mapWithIndex f filters 0%nat e) as [[subs e1]|] eqn:Hmap; [|done].
  injection Hrun as <-.
  destruct (mapWithIndex_grows f (λ i y e, settled i y e) e _ _ _ _ _
              (λ x i e0 y e0' (He0 : grows e e0),
                 buildSubExpression_settled _ _ _ i e0 y e0' (proj1 He0))
              (λ i y a b, settled_grows i y a b) (grows_refl _ Hp) Hmap)
    as ((Hp1 & Hd1 & Hk1) & Hlen & Hall).
  set (e2 := {| KeyConditionExpression := KeyConditionExpression e1;
                FilterExpression := Some (join " AND " subs);
                ExpressionAttributeNames := ExpressionAttributeNames e1;
                ExpressionAttributeValues := ExpressionAttributeValues e1 |}).
  assert (∀ key, defines e1 key → defines e2 key) as Hsame.
  { intros key. unfold defines. by simpl. }
  exists subs. split; [done|]. split; [|split; [done|]].
  - split; [by destruct Hp1|]. split; [by auto|done].
  - intros i s Hs. pose proof (Hall i s Hs) as Hsettled.
    eapply Forall_impl; [exact Hsettled|]. intros key [? ?]. by auto.
Qed.

Lemma mapWithIndex_present_on {A B} (P : A → Prop) (f : A → nat → Builder B)
    l start expr :
  (∀ x i e, P x → mapsPresent e → ∃ y e', f x i e = Ok (y, e') ∧ mapsPresent e') →
  Forall P l →
  mapsPresent expr →
  ∃ ys expr', mapWithIndex f l start expr = Ok (ys, expr') ∧ mapsPresent expr'.
Proof.
  intros Hf Hl. revert start expr.
  induction Hl as [|x r Hx Hr IH]; intros start expr Hp; simpl.
  - by exists [], expr.
  - destruct (Hf x start expr Hx Hp) as (y & e1 & Hy & Hp1).
    destruct (IH (S start) e1 Hp1) as (ys & e2 & Hys & Hp2).
    exists (y :: ys), e2. split; [|done].
    unfold mbind, Builder_bind. rewrite Hy. simpl.
    unfold mbind, Builder_bind in Hys |- *. by rewrite Hys.
Qed.

Lemma addFilterExpressions_returns (filters : list IFilterQuery) e :
  mapsPresent e →
  Forall (λ f : IFilterQuery, is_Some (operatorMap_get f.(operator))) filters →
  ∃ e', addFilterExpressions filters e = Ok (tt, e').
Proof.
  intros Hp Hknown. unfold addFilterExpressions.
  set (f := λ (filter : IFilterQuery) (i : nat), _).
  destruct (mapWithIndex_present_on
              (λ x : IFilterQuery, is_Some (operatorMap_get x.(operator)))
              f filters 0%nat e) as (ys & e1 & Hys & Hp1);
    [|exact Hknown|exact Hp|].
  - intros x i e0 [d Hd] He0. subst f. cbv beta.
    destruct (buildSubExpression_cases x.(field) x.(operator) x.(value) i e0 He0)
      as [[Hnone _]|[_ Hok]]; [congruence|done].
  - unfold mbind, Builder_bind. rewrite Hys. by eexists.
Qed.

End FilterExpressions.

Section PlaceholderInvariant.
Context `{Platform}.

Lemma remaining_settled (remaining : list IFilterQuery) e1 :
  mapsPresent e1 →
  e1.(FilterExpression) = None →
  Forall (λ f : IFilterQuery, is_Some (operatorMap_get f.(operator))) remaining →
  ∃ e2 subExpressions,
    match remaining with
    | [] => Ok (tt, e1)
    | _ => addFilterExpressions remaining e1
    end = Ok (tt, e2)
    ∧ grows e1 e2
    ∧ length subExpressions = length remaining
    ∧ e2.(FilterExpression)
      = match subExpressions with
        | [] => None
        | _ => Some (join " AND " subExpressions)
        end
    ∧ ∀ i s, subExpressions !! i = Some s → settled i s e2.
Proof.
  intros Hp Hnone Hknown.
  destruct remaining as [|x r] eqn:Hrem.
  { exists e1, []. split; [done|]. split; [by apply grows_refl|].
    split; [done|]. split; [done|]. intros i s Hs. by rewrite lookup_nil in Hs. }
  rewrite <- Hrem in *.
  destruct (addFilterExpressions_returns remaining e1 Hp Hknown) as [e2 Hrun].
  destruct (addFilterExpressions_settled remaining e1 e2 Hp Hrun)
    as (subs & Hfilter & Hg & Hlen & Hall).
  exists e2, subs. rewrite Hrem at 1. rewrite <- Hrem.
  split; [done|]. split; [done|]. split; [done|]. split; [|done].
  destruct subs; [|done]. rewrite Hrem in Hlen. discriminate.
Qed.

(** C7. For every filter list that passes validation and whose operators
    the builder finds, [buildFilterExpression] returns an expression, made of
    one sub-expression per remaining predicate joined by [AND], such that:
    every placeholder that the key condition or the filter expression refers
    to has an entry in the map of its kind; every placeholder of the
    sub-expression at index [i] is one generated for [i], and is neither
    [#pk] nor [:pkVal]; and the sub-expressions at two different indices
    have no placeholder in common. *)
Theorem buildFilterExpression_placeholders (pkName : string)
    (filters : list IFilterQuery) :
  forEachR (λ filter : IFilterQuery,
              validateFieldName filter.(field);; validateValue filter.(value))
           filters = Ok tt →
  Forall (λ f : IFilterQuery, is_Some (operatorMap_get f.(operator))) filters →
  ∃ expr subExpressions,
    buildFilterExpression pkName filters = Ok expr
    ∧ length subExpressions = length (extractPartitionKeyFilter pkName filters).2
    ∧ expr.(FilterExpression)
      = match subExpressions with
        | [] => None
        | _ => Some (join " AND " subExpressions)
        end
    ∧ (∀ key, key ∈ placeholders (default "" expr.(KeyConditionExpression)) →
              defines expr key)
    ∧ (∀ key, key ∈ placeholders (default "" expr.(FilterExpression)) →
              defines expr key)
    ∧ (∀ i s key, subExpressions !! i = Some s → key ∈ placeholders s →
                  ownedBy i key ∧ key ≠ "#pk" ∧ key ≠ ":pkVal")
    ∧ (∀ i j s t key,
         subExpressions !! i = Some s → subExpressions !! j = Some t → i ≠ j →
         key ∈ placeholders s → key ∉ placeholders t).
Proof.
  intros Hvalid Hknown.
  (* What follows from the state reached after the key condition. *)
  assert (∀ e1 remaining,
            mapsPresent e1 → e1.(FilterExpression) = None →
            (∀ key, key ∈ placeholders (default "" e1.(KeyConditionExpression)) →
                    defines e1 key) →
            Forall (λ f : IFilterQuery, is_Some (operatorMap_get f.(operator)))
                   remaining →
            ∃ expr subExpressions,
              match remaining with
              | [] => Ok (tt, e1)
              | _ => addFilterExpressions remaining e1
              end = Ok (tt, expr)
              ∧ length subExpressions = length remaining
              ∧ expr.(FilterExpression)
                = match subExpressions with
                  | [] => None
                  | _ => Some (join " AND " subExpressions)
                  end
              ∧ (∀ key, key ∈ placeholders (default "" expr.(KeyConditionExpression)) →
                        defines expr key)
              ∧ (∀ key, key ∈ placeholders (default "" expr.(FilterExpression)) →
                        defines expr key)
              ∧ (∀ i s key, subExpressions !! i = Some s → key ∈ placeholders s →
                            ownedBy i key ∧ key ≠ "#pk" ∧ key ≠ ":pkVal")
              ∧ (∀ i j s t key,
                   subExpressions !! i = Some s → subExpressions !! j = Some t →
                   i ≠ j → key ∈ placeholders s → key ∉ placeholders t)) as Hrest.
  { intros e1 remaining Hp1 Hnone Hkey Hrem.
    destruct (remaining_settled remaining e1 Hp1 Hnone Hrem)
      as (e2 & subs & Hrun & Hg & Hlen & Hfilter & Hall).
    assert (∀ i s key, subs !! i = Some s → key ∈ placeholders s →
              defines e2 key ∧ ownedBy i key) as Hsub.
    { intros i s key Hs Hk. pose proof (Hall i s Hs) as Hsettled.
      unfold settled in Hsettled. rewrite Forall_forall in Hsettled. auto. }
    exists e2, subs. split; [done|]. split; [done|]. split; [done|].
    split; [|split; [|split]].
    - destruct Hg as (_ & Hd & ->). auto.
    - rewrite Hfilter. destruct subs as [|s0 subs'] eqn:Hsubs.
      { intros key Hk. by apply elem_of_nil in Hk. }
      rewrite <- Hsubs in *. simpl.
      rewrite placeholders_join by reflexivity.
      apply Forall_forall, Forall_concat, Forall_forall.
      intros ps Hps. apply list_elem_of_fmap in Hps as (s & -> & Hs).
      apply list_elem_of_lookup in Hs as [i Hi].
      apply Forall_forall. intros key Hk. by destruct (Hsub i s key Hi Hk).
    - intros i s key Hs Hk. destruct (Hsub i s key Hs Hk) as [_ Hown].
      split; [done|].
      destruct (pk_not_owned i) as [Hpk Hval].
      split; intros ->; auto.
    - intros i j s t key Hs Ht Hne Hk Hk'.
      destruct (Hsub i s key Hs Hk) as [_ Hi].
      destruct (Hsub j t key Ht Hk') as [_ Hj].
      by pose proof (ownedBy_index _ _ _ Hi Hj). }
  unfold buildFilterExpression.
  destruct filters as [|x r] eqn:Hfilters.
  { exists emptyExpression, []. repeat split; try done.
    - intros key Hk. by apply elem_of_nil in Hk.
    - intros key Hk. by apply elem_of_nil in Hk. }
  rewrite <- Hfilters in *. clear x r Hfilters.
  unfold mbind at 1, Result_bind at 1. rewrite Hvalid.
  set (expr0 := {| KeyConditionExpression := None; FilterExpression := None;
                   ExpressionAttributeNames := Some ∅;
                   ExpressionAttributeValues := Some ∅ |}).
  destruct (extractPartitionKeyFilter_cases pkName filters)
    as [[_ ->]|(before & pk & after & Hsplit & _ & _ & ->)];
    cbv beta iota zeta; unfold snd.
  - destruct (Hrest expr0 filters) as (expr & subs & Hrun & Hconcl);
      [split; simpl; eauto|done| |done|].
    { intros key Hk. by apply elem_of_nil in Hk. }
    exists expr, subs. unfold mbind, Result_bind. rewrite Hrun. by split.
  - set (e1 := {| KeyConditionExpression := Some "#pk = :pkVal";
                  FilterExpression := None;
                  ExpressionAttributeNames := Some (<["#pk" := pk.(field)]> ∅);
                  ExpressionAttributeValues :=
                    Some (<[":pkVal" := toDynamoDBValue pk.(value)]> ∅) |}).
    assert (addPartitionKeyExpression pk expr0 = Ok (tt, e1)) as Hadd by done.
    destruct (Hrest e1 (before ++ after)%list) as (expr & subs & Hrun & Hconcl);
      [split; simpl; eauto|done| | |].
    { intros key Hk. simpl in Hk.
      apply elem_of_cons in Hk as [->|Hk].
      - unfold defines. simpl. rewrite lookup_insert_eq. eauto.
      - apply elem_of_cons in Hk as [->|Hk]; [|by apply elem_of_nil in Hk].
        unfold defines. simpl. rewrite lookup_insert_eq. eauto. }
    { rewrite Hsplit in Hknown. apply Forall_app in Hknown as [Hb Ha].
      apply Forall_cons in Ha as [_ Ha]. by apply Forall_app. }
    exists expr, subs. unfold mbind, Result_bind. rewrite Hadd, Hrun. by split.
Qed.

End PlaceholderInvariant.

(** A [like], a partition-key and an [in] predicate together. *)
Lemma buildFilterExpression_placeholders_witness :
  ∃ expr (subExpressions : list string),
    @buildFilterExpression examplePlatform "id" threeFilters = Ok expr
    ∧ length subExpressions = 2%nat
    ∧ (∀ key, key ∈ placeholders (default "" expr.(FilterExpression)) →
              defines expr key).
Proof.
  destruct (@buildFilterExpression_placeholders examplePlatform "id" threeFilters)
    as (expr & subs & Hrun & Hlen & _ & _ & Hdefined & _).
  - reflexivity.
  - repeat constructor; by eexists.
  - exists expr, subs. split; [exact Hrun|]. split; [exact Hlen|exact Hdefined].
Defined.

(** * Further properties of the validator, the builder and the executors *)

(** ** Loops that may throw *)

Lemma forEachR_Ok {A} (f : A → Result unit) (l : list A) :
  forEachR f l = Ok tt ↔ Forall (λ x, f x = Ok tt) l.
Proof.
  induction l as [|x r IH]; simpl.
  - split; [constructor|done].
  - unfold mbind, Result_bind. rewrite Forall_cons.
    destruct (f x) as [[]|e]; [|by split; [|intros [? _]]].
    rewrite IH. by split; [|intros [_ ?]].
Qed.

Lemma existsb_false {A} (f : A → bool) (l : list A) :
  existsb f l = false ↔ Forall (λ x, f x = false) l.
Proof.
  induction l as [|x r IH]; simpl.
  - split; [constructor|done].
  - rewrite orb_false_iff, Forall_cons, IH. done.
Qed.

(** ** Field names *)

Lemma split_allChars (p : ascii → bool) (sep : ascii) (s : string) :
  Forall (λ t, allChars p t = true) (split sep s) →
  allChars (λ c, p c || Ascii.eqb c sep) s = true.
Proof.
  induction s as [|c r IH]; [done|]. simpl.
  destruct (Ascii.eqb c sep) eqn:Hc.
  - rewrite Forall_cons. intros [_ Hr]. rewrite orb_true_r. simpl. auto.
  - destruct (split sep r) as [|x xs].
    + rewrite Forall_cons. simpl. rewrite andb_true_iff. intros [[-> _] _].
      simpl. apply IH. constructor.
    + rewrite !Forall_cons. simpl. rewrite andb_true_iff. intros [[-> Hx] Hxs].
      simpl. apply IH. by constructor.
Qed.

Lemma validateFieldName_part (part : string) :
  (if (MAX_FIELD_LENGTH <? strLen part)%Z then
     Throw (DynamoValidationError "Field part length exceeds maximum of 255")
   else if negb (VALID_FIELD_REGEX_test part) then
     Throw (DynamoValidationError ("Invalid characters in field name: " +:+ part))
   else Ok tt) = Ok tt
  ↔ (String.length part ≤ 255)%nat ∧ VALID_FIELD_REGEX_test part = true.
Proof.
  unfold MAX_FIELD_LENGTH, strLen.
  destruct (Z.ltb_spec 255 (Z.of_nat (String.length part))).
  - split; [done|]. intros [? _]. lia.
  - destruct (VALID_FIELD_REGEX_test part); simpl.
    + split; [|done]. intros _. split; [lia|done].
    + split; [done|]. by intros [_ ?].
Qed.

(** X1. [validateFieldName] accepts a field exactly when the field is not
    empty, contains none of the unsafe patterns in any letter case, has at
    most 20 segments between dots, and each segment has at most 255
    characters and is a letter followed by letters, digits and underscores.
    Whenever it throws, the exception is a [DynamoValidationError]. *)
Theorem validateFieldName_accepts (fieldName : string) :
  (validateFieldName fieldName = Ok tt ↔
     fieldName ≠ ""
     ∧ Forall (λ pattern, includes (toLowerCase fieldName) (toLowerCase pattern) = false)
              UNSAFE_PATTERNS
     ∧ (length (split "." fieldName) ≤ 20)%nat
     ∧ Forall (λ part, (String.length part ≤ 255)%nat
                       ∧ VALID_FIELD_REGEX_test part = true)
              (split "." fieldName))
  ∧ ∀ e, validateFieldName fieldName = Throw e →
         instanceofDynamoValidationError e = true.
Proof.
  unfold validateFieldName.
  destruct (String.eqb_spec fieldName "") as [->|Hne].
  { split; [split; [done|by intros [? _]]|]. by intros e [= <-]. }
  destruct (existsb _ UNSAFE_PATTERNS) eqn:Hunsafe.
  { split; [|by intros e [= <-]]. split; [done|].
    intros (_ & Hsafe & _). apply existsb_false in Hsafe. congruence. }
  apply existsb_false in Hunsafe.
  unfold MAX_FIELD_DEPTH.
  destruct (Z.ltb_spec 20 (Z.of_nat (length (split "." fieldName)))) as [Hdeep|Hdepth].
  { split; [|by intros e [= <-]]. split; [done|]. intros (_ & _ & ? & _). lia. }
  split.
  - rewrite forEachR_Ok. split.
    + intros Hparts. repeat split; [done|done|lia|].
      eapply Forall_impl; [exact Hparts|]. intros part. apply validateFieldName_part.
    + intros (_ & _ & _ & Hparts).
      eapply Forall_impl; [exact Hparts|]. intros part. apply validateFieldName_part.
  - intros e He. apply forEachR_Throw in He as (part & _ & Hpart).
    destruct (MAX_FIELD_LENGTH <? strLen part)%Z; [by injection Hpart as <-|].
    destruct (negb (VALID_FIELD_REGEX_test part)); [by injection Hpart as <-|done].
Qed.

(** X2. A field that [validateFieldName] accepts begins with a letter and
    consists of letters, digits, underscores and dots only. *)
Theorem validateFieldName_accepted_characters (fieldName : string) :
  validateFieldName fieldName = Ok tt →
  allChars isFieldChar fieldName = true
  ∧ ∃ c r, fieldName = String c r ∧ (isLowerAscii c || isUpperAscii c) = true.
Proof.
  intros Hok.
  assert (Forall (λ part, VALID_FIELD_REGEX_test part = true) (split "." fieldName))
    as Hparts.
  { unfold validateFieldName in Hok.
    destruct (String.eqb fieldName ""); [done|].
    destruct (existsb _ UNSAFE_PATTERNS); [done|].
    destruct (MAX_FIELD_DEPTH <? _)%Z; [done|].
    apply forEachR_Ok in Hok.
    eapply Forall_impl; [exact Hok|]. intros part Hpart.
    by apply validateFieldName_part in Hpart as [_ ?]. }
  split.
  - apply (split_allChars isIdentChar "." fieldName).
    eapply Forall_impl; [exact Hparts|]. intros [|c r]; [done|]. simpl.
    rewrite andb_true_iff. intros [Hc ->]. unfold isIdentChar.
    apply orb_true_iff in Hc as [-> | ->]; by rewrite ?orb_true_r.
  - destruct fieldName as [|c r]; [by apply Forall_cons in Hparts as [? _]|].
    exists c, r. split; [done|]. simpl in Hparts.
    destruct (Ascii.eqb c "."); [by apply Forall_cons in Hparts as [? _]|].
    destruct (split "." r); apply Forall_cons in Hparts as [Hhead _];
      simpl in Hhead; by apply andb_true_iff in Hhead as [? _].
Qed.

(** The field [user.name] is accepted. *)
Lemma validateFieldName_accepted_characters_witness :
  allChars isFieldChar "user.name" = true
  ∧ ∃ c r, "user.name" = String c r ∧ (isLowerAscii c || isUpperAscii c) = true.
Proof. exact (validateFieldName_accepted_characters "user.name" eq_refl). Defined.

(** ** Values *)

(** Induction on a value together with its elements and property values. *)
Lemma JsValue_deep_ind (P : JsValue → Prop) :
  P JUndefined → P JNull → (∀ b, P (JBool b)) → (∀ n, P (JNum n)) →
  (∀ s, P (JStr s)) →
  (∀ elems, Forall P elems → P (JArr elems)) →
  (∀ props, Forall (λ kv, P (snd kv)) props → P (JObj props)) →
  ∀ v, P v.
Proof.
  intros Hu Hn Hb Hnum Hs Ha Ho.
  refine (fix IH (v : JsValue) : P v :=
            match v with
            | JUndefined => Hu
            | JNull => Hn
            | JBool b => Hb b
            | JNum n => Hnum n
            | JStr s => Hs s
            | JArr elems =>
                Ha elems
                  ((fix go (l : list JsValue) : Forall P l :=
                      match l with
                      | [] => @List.Forall_nil _ _
                      | x :: r => @List.Forall_cons _ _ x r (IH x) (go r)
                      end) elems)
            | JObj props =>
                Ho props
                  ((fix go (l : list (string * JsValue))
                      : Forall (λ kv, P (snd kv)) l :=
                      match l with
                      | [] => @List.Forall_nil _ _
                      | kv :: r => @List.Forall_cons _ _ kv r (IH (snd kv)) (go r)
                      end) props)
            end).
Qed.

Section ValueProperties.
Context `{Platform}.

Lemma validateValue_elements (elems : list JsValue) :
  (fix each (l : list JsValue) : Result unit :=
     match l with
     | [] => Ok tt
     | x :: r => validateValue x;; each r
     end) elems = forEachR validateValue elems.
Proof. induction elems as [|x r IH]; [done|]. simpl. by rewrite IH. Qed.

Lemma validateValue_properties (props : list (string * JsValue)) :
  (fix each (l : list (string * JsValue)) : Result unit :=
     match l with
     | [] => Ok tt
     | kv :: r => validateValue (snd kv);; each r
     end) props = forEachR (λ kv, validateValue (snd kv)) props.
Proof. induction props as [|x r IH]; [done|]. simpl. by rewrite IH. Qed.

Lemma validateValue_JStr (s : string) :
  validateValue (JStr s) =
  if injectionIn (quoteJSON s) then
    Throw (DynamoValidationError "Potential NoSQL injection detected")
  else if (MAX_VALUE_LENGTH <? strLen s)%Z then
    Throw (DynamoValidationError "Value length exceeds maximum of 400000")
  else Ok tt.
Proof. reflexivity. Qed.

Lemma validateValue_JArr (elems : list JsValue) :
  ∃ stringified,
    JSON_stringify (JArr elems) = Some stringified ∧
    validateValue (JArr elems) =
    if injectionIn stringified then
      Throw (DynamoValidationError "Potential NoSQL injection detected")
    else match elems with
         | [] => Throw (DynamoValidationError "Empty arrays not supported")
         | _ => forEachR validateValue elems
         end.
Proof.
  eexists. split; [reflexivity|].
  rewrite <- validateValue_elements. reflexivity.
Qed.

Lemma validateValue_JObj (props : list (string * JsValue)) :
  ∃ stringified,
    JSON_stringify (JObj props) = Some stringified ∧
    validateValue (JObj props) =
    if injectionIn stringified then
      Throw (DynamoValidationError "Potential NoSQL injection detected")
    else if existsb (λ prop, bool_decide (prop ∈ dangerousPatterns))
                    (List.map fst props ++ List.map fst props)%list then
      Throw (DynamoValidationError "Potential NoSQL injection detected")
    else forEachR (λ kv, validateValue (snd kv)) props.
Proof.
  eexists. split; [reflexivity|].
  rewrite <- validateValue_properties. reflexivity.
Qed.

(** X3. A value that [validateValue] accepts holds no [null] and no
    [undefined], no empty array and no string of more than 400000
    characters, at any depth: the checks reach every array element and every
    property value. *)
Theorem validateValue_accepts_well_formed (v : JsValue) :
  validateValue v = Ok tt → wellFormedValue v = true.
Proof.
  induction v as [| | b | n | s | elems IH | props IH] using JsValue_deep_ind;
    try done.
  - rewrite validateValue_JStr.
    destruct (injectionIn _); [done|].
    destruct (Z.ltb_spec MAX_VALUE_LENGTH (strLen s)); [done|].
    intros _. by apply Z.leb_le.
  - destruct (validateValue_JArr elems) as (t & _ & ->).
    destruct (injectionIn _); [done|].
    destruct elems as [|x r] eqn:Helems; [done|].
    rewrite <- Helems in *.
    intros Hall. apply forEachR_Ok in Hall.
    assert (forallb wellFormedValue elems = true) as Hwf.
    { apply forallb_forall. intros y Hy. apply list_elem_of_In in Hy.
      rewrite Forall_forall in IH, Hall. auto. }
    rewrite Helems in Hwf |- *. exact Hwf.
  - destruct (validateValue_JObj props) as (t & _ & ->).
    destruct (injectionIn _); [done|].
    destruct (existsb _ _); [done|].
    intros Hall. apply forEachR_Ok in Hall.
    apply forallb_forall. intros y Hy. apply list_elem_of_In in Hy.
    rewrite Forall_forall in IH, Hall. auto.
Qed.

Local Ltac thrown :=
  unfold validateValueErrors; rewrite !elem_of_cons; auto 6.

Lemma validateValue_thrown (v : JsValue) (e : JsError) :
  validateValue v = Throw e → e ∈ validateValueErrors.
Proof.
  revert e.
  induction v as [| | b | n | s | elems IH | props IH] using JsValue_deep_ind;
    intros e.
  - intros [= <-]. apply list_elem_of_here.
  - intros [= <-]. apply list_elem_of_here.
  - by destruct b.
  - change (validateValue (JNum n))
      with (if injectionIn (Number_toString n)
            then Throw (DynamoValidationError "Potential NoSQL injection detected")
            else Ok tt).
    destruct (injectionIn _); [intros [= <-]; thrown|done].
  - rewrite validateValue_JStr.
    destruct (injectionIn _); [intros [= <-]; thrown|].
    destruct (_ <? _)%Z; [intros [= <-]; thrown|done].
  - destruct (validateValue_JArr elems) as (t & _ & ->).
    destruct (injectionIn _); [intros [= <-]; thrown|].
    destruct elems as [|x r] eqn:Helems; [intros [= <-]; thrown|].
    rewrite <- Helems in *.
    intros Hthrow. apply forEachR_Throw in Hthrow as (y & Hy & Hthrow).
    rewrite Forall_forall in IH. eauto.
  - destruct (validateValue_JObj props) as (t & _ & ->).
    destruct (injectionIn _); [intros [= <-]; thrown|].
    destruct (existsb _ _); [intros [= <-]; thrown|].
    intros Hthrow. apply forEachR_Throw in Hthrow as (y & Hy & Hthrow).
    rewrite Forall_forall in IH. eauto.
Qed.

(** X4. Whatever [validateValue] throws is one of four errors: the
    [TypeError] of [hasOwnProperty] on [null] or [undefined], or a
    [DynamoValidationError] for an injection pattern, an over-long string or
    an empty array. The error 'Value cannot be null or undefined' is never
    thrown, at any depth. *)
Theorem validateValue_errors (v : JsValue) (e : JsError) :
  validateValue v = Throw e →
  e ∈ validateValueErrors ∧
  e ≠ DynamoValidationError "Value cannot be null or undefined".
Proof.
  intros Hthrow. apply validateValue_thrown in Hthrow. split; [done|].
  unfold validateValueErrors in Hthrow.
  rewrite !elem_of_cons, elem_of_nil in Hthrow.
  destruct Hthrow as [-> | [-> | [-> | [-> | []]]]]; done.
Qed.

End ValueProperties.

Lemma validateValue_accepts_well_formed_witness :
  @validateValue examplePlatform (JArr [JStr "Ann"; JObj [("age", JNum 3)]]) = Ok tt
  ∧ wellFormedValue (JArr [JStr "Ann"; JObj [("age", JNum 3)]]) = true.
Proof.
  split; [reflexivity|].
  apply (@validateValue_accepts_well_formed examplePlatform). reflexivity.
Defined.

Lemma validateValue_errors_witness :
  @validateValue examplePlatform (JArr [JStr "Ann"; JNull])
  = Throw (TypeError "Cannot convert undefined or null to object")
  ∧ TypeError "Cannot convert undefined or null to object" ∈ validateValueErrors.
Proof.
  split; [reflexivity|].
  apply (@validateValue_errors examplePlatform (JArr [JStr "Ann"; JNull])).
  reflexivity.
Defined.

(** ** Pagination requests *)

Lemma Number_isInteger_whole (x : Q) : Number_isInteger x = true ↔ whole x.
Proof.
  unfold Number_isInteger, whole. rewrite Qeq_bool_iff. split.
  - intros Hx. exists (Qfloor x). by symmetry.
  - intros [z Hz]. rewrite Hz at 1. rewrite Qfloor_Z. by symmetry.
Qed.

Lemma validatePagination_cases (p : IPaginationQuery) :
  (validatePagination p = Ok tt ↔
   ∀ x q, x ∈ [p.(page); p.(size); p.(limit); p.(offset)] → x = Some q → whole q)
  ∧ (∀ e, validatePagination p = Throw e → instanceofDynamoValidationError e = true).
Proof.
  assert (whole 1 ∧ whole 10 ∧ whole 0) as (H1 & H10 & H0).
  { repeat split; [by exists 1|by exists 10|by exists 0]. }
  assert (∀ d x, whole d →
            Number_isInteger (default d x) = true ↔ ∀ q, x = Some q → whole q)
    as Hdefault.
  { intros d [q|] Hd; simpl; rewrite Number_isInteger_whole.
    - split; [by intros Hq ? [= <-]|by auto].
    - split; [done|by auto]. }
  assert ((match p.(limit) with
           | Some l => negb (Number_isInteger l)
           | None => false
           end) = false ↔ ∀ q, p.(limit) = Some q → whole q) as Hlimit.
  { destruct (limit p) as [l|].
    - rewrite negb_false_iff, Number_isInteger_whole.
      split; [by intros Hq ? [= <-]|by auto].
    - split; [done|by auto]. }
  pose proof (Hdefault 1%Q p.(page) H1) as Hpage.
  pose proof (Hdefault 10%Q p.(size) H10) as Hsize.
  pose proof (Hdefault 0%Q p.(offset) H0) as Hoffset.
  unfold validatePagination. cbv zeta.
  destruct (Number_isInteger (default 1%Q (page p))).
  2:{ split; [|by intros e [= <-]]. split; [done|]. intros Hall.
      assert (false = true) as Habs; [|done].
      apply Hpage. intros q Hq. apply (Hall p.(page)); [|done].
      rewrite !elem_of_cons. auto. }
  destruct (Number_isInteger (default 10%Q (size p))).
  2:{ split; [|by intros e [= <-]]. split; [done|]. intros Hall.
      assert (false = true) as Habs; [|done].
      apply Hsize. intros q Hq. apply (Hall p.(size)); [|done].
      rewrite !elem_of_cons. auto. }
  simpl negb. cbv iota.
  destruct (match limit p with Some l => _ | None => _ end).
  { split; [|by intros e [= <-]]. split; [done|]. intros Hall.
    assert (true = false) as Habs; [|done].
    apply Hlimit. intros q Hq. apply (Hall p.(limit)); [|done].
    rewrite !elem_of_cons. auto. }
  destruct (Number_isInteger (default 0%Q (offset p))).
  2:{ split; [|by intros e [= <-]]. split; [done|]. intros Hall.
      assert (false = true) as Habs; [|done].
      apply Hoffset. intros q Hq. apply (Hall p.(offset)); [|done].
      rewrite !elem_of_cons. auto. }
  simpl. split; [|done]. split; [|done]. intros _ x q Hx Hq.
  rewrite !elem_of_cons, elem_of_nil in Hx.
  destruct Hx as [-> | [-> | [-> | [-> | []]]]].
  - by apply Hpage.
  - by apply Hsize.
  - by apply Hlimit.
  - by apply Hoffset.
Qed.

(** X5. [validatePagination] accepts a pagination object exactly when
    [page], [size], [limit] and [offset], where given, have no fractional
    part. It checks [size] along with the other three, and it looks at
    neither the sign nor the magnitude of a number, nor at [sortBy] and
    [sortDirection]. Every failure is a [DynamoValidationError]. *)
Theorem validatePagination_accepts (p : IPaginationQuery) :
  (validatePagination p = Ok tt ↔
   ∀ x q, x ∈ [p.(page); p.(size); p.(limit); p.(offset)] → x = Some q → whole q)
  ∧ (∀ e, validatePagination p = Throw e → instanceofDynamoValidationError e = true).
Proof. exact (validatePagination_cases p). Qed.

(** ** The slice of one page *)

Lemma toInteger_inject_Z (x : Q) (z : Z) : (x == inject_Z z)%Q → toInteger x = z.
Proof.
  intros Hx. unfold toInteger.
  rewrite (Qfloor_comp _ _ Hx), (Qceiling_comp _ _ Hx), Qfloor_Z, Qceiling_Z.
  by destruct (Qle_bool 0 x).
Qed.

Lemma take_drop_clamped {A} (items : list A) (L K : nat) :
  take (Nat.min (K + L) (length items) - K) (drop K items) = take L (drop K items).
Proof.
  destruct (Nat.le_gt_cases (K + L) (length items)) as [Hle|Hgt].
  - rewrite Nat.min_l by done. f_equal. lia.
  - rewrite Nat.min_r by lia.
    rewrite !take_ge; [done| |]; rewrite length_drop; lia.
Qed.

Lemma processResults_slice (items : list Item) (limit offset : Q) (L K : Z) :
  (limit == inject_Z L)%Q → (offset == inject_Z K)%Q → 0 <= L → 0 <= K →
  processResults items limit offset
  = List.map mapDynamoDBItemToType (take (Z.to_nat L) (drop (Z.to_nat K) items)).
Proof.
  intros Hl Ho HL HK. unfold processResults.
  destruct (Qeq_bool limit 0) eqn:Hzero.
  { apply Qeq_bool_iff in Hzero. rewrite Hl in Hzero.
    assert (L = 0) as -> by (by apply inject_Z_injective).
    done. }
  destruct (Qle_bool _ offset) eqn:Hpast.
  { apply Qle_bool_iff in Hpast. rewrite Ho in Hpast. rewrite <- Zle_Qle in Hpast.
    rewrite drop_ge by lia. by rewrite take_nil. }
  assert (Z.of_nat (length items) > K) as Hin.
  { destruct (Z.le_gt_cases (Z.of_nat (length items)) K) as [Hle|?]; [|lia].
    rewrite Zle_Qle in Hle. rewrite <- Ho in Hle. apply Qle_bool_iff in Hle.
    congruence. }
  cbv zeta. f_equal. unfold Array_slice.
  rewrite (toInteger_inject_Z offset K Ho).
  rewrite (toInteger_inject_Z (offset + limit) (K + L))
    by (rewrite Ho, Hl, inject_Z_plus; reflexivity).
  destruct (Z.ltb_spec K 0); [lia|]. destruct (Z.ltb_spec (K + L) 0); [lia|].
  rewrite (Z.min_l K) by lia.
  replace (Z.to_nat (Z.min (K + L) (Z.of_nat (length items)) - K))
    with (Nat.min (Z.to_nat K + Z.to_nat L) (length items) - Z.to_nat K)%nat by lia.
  apply take_drop_clamped.
Qed.

(** X6. For a whole limit and a whole offset that are not negative,
    [processResults] decodes the items at positions [offset] up to but not
    including [offset + limit] of the retrieved list, as far as the list
    goes: a limit of 0 and an offset at or past the end both give the empty
    page. *)
Theorem processResults_is_window (items : list Item) (limit offset : Q) (L K : nat) :
  (limit == inject_Z (Z.of_nat L))%Q → (offset == inject_Z (Z.of_nat K))%Q →
  processResults items limit offset
  = List.map mapDynamoDBItemToType (take L (drop K items))
  ∧ (∀ i : nat, (i < L)%nat →
       processResults items limit offset !! i
       = mapDynamoDBItemToType <$> (items !! (K + i)%nat))
  ∧ (L = 0%nat ∨ (length items ≤ K)%nat → processResults items limit offset = []).
Proof.
  intros Hl Ho.
  assert (processResults items limit offset
          = List.map mapDynamoDBItemToType (take L (drop K items))) as ->.
  { rewrite (processResults_slice items limit offset _ _ Hl Ho) by lia.
    by rewrite !Nat2Z.id. }
  split; [done|]. split.
  - intros i Hi.
    change (List.map mapDynamoDBItemToType (take L (drop K items)))
      with (mapDynamoDBItemToType <$> take L (drop K items)).
    by rewrite list_lookup_fmap, lookup_take_lt, lookup_drop by done.
  - intros [-> | Hpast]; [done|]. by rewrite drop_ge, take_nil.
Qed.

Lemma processResults_is_window_witness :
  (3 == inject_Z (Z.of_nat 3))%Q ∧ (1 == inject_Z (Z.of_nat 1))%Q
  ∧ processResults people 3 1
    = List.map mapDynamoDBItemToType [person "Bob" 10; person "Cy" 20].
Proof.
  split; [reflexivity|]. split; [reflexivity|].
  exact (proj1 (processResults_is_window people 3 1 3 1 (Qeq_refl _) (Qeq_refl _))).
Defined.

Lemma calculatePaginationValues_pageRequest (i : nat) (L : Z) :
  0 <= L →
  calculatePaginationValues (pageRequest (S i) L)
  = (inject_Z L, inject_Z (Z.of_nat i * L)).
Proof.
  intros HL. rewrite calculatePaginationValues_eq.
  unfold specOffset, specPage, specLimit, pageRequest.
  cbn [page limit offset default id]. rewrite !Qfloor_Z. do 2 f_equal; lia.
Qed.

(** X7. Asking for the pages 1, 2, ..., n with the same limit and no offset
    and putting the pages one after the other gives the first [n * limit]
    items of the retrieved list, decoded and in order: consecutive pages
    neither overlap nor leave a gap. *)
Theorem consecutive_pages_partition (items : list Item) (L n : nat) :
  concat (List.map (λ i : nat,
            let '(limit, offset) :=
              calculatePaginationValues (pageRequest (S i) (Z.of_nat L)) in
            processResults items limit offset) (seq 0 n))
  = List.map mapDynamoDBItemToType (take (n * L) items).
Proof.
  induction n as [|n IH]; [done|].
  rewrite seq_S, List.map_app, concat_app, IH. cbn [List.map concat Nat.add].
  rewrite calculatePaginationValues_pageRequest by lia.
  rewrite (processResults_slice items _ _ (Z.of_nat L) (Z.of_nat n * Z.of_nat L))
    by (reflexivity || lia).
  rewrite app_nil_r, <- List.map_app. f_equal.
  replace (Z.to_nat (Z.of_nat n * Z.of_nat L)) with (n * L)%nat by lia.
  rewrite Nat2Z.id, take_take_drop. f_equal. lia.
Qed.

(** ** What a call returns *)

Lemma validatePagination_offset (p : IPaginationQuery) :
  validatePagination p = Ok tt →
  ∃ K : Z, 0 <= K ∧ (snd (calculatePaginationValues p) == inject_Z K)%Q.
Proof.
  intros Hvalid. rewrite calculatePaginationValues_eq. cbn [snd].
  assert (0 <= (specPage p - 1) * specLimit p) as Hprod.
  { unfold specPage, specLimit. nia. }
  assert (∃ K : Z, 0 <= K
            ∧ (inject_Z ((specPage p - 1) * specLimit p) == inject_Z K)%Q) as Hpage.
  { eexists. split; [exact Hprod|reflexivity]. }
  unfold specOffset. destruct (offset p) as [o|] eqn:Hoffset; [|done].
  destruct (Qle_bool 0 o) eqn:Ho; [|done].
  pose proof (proj1 (proj1 (validatePagination_cases p)) Hvalid) as Hall.
  destruct (Hall (Some o) o) as [K HK]; [|done|].
  { rewrite <- Hoffset, !elem_of_cons. auto. }
  exists K. split; [|done].
  apply Qle_bool_iff in Ho. rewrite HK in Ho.
  change 0%Q with (inject_Z 0) in Ho. by rewrite <- Zle_Qle in Ho.
Qed.

Lemma processResults_length (items : list Item) (limit offset : Q) (L K : Z) :
  (limit == inject_Z L)%Q → (offset == inject_Z K)%Q → 0 <= L → 0 <= K →
  (length (processResults items limit offset) ≤ length items)%nat
  ∧ Z.of_nat (length (processResults items limit offset)) <= L.
Proof.
  intros Hl Ho HL HK.
  rewrite (processResults_slice items limit offset L K) by done.
  rewrite length_map, length_take, length_drop. lia.
Qed.

Section Returned.
Context `{Platform}.
Variables (tableName pkName : string).

Lemma SortingService_prepared (query : IGenericFilterQuery) params lim off p :
  SortingService.prepareQueryParameters tableName pkName query
  = Ok (params, lim, off, p) →
  ∃ L K : Z,
    0 <= L <= Z.max 0 (Qfloor (default 100%Q
                         (default emptyPagination query.(pagination)).(limit)))
    ∧ 0 <= K ∧ (lim == inject_Z L)%Q ∧ (off == inject_Z K)%Q.
Proof.
  unfold SortingService.prepareQueryParameters. cbv zeta.
  set (pg := default emptyPagination query.(pagination)).
  destruct (validatePagination pg) as [[]|e] eqn:Hvalid; [|done].
  destruct (validatePagination_offset pg Hvalid) as (K & HK & Hoff).
  rewrite calculatePaginationValues_eq in Hoff |- *. cbn [snd] in Hoff.
  unfold mbind at 1, Result_bind at 1.
  destruct (Qeq_bool _ 0).
  { intros [= <- <- <- <-]. exists 0, 0. unfold specLimit. repeat split; try lia; done. }
  destruct (buildFilterExpression _ _) as [expr|e]; [|done].
  unfold mbind, Result_bind.
  destruct (buildQueryParams _ _ _) as [built|e]; [|done].
  intros [= <- <- <- <-]. exists (specLimit pg), K. unfold specLimit.
  repeat split; try lia; done.
Qed.

Lemma PlainService_prepared (query : IGenericFilterQuery) params lim off :
  PlainService.prepareQueryParameters tableName pkName query
  = Ok (params, lim, off) →
  ∃ L K : Z,
    0 <= L <= Z.max 0 (Qfloor (default 100%Q
                         (default emptyPagination query.(pagination)).(limit)))
    ∧ 0 <= K ∧ (lim == inject_Z L)%Q ∧ (off == inject_Z K)%Q.
Proof.
  unfold PlainService.prepareQueryParameters. cbv zeta.
  set (pg := default emptyPagination query.(pagination)).
  destruct (validatePagination pg) as [[]|e] eqn:Hvalid; [|done].
  destruct (validatePagination_offset pg Hvalid) as (K & HK & Hoff).
  rewrite calculatePaginationValues_eq in Hoff |- *. cbn [snd] in Hoff.
  unfold mbind at 1, Result_bind at 1.
  destruct (Qeq_bool _ 0).
  { intros [= <- <- <-]. exists 0, 0. unfold specLimit. repeat split; try lia; done. }
  destruct (buildFilterExpression _ _) as [expr|e]; [|done].
  unfold mbind, Result_bind.
  destruct (buildQueryParams _ _ _) as [built|e]; [|done].
  intros [= <- <- <-]. exists (specLimit pg), K. unfold specLimit.
  repeat split; try lia; done.
Qed.

(** X8. When a call of either executor returns a page, exactly one command
    was sent and the store answered it; [total] is the number of items in
    that one answer, whatever the pagination; [data] holds at most [limit]
    items (at most 100 when no limit is given) and never more than [total];
    and nothing is written to the error log. *)
Theorem returned_page_bounds (query : IGenericFilterQuery) (dynamoDBClient : Client)
    (run : FetchRun) (returned : Page) :
  run ∈ [SortingService.fetchWithFiltersAndPagination tableName pkName query
           dynamoDBClient;
         PlainService.fetchWithFiltersAndPagination tableName pkName query
           dynamoDBClient] →
  run.(outcome) = Ok returned →
  (∃ command response,
     run.(sent) = [command]
     ∧ dynamoDBClient command = Ok response
     ∧ returned.(total) = length (default [] response.(Items)))
  ∧ (length returned.(data) ≤ returned.(total))%nat
  ∧ Z.of_nat (length returned.(data))
    <= Z.max 0 (Qfloor (default 100%Q
                  (default emptyPagination query.(pagination)).(limit)))
  ∧ run.(errorLog) = [].
Proof.
  rewrite !elem_of_cons, elem_of_nil. intros [-> | [-> | []]].
  - pose proof (SortingService_fetch_run tableName pkName query dynamoDBClient) as Hrun.
    cbv zeta in Hrun.
    destruct (SortingService.prepareQueryParameters _ _ _)
      as [[[[params limit] offset] p]|e] eqn:Hprep; [|by rewrite Hrun].
    destruct (SortingService_prepared _ _ _ _ _ Hprep) as (L & K & HL & HK & Hl & Ho).
    pose proof (executeQuery_outcome params dynamoDBClient p) as Hout.
    destruct (SortingService.executeQuery params dynamoDBClient p).2 as [ordered|e];
      rewrite Hrun; cbn [outcome sent errorLog]; [|done].
    destruct Hout as (response & Hsend & _ & Hperm).
    destruct (processResults_length ordered limit offset L K Hl Ho)
      as [Hlen HlenL]; [lia|lia|].
    intros [= <-]; cbn [data total].
    rewrite (Permutation_length Hperm) in *.
    split; [by eauto|]. split; [done|]. split; [lia|done].
  - unfold PlainService.fetchWithFiltersAndPagination.
    destruct (PlainService.prepareQueryParameters _ _ _)
      as [[[params limit] offset]|e] eqn:Hprep; [|done].
    destruct (PlainService_prepared _ _ _ _ Hprep) as (L & K & HL & HK & Hl & Ho).
    unfold PlainService.executeQuery. cbv zeta.
    destruct (dynamoDBClient (commandFor params)) as [response|e] eqn:Hsend; [|done].
    unfold mbind, Result_bind.
    destruct (processResults_length (default [] response.(Items)) limit offset L K Hl Ho)
      as [Hlen HlenL]; [lia|lia|].
    cbn [outcome sent errorLog]. intros [= <-]; cbn [data total].
    split; [by eauto|]. split; [done|]. split; [lia|done].
Qed.

End Returned.

(** The first page of two people out of three. *)
Lemma returned_page_bounds_witness :
  ∃ returned,
    (@SortingService.fetchWithFiltersAndPagination examplePlatform "People" "id"
       {| pagination := Some (pageRequest 1 2); filters := None |}
       (wholeTableStore people)).(outcome) = Ok returned
    ∧ (length returned.(data) ≤ returned.(total))%nat.
Proof.
  eexists. split; [reflexivity|].
  refine (proj1 (proj2 (@returned_page_bounds examplePlatform "People" "id"
                          {| pagination := Some (pageRequest 1 2); filters := None |}
                          (wholeTableStore people) _ _ _ _))).
  - apply list_elem_of_here.
  - reflexivity.
Defined.

(** ** What the placeholders stand for *)

Lemma keeps_refl (W : string → Prop) e : keeps W e e.
Proof. by split. Qed.

Lemma keeps_trans (W : string → Prop) e1 e2 e3 :
  keeps W e1 e2 → keeps W e2 e3 → keeps W e1 e3.
Proof.
  intros [K12 H12] [K23 H23]. split; [congruence|].
  intros key Hkey. destruct (H12 key Hkey), (H23 key Hkey). split; congruence.
Qed.

Lemma keeps_weaken (W W' : string → Prop) e1 e2 :
  (∀ key, W key → W' key) → keeps W e1 e2 → keeps W' e1 e2.
Proof. intros Hsub [K12 H12]. split; [done|]. intros key Hkey. apply H12. auto. Qed.

Lemma keeps_name (W : string → Prop) e1 e2 key name :
  keeps W e1 e2 → ¬ W key → nameOf e1 key = Some name → nameOf e2 key = Some name.
Proof. intros [_ Hk] Hkey Hname. destruct (Hk key Hkey). congruence. Qed.

Lemma keeps_value (W : string → Prop) e1 e2 key attr :
  keeps W e1 e2 → ¬ W key → valueOf e1 key = Some attr → valueOf e2 key = Some attr.
Proof. intros [_ Hk] Hkey Hvalue. destruct (Hk key Hkey). congruence. Qed.

Lemma setAttributeName_keeps key name e u e' :
  setAttributeName key name e = Ok (u, e') →
  keeps (eq key) e e' ∧ nameOf e' key = Some name.
Proof.
  unfold setAttributeName.
  destruct (ExpressionAttributeNames e) as [names|] eqn:Hnames; [|done].
  intros [= <- <-]. unfold keeps, nameOf, valueOf. simpl. rewrite Hnames. simpl.
  split; [|by rewrite lookup_insert_eq]. split; [done|].
  intros k Hk. by rewrite lookup_insert_ne.
Qed.

Lemma setAttributeValue_keeps key attr e u e' :
  setAttributeValue key attr e = Ok (u, e') →
  keeps (eq key) e e' ∧ valueOf e' key = Some attr.
Proof.
  unfold setAttributeValue.
  destruct (ExpressionAttributeValues e) as [values|] eqn:Hvalues; [|done].
  intros [= <- <-]. unfold keeps, nameOf, valueOf. simpl. rewrite Hvalues. simpl.
  split; [|by rewrite lookup_insert_eq]. split; [done|].
  intros k Hk. by rewrite lookup_insert_ne.
Qed.

(** What [mapWithIndex] leaves behind, for a callback that at index [i]
    writes placeholders of [W i] only and establishes [R i], when what is
    written at the other indices keeps [R i]. *)
Lemma mapWithIndex_keeps {A B} (f : A → nat → Builder B)
    (W : nat → string → Prop) (R : nat → A → DynamoDBFilterExpression → Prop)
    l start e ys e' :
  (∀ x i e0 y e0', f x i e0 = Ok (y, e0') → keeps (W i) e0 e0' ∧ R i x e0') →
  (∀ i x e0 e0', R i x e0 → keeps (λ key, ∃ j, j ≠ i ∧ W j key) e0 e0' → R i x e0') →
  mapWithIndex f l start e = Ok (ys, e') →
  keeps (λ key, ∃ i, (start ≤ i)%nat ∧ W i key) e e'
  ∧ length ys = length l
  ∧ ∀ n x, l !! n = Some x → R (start + n)%nat x e'.
Proof.
  intros Hf Hstable. revert start e ys.
  induction l as [|x r IH]; intros start e ys Hrun; simpl in Hrun.
  - injection Hrun as <- <-. split; [apply keeps_refl|]. split; [done|].
    intros n x Hn. by rewrite lookup_nil in Hn.
  - unfold mbind, Builder_bind in Hrun.
    destruct (f x start e) as [[y e1]|] eqn:Hx; [|done].
    destruct (Hf x start e y e1 Hx) as [Hk1 Hy].
    fold (@mapWithIndex A B) in Hrun.
    destruct (mapWithIndex f r (S start) e1) as [[ys' e2]|] eqn:Hr; [|done].
    injection Hrun as <- <-.
    destruct (IH (S start) e1 ys' Hr) as (Hk2 & Hlen & Hall).
    split; [|split; [simpl; by rewrite Hlen|]].
    + eapply keeps_trans.
      * eapply keeps_weaken; [|exact Hk1]. intros key Hkey. exists start. by split.
      * eapply keeps_weaken; [|exact Hk2]. intros key (i & Hi & Hkey).
        exists i. split; [lia|done].
    + intros [|n] z Hz; simpl in Hz.
      * injection Hz as <-. rewrite Nat.add_0_r.
        apply (Hstable start x e1 e2 Hy).
        eapply keeps_weaken; [|exact Hk2]. intros key (i & Hi & Hkey).
        exists i. split; [lia|done].
      * replace (start + S n)%nat with (S start + n)%nat by lia. by apply Hall.
Qed.

Lemma nameKey_inj (index : nat) : Inj (=) (=) (nameKey index).
Proof.
  intros j j' Heq. unfold nameKey in Heq.
  do 3 apply (inj (String.append _)) in Heq.
  by apply (inj pretty).
Qed.

Lemma inKey_inj (index : nat) : Inj (=) (=) (inKey index).
Proof.
  intros j j' Heq. unfold inKey in Heq.
  do 3 apply (inj (String.append _)) in Heq.
  by apply (inj pretty).
Qed.

Lemma likeKey_inj (index j j' : nat) (s s' : string) :
  s ∈ likeSuffixes → s' ∈ likeSuffixes →
  likeKey index j s = likeKey index j' s' → j = j' ∧ s = s'.
Proof.
  intros Hs Hs' Heq. unfold likeKey in Heq.
  do 3 apply (inj (String.append _)) in Heq.
  assert (∀ t, t ∈ likeSuffixes → ∃ r, t = String "_" r) as Hshape.
  { intros t Ht. unfold likeSuffixes in Ht. rewrite !elem_of_cons, elem_of_nil in Ht.
    destruct Ht as [-> | [-> | [-> | []]]]; by eexists. }
  assert (j = j') as <-.
  { apply (f_equal digitPrefix) in Heq.
    rewrite !digitPrefix_app in Heq by auto using indexToString_digits.
    by apply (inj pretty). }
  split; [done|]. by apply (inj (String.append _)) in Heq.
Qed.

Lemma nameKey_not_value (index j : nat) (rest : string) :
  nameKey index j ≠ ":val" +:+ rest.
Proof. unfold nameKey. rewrite !append_cons. by intros [=]. Qed.

Lemma likeKey_owned (index j : nat) (s : string) : ownedBy index (likeKey index j s).
Proof. apply valKey_owned. right. by eexists. Qed.

Lemma inKey_owned (index j : nat) : ownedBy index (inKey index j).
Proof. apply valKey_owned. right. by eexists. Qed.

Lemma basicKey_owned (index : nat) : ownedBy index (":val" +:+ indexToString index).
Proof. exists "". split; [right; by rewrite append_nil_r|by left]. Qed.

Section Bindings.
Context `{Platform}.

Lemma names_keeps (index : nat) (parts : list string) e units e' :
  mapWithIndex (λ part idx, setAttributeName (nameKey index idx) part) parts 0%nat e
  = Ok (units, e') →
  keeps (λ key, ∃ j, key = nameKey index j) e e'
  ∧ ∀ j part, parts !! j = Some part → nameOf e' (nameKey index j) = Some part.
Proof.
  intros Hrun.
  destruct (mapWithIndex_keeps
              (λ part idx, setAttributeName (nameKey index idx) part)
              (λ j key, key = nameKey index j)
              (λ j part e0, nameOf e0 (nameKey index j) = Some part)
              parts 0%nat e units e') as (Hk & _ & Hall); [| |exact Hrun|].
  - intros part j e0 [] e0' Hset. cbv beta in Hset.
    destruct (setAttributeName_keeps _ _ _ _ _ Hset) as [Hk Hname].
    split; [|done]. eapply keeps_weaken; [|exact Hk]. by intros key <-.
  - intros j part e0 e0' Hname Hk. eapply keeps_name; [exact Hk| |exact Hname].
    intros (j' & Hne & Heq). by apply nameKey_inj in Heq.
  - split; [|exact Hall]. eapply keeps_weaken; [|exact Hk].
    intros key (j & _ & ->). by exists j.
Qed.

Lemma buildBasicExpression_keeps path operator value index e s e' :
  buildBasicExpression path operator value index e = Ok (s, e') →
  keeps (eq (":val" +:+ indexToString index)) e e'
  ∧ valueOf e' (":val" +:+ indexToString index) = Some (toDynamoDBValue value).
Proof.
  unfold buildBasicExpression. cbv zeta. unfold mbind, Builder_bind.
  destruct (setAttributeValue _ _ e) as [[[] e1]|] eqn:Hset; [|done].
  destruct (setAttributeValue_keeps _ _ _ _ _ Hset) as [Hk Hvalue].
  destruct (operatorMap_get operator) as [dynOp|]; [|done].
  destruct (String.eqb dynOp ""); [done|].
  by intros [= <- <-].
Qed.

Lemma buildInExpression_keeps path value index isNot e s e' :
  buildInExpression path value index isNot e = Ok (s, e') →
  keeps (λ key, ∃ j, key = inKey index j) e e'
  ∧ ∀ j v, inValues value !! j = Some v →
           valueOf e' (inKey index j) = Some (toDynamoDBValue v).
Proof.
  unfold buildInExpression. cbv zeta. fold (inValues value).
  set (f := λ (val : JsValue) (valIndex : nat), _).
  unfold mbind, Builder_bind.
  destruct (mapWithIndex f (inValues value) 0%nat e) as [[checks e1]|] eqn:Hrun; [|done].
  intros [= <- <-].
  destruct (mapWithIndex_keeps f
              (λ j key, key = inKey index j)
              (λ j v e0, valueOf e0 (inKey index j) = Some (toDynamoDBValue v))
              (inValues value) 0%nat e checks e1) as (Hk & _ & Hall); [| |exact Hrun|].
  - intros v j e0 y e0' Hstep. subst f. cbv beta zeta in Hstep.
    unfold mbind, Builder_bind in Hstep.
    destruct (setAttributeValue _ _ e0) as [[[] e2]|] eqn:Hset; [|done].
    injection Hstep as <- <-.
    destruct (setAttributeValue_keeps _ _ _ _ _ Hset) as [Hk Hvalue].
    split; [|done]. eapply keeps_weaken; [|exact Hk]. by intros key <-.
  - intros j v e0 e0' Hvalue Hk. eapply keeps_value; [exact Hk| |exact Hvalue].
    intros (j' & Hne & Heq). by apply inKey_inj in Heq.
  - split; [|exact Hall]. eapply keeps_weaken; [|exact Hk].
    intros key (j & _ & ->). by exists j.
Qed.

Lemma likeKeys_distinct (index j : nat) :
  likeKey index j "_l" ≠ likeKey index j "_u"
  ∧ likeKey index j "_l" ≠ likeKey index j "_o"
  ∧ likeKey index j "_u" ≠ likeKey index j "_o".
Proof.
  repeat split; intros Heq;
    apply likeKey_inj in Heq as [_ [=]]; unfold likeSuffixes;
    rewrite !elem_of_cons; auto.
Qed.

Lemma buildLikeExpression_keeps path value index isNot e s e' :
  buildLikeExpression path value index isNot e = Ok (s, e') →
  keeps (λ key, ∃ j suffix, suffix ∈ likeSuffixes ∧ key = likeKey index j suffix) e e'
  ∧ ∀ j term, likeTerms value !! j = Some term →
      valueOf e' (likeKey index j "_l")
      = Some (toDynamoDBValue (JStr (toLowerCase term)))
      ∧ valueOf e' (likeKey index j "_u")
        = Some (toDynamoDBValue (JStr (toUpperCase term)))
      ∧ valueOf e' (likeKey index j "_o") = Some (toDynamoDBValue (JStr term)).
Proof.
  unfold buildLikeExpression. cbv zeta. fold (likeTerms value).
  destruct (likeTerms value) as [|t0 ts] eqn:Hterms.
  { intros [= <- <-]. split; [apply keeps_refl|]. intros j term Hj.
    by rewrite lookup_nil in Hj. }
  rewrite <- Hterms. clear t0 ts Hterms.
  set (f := λ (term : string) (termIndex : nat), _).
  unfold mbind, Builder_bind.
  destruct (mapWithIndex f (likeTerms value) 0%nat e) as [[texts e1]|] eqn:Hrun; [|done].
  intros [= <- <-].
  assert ("_l" ∈ likeSuffixes ∧ "_u" ∈ likeSuffixes ∧ "_o" ∈ likeSuffixes)
    as (Hl & Hu & Ho).
  { unfold likeSuffixes. rewrite !elem_of_cons. repeat split; auto. }
  destruct (mapWithIndex_keeps f
              (λ j key, ∃ suffix, suffix ∈ likeSuffixes ∧ key = likeKey index j suffix)
              (λ j term e0,
                 valueOf e0 (likeKey index j "_l")
                 = Some (toDynamoDBValue (JStr (toLowerCase term)))
                 ∧ valueOf e0 (likeKey index j "_u")
                   = Some (toDynamoDBValue (JStr (toUpperCase term)))
                 ∧ valueOf e0 (likeKey index j "_o") = Some (toDynamoDBValue (JStr term)))
              (likeTerms value) 0%nat e texts e1) as (Hk & _ & Hall); [| |exact Hrun|].
  - intros term j e0 y e0' Hstep. subst f. cbv beta zeta in Hstep.
    fold (likeKey index j "_l") (likeKey index j "_u") (likeKey index j "_o") in Hstep.
    unfold mbind, Builder_bind in Hstep.
    destruct (setAttributeValue (likeKey index j "_l") _ e0) as [[[] e2]|] eqn:Hset1;
      [|done].
    destruct (setAttributeValue (likeKey index j "_u") _ e2) as [[[] e3]|] eqn:Hset2;
      [|done].
    destruct (setAttributeValue (likeKey index j "_o") _ e3) as [[[] e4]|] eqn:Hset3;
      [|done].
    injection Hstep as <- <-.
    destruct (setAttributeValue_keeps _ _ _ _ _ Hset1) as [Hk1 Hv1].
    destruct (setAttributeValue_keeps _ _ _ _ _ Hset2) as [Hk2 Hv2].
    destruct (setAttributeValue_keeps _ _ _ _ _ Hset3) as [Hk3 Hv3].
    destruct (likeKeys_distinct index j) as (Hlu & Hlo & Huo).
    split.
    + eapply keeps_trans; [|eapply keeps_trans].
      * eapply keeps_weaken; [|exact Hk1]. intros key <-. by exists "_l".
      * eapply keeps_weaken; [|exact Hk2]. intros key <-. by exists "_u".
      * eapply keeps_weaken; [|exact Hk3]. intros key <-. by exists "_o".
    + split; [|split; [|done]].
      * eapply keeps_value; [exact Hk3|congruence|].
        eapply keeps_value; [exact Hk2|congruence|done].
      * eapply keeps_value; [exact Hk3|congruence|done].
  - intros j term e0 e0' (Hv1 & Hv2 & Hv3) Hk.
    assert (∀ suffix, suffix ∈ likeSuffixes →
              ¬ (∃ j', j' ≠ j ∧ ∃ suffix', suffix' ∈ likeSuffixes
                   ∧ likeKey index j suffix = likeKey index j' suffix')) as Hother.
    { intros suffix Hs (j' & Hne & suffix' & Hs' & Heq).
      by apply likeKey_inj in Heq as [? _]. }
    repeat split; (eapply keeps_value; [exact Hk|by apply Hother|done]).
  - split; [|exact Hall]. eapply keeps_weaken; [|exact Hk].
    intros key (j & _ & suffix & Hs & ->). by exists j, suffix.
Qed.

Lemma buildSubExpression_keeps (f : IFilterQuery) (index : nat) e s e' :
  buildSubExpression f.(field) f.(operator) f.(value) index e = Ok (s, e') →
  keeps (ownedBy index) e e' ∧ standsFor index f e'.
Proof.
  unfold buildSubExpression, standsFor. cbv zeta.
  unfold mbind at 1, Builder_bind at 1.
  destruct (mapWithIndex _ (split "." f.(field)) 0%nat e) as [[units e1]|] eqn:Hnames;
    [|done].
  destruct (names_keeps index _ e units e1 Hnames) as [Hk1 Hbound].
  assert (keeps (ownedBy index) e e1) as Hk1'.
  { eapply keeps_weaken; [|exact Hk1]. intros key [j ->]. apply nameKey_owned. }
  destruct (String.eqb f.(operator) "like" || String.eqb f.(operator) "not like").
  { intros Hrun. destruct (buildLikeExpression_keeps _ _ _ _ _ _ _ Hrun) as [Hk2 Hv].
    split; [|split; [|done]].
    - eapply keeps_trans; [exact Hk1'|]. eapply keeps_weaken; [|exact Hk2].
      intros key (j & suffix & _ & ->). apply likeKey_owned.
    - intros j part Hpart. eapply keeps_name; [exact Hk2| |by apply Hbound].
      intros (j' & suffix & _ & Heq). by apply nameKey_not_value in Heq. }
  destruct (String.eqb f.(operator) "in" || String.eqb f.(operator) "not in").
  { intros Hrun. destruct (buildInExpression_keeps _ _ _ _ _ _ _ Hrun) as [Hk2 Hv].
    split; [|split; [|done]].
    - eapply keeps_trans; [exact Hk1'|]. eapply keeps_weaken; [|exact Hk2].
      intros key (j & ->). apply inKey_owned.
    - intros j part Hpart. eapply keeps_name; [exact Hk2| |by apply Hbound].
      intros (j' & Heq). by apply nameKey_not_value in Heq. }
  intros Hrun. destruct (buildBasicExpression_keeps _ _ _ _ _ _ _ Hrun) as [Hk2 Hv].
  split; [|split; [|done]].
  - eapply keeps_trans; [exact Hk1'|]. eapply keeps_weaken; [|exact Hk2].
    intros key <-. apply basicKey_owned.
  - intros j part Hpart. eapply keeps_name; [exact Hk2| |by apply Hbound].
    intros Heq. symmetry in Heq. by apply nameKey_not_value in Heq.
Qed.

Lemma standsFor_keeps (index : nat) (f : IFilterQuery) e e' :
  standsFor index f e → keeps (λ key, ¬ ownedBy index key) e e' → standsFor index f e'.
Proof.
  intros [Hnames Hvalues] Hk. split.
  - intros j part Hpart. eapply keeps_name; [exact Hk| |by apply Hnames].
    intros Hnot. apply Hnot, nameKey_owned.
  - destruct (String.eqb f.(operator) "like" || String.eqb f.(operator) "not like").
    { intros j term Hterm. destruct (Hvalues j term Hterm) as (Hv1 & Hv2 & Hv3).
      repeat split;
        (eapply keeps_value; [exact Hk|intros Hnot; apply Hnot, likeKey_owned|done]). }
    destruct (String.eqb f.(operator) "in" || String.eqb f.(operator) "not in").
    { intros j v Hv. eapply keeps_value; [exact Hk| |by apply Hvalues].
      intros Hnot. apply Hnot, inKey_owned. }
    eapply keeps_value; [exact Hk| |exact Hvalues].
    intros Hnot. apply Hnot, basicKey_owned.
Qed.

Lemma addFilterExpressions_keeps (filters : list IFilterQuery) e e' :
  addFilterExpressions filters e = Ok (tt, e') →
  keeps (λ key, ∃ i, ownedBy i key) e e'
  ∧ ∀ i f, filters !! i = Some f → standsFor i f e'.
Proof.
  unfold addFilterExpressions.
  set (step := λ (filter : IFilterQuery) (i : nat), _).
  unfold mbind, Builder_bind.
  destruct (mapWithIndex step filters 0%nat e) as [[subs e1]|] eqn:Hrun; [|done].
  intros [= <-].
  destruct (mapWithIndex_keeps step ownedBy standsFor filters 0%nat e subs e1)
    as (Hk & _ & Hall); [| |exact Hrun|].
  - intros f i e0 y e0' Hstep. by apply (buildSubExpression_keeps f i e0 y e0').
  - intros i f e0 e0' Hstands Hk. eapply standsFor_keeps; [exact Hstands|].
    eapply keeps_weaken; [|exact Hk]. intros key (j & Hne & Hj) Hi.
    by pose proof (ownedBy_index _ _ _ Hi Hj).
  - set (e2 := {| KeyConditionExpression := _ |}).
    assert (keeps (λ _, False) e1 e2) as Hk2 by (by split).
    split.
    + eapply keeps_trans; [|eapply keeps_weaken; [|exact Hk2]; done].
      eapply keeps_weaken; [|exact Hk]. intros key (i & _ & Hi). by exists i.
    + intros i f Hf. eapply standsFor_keeps; [by apply Hall|].
      eapply keeps_weaken; [|exact Hk2]. done.
Qed.

End Bindings.

Section BuiltExpression.
Context `{Platform}.
Variable pkName : string.

Lemma buildFilterExpression_run (filters : list IFilterQuery) expr :
  buildFilterExpression pkName filters = Ok expr →
  keeps (λ key, ∃ i, ownedBy i key)
        (afterPartitionKey (extractPartitionKeyFilter pkName filters).1) expr
  ∧ ∀ i f, (extractPartitionKeyFilter pkName filters).2 !! i = Some f →
           standsFor i f expr.
Proof.
  unfold buildFilterExpression.
  destruct filters as [|x r] eqn:Hfilters.
  { intros [= <-]. split; [by split|]. intros i f Hf. by cbn in Hf. }
  rewrite <- Hfilters. clear x r Hfilters.
  unfold mbind at 1, Result_bind at 1.
  destruct (forEachR _ filters) as [[]|]; [|done].
  destruct (extractPartitionKeyFilter pkName filters) as [pkFilter remaining].
  cbn [fst snd].
  assert (match pkFilter with
          | Some pk =>
              addPartitionKeyExpression pk
                {| KeyConditionExpression := None; FilterExpression := None;
                   ExpressionAttributeNames := Some ∅;
                   ExpressionAttributeValues := Some ∅ |}
          | None =>
              Ok (tt, {| KeyConditionExpression := None; FilterExpression := None;
                         ExpressionAttributeNames := Some ∅;
                         ExpressionAttributeValues := Some ∅ |})
          end = Ok (tt, afterPartitionKey pkFilter)) as -> by (by destruct pkFilter).
  unfold mbind, Result_bind.
  destruct remaining as [|x r] eqn:Hremaining.
  { intros [= <-]. split; [apply keeps_refl|]. intros i f Hf.
    by rewrite lookup_nil in Hf. }
  rewrite <- Hremaining. clear x r Hremaining.
  destruct (addFilterExpressions remaining _) as [[[] e2]|] eqn:Hrun; [|done].
  intros [= <-]. by apply addFilterExpressions_keeps.
Qed.

(** X9. In the expression that [buildFilterExpression] returns, the [j]-th
    name placeholder of the remaining predicate at index [i] stands for the
    [j]-th segment of that predicate's field name: no later predicate
    overwrites it. *)
Theorem placeholder_names_resolve (filters : list IFilterQuery)
    (expr : DynamoDBFilterExpression) (i j : nat) (f : IFilterQuery) (part : string) :
  buildFilterExpression pkName filters = Ok expr →
  (extractPartitionKeyFilter pkName filters).2 !! i = Some f →
  split "." f.(field) !! j = Some part →
  nameOf expr (nameKey i j) = Some part.
Proof.
  intros Hrun Hf Hpart.
  destruct (buildFilterExpression_run filters expr Hrun) as [_ Hall].
  destruct (Hall i f Hf) as [Hnames _]. by apply Hnames.
Qed.

(** X10. In the expression that [buildFilterExpression] returns, the value
    placeholders of the remaining predicate at index [i] stand for its
    value: for [like] and [not like], the three placeholders of the [j]-th
    search term for the term in lower case, in upper case and as it is; for
    [in] and [not in], the [j]-th placeholder for the [j]-th alternative, an
    array giving its elements and any other value itself; for every other
    operator, the one placeholder for the value. *)
Theorem placeholder_values_resolve (filters : list IFilterQuery)
    (expr : DynamoDBFilterExpression) (i : nat) (f : IFilterQuery) :
  buildFilterExpression pkName filters = Ok expr →
  (extractPartitionKeyFilter pkName filters).2 !! i = Some f →
  (f.(operator) ∈ ["like"; "not like"] →
   ∀ j term, likeTerms f.(value) !! j = Some term →
     valueOf expr (likeKey i j "_l") = Some (toDynamoDBValue (JStr (toLowerCase term)))
     ∧ valueOf expr (likeKey i j "_u") = Some (toDynamoDBValue (JStr (toUpperCase term)))
     ∧ valueOf expr (likeKey i j "_o") = Some (toDynamoDBValue (JStr term)))
  ∧ (f.(operator) ∈ ["in"; "not in"] →
     ∀ j v, inValues f.(value) !! j = Some v →
       valueOf expr (inKey i j) = Some (toDynamoDBValue v))
  ∧ (f.(operator) ∉ ["like"; "not like"; "in"; "not in"] →
     valueOf expr (":val" +:+ indexToString i) = Some (toDynamoDBValue f.(value))).
Proof.
  intros Hrun Hf.
  destruct (buildFilterExpression_run filters expr Hrun) as [_ Hall].
  destruct (Hall i f Hf) as [_ Hvalues].
  rewrite !not_elem_of_cons, !elem_of_cons, !elem_of_nil.
  destruct (String.eqb_spec f.(operator) "like") as [Hop|Hlike].
  { rewrite Hop in *. simpl in Hvalues. split; [done|]. split.
    - by intros [[=]|[[=]|[]]].
    - by intros [? _]. }
  destruct (String.eqb_spec f.(operator) "not like") as [Hop|Hnotlike].
  { rewrite Hop in *. simpl in Hvalues. split; [done|]. split.
    - by intros [[=]|[[=]|[]]].
    - by intros (_ & ? & _). }
  destruct (String.eqb_spec f.(operator) "in") as [Hop|Hin].
  { rewrite Hop in *. simpl in Hvalues. split; [by intros [[=]|[[=]|[]]]|]. split.
    - done.
    - by intros (_ & _ & ? & _). }
  destruct (String.eqb_spec f.(operator) "not in") as [Hop|Hnotin].
  { rewrite Hop in *. simpl in Hvalues. split; [by intros [[=]|[[=]|[]]]|]. split.
    - done.
    - by intros (_ & _ & _ & ? & _). }
  simpl in Hvalues. split; [by intros [?|[?|[]]]|]. split; [by intros [?|[?|[]]]|done].
Qed.

(** X11. The expression that [buildFilterExpression] returns has the key
    condition [#pk = :pkVal] exactly when a predicate tests the partition
    key with [=]; [#pk] then stands for the partition key's name and
    [:pkVal] for the value of the first such predicate. Apart from these two
    the maps hold only placeholders generated for the remaining
    predicates. *)
Theorem partition_key_binding (filters : list IFilterQuery)
    (expr : DynamoDBFilterExpression) :
  buildFilterExpression pkName filters = Ok expr →
  match (extractPartitionKeyFilter pkName filters).1 with
  | Some pk =>
      pk ∈ filters ∧ pk.(field) = pkName ∧ pk.(operator) = "="
      ∧ expr.(KeyConditionExpression) = Some "#pk = :pkVal"
      ∧ nameOf expr "#pk" = Some pkName
      ∧ valueOf expr ":pkVal" = Some (toDynamoDBValue pk.(value))
  | None =>
      Forall (λ f, ¬ (f.(field) = pkName ∧ f.(operator) = "=")) filters
      ∧ expr.(KeyConditionExpression) = None
      ∧ nameOf expr "#pk" = None
      ∧ valueOf expr ":pkVal" = None
  end
  ∧ ∀ key, (∀ i, ¬ ownedBy i key) →
      (key ≠ "#pk" → nameOf expr key = None)
      ∧ (key ≠ ":pkVal" → valueOf expr key = None).
Proof.
  intros Hrun.
  destruct (buildFilterExpression_run filters expr Hrun) as [[Hkey Hkeeps] _].
  assert (∀ key, (key = "#pk" ∨ key = ":pkVal") → ¬ ∃ i, ownedBy i key) as Hpk.
  { intros key Hkey' [i Hi]. destruct (pk_not_owned i).
    by destruct Hkey' as [-> | ->]. }
  destruct (Hkeeps "#pk" (Hpk _ (or_introl eq_refl))) as [Hname _].
  destruct (Hkeeps ":pkVal" (Hpk _ (or_intror eq_refl))) as [_ Hvalue].
  split.
  - destruct (extractPartitionKeyFilter_cases pkName filters)
      as [[Hnone Hcase]|(before & pk & after & Hsplit & _ & [Hfield Hop] & Hcase)];
      rewrite Hcase in *; cbn [fst afterPartitionKey] in *.
    + by rewrite Hkey, Hname, Hvalue.
    + rewrite Hkey, Hname, Hvalue. unfold nameOf, valueOf. simpl.
      rewrite !lookup_insert_eq, Hfield. repeat split; try done.
      rewrite Hsplit, elem_of_app, elem_of_cons. auto.
  - intros key Hnot.
    destruct (Hkeeps key) as [Hn Hv]; [by intros [i Hi]; apply (Hnot i)|].
    rewrite Hn, Hv. unfold nameOf, valueOf.
    destruct ((extractPartitionKeyFilter pkName filters).1) as [pk|]; simpl.
    + split; intros Hne; by rewrite lookup_insert_ne.
    + by rewrite !lookup_empty.
Qed.

End BuiltExpression.

(** The second segment of [address.city], the predicate at index 1 once the
    partition-key predicate is taken out. *)
Lemma placeholder_names_resolve_witness :
  ∃ expr, @buildFilterExpression examplePlatform "id" threeFilters = Ok expr
          ∧ nameOf expr (nameKey 1 1) = Some "city".
Proof.
  eexists. split; [vm_compute; reflexivity|].
  apply (@placeholder_names_resolve examplePlatform "id" threeFilters _ 1 1
           {| field := "address.city"; operator := "in";
              value := JArr [JStr "Oslo"; JStr "Rome"] |});
    vm_compute; reflexivity.
Defined.

Lemma placeholder_values_resolve_witness :
  ∃ expr, @buildFilterExpression examplePlatform "id" threeFilters = Ok expr
          ∧ valueOf expr (inKey 1 1) = Some (toDynamoDBValue (JStr "Rome")).
Proof.
  eexists. split; [vm_compute; reflexivity|].
  refine (proj1 (proj2 (@placeholder_values_resolve examplePlatform "id" threeFilters
                          _ 1
                          {| field := "address.city"; operator := "in";
                             value := JArr [JStr "Oslo"; JStr "Rome"] |} _ _))
            _ 1%nat (JStr "Rome") _).
  - vm_compute; reflexivity.
  - vm_compute; reflexivity.
  - apply list_elem_of_here.
  - reflexivity.
Defined.

Lemma partition_key_binding_witness :
  ∃ expr, @buildFilterExpression examplePlatform "id" threeFilters = Ok expr
          ∧ nameOf expr "#pk" = Some "id"
          ∧ valueOf expr ":pkVal" = Some (toDynamoDBValue (JStr "1")).
Proof.
  eexists. split; [vm_compute; reflexivity|].
  match goal with
  | |- nameOf ?expr _ = _ ∧ _ =>
      assert (@buildFilterExpression examplePlatform "id" threeFilters = Ok expr)
        as Hrun by (vm_compute; reflexivity);
      pose proof (proj1 (@partition_key_binding examplePlatform "id" threeFilters
                           expr Hrun)) as Hpk
  end.
  exact (proj2 (proj2 (proj2 (proj2 Hpk)))).
Defined.

(** ** When the builder returns and what it throws *)

Lemma validateFieldName_throws (fieldName : string) (e : JsError) :
  validateFieldName fieldName = Throw e → instanceofDynamoValidationError e = true.
Proof.
  unfold validateFieldName.
  destruct (String.eqb fieldName ""); [by intros [= <-]|].
  destruct (existsb _ UNSAFE_PATTERNS); [by intros [= <-]|].
  destruct (MAX_FIELD_DEPTH <? _)%Z; [by intros [= <-]|].
  intros He. apply forEachR_Throw in He as (part & _ & Hpart).
  destruct (MAX_FIELD_LENGTH <? strLen part)%Z; [by injection Hpart as <-|].
  destruct (negb (VALID_FIELD_REGEX_test part)); [by injection Hpart as <-|done].
Qed.

Lemma mapsPresent_afterPartitionKey (pkFilter : option IFilterQuery) :
  mapsPresent (afterPartitionKey pkFilter)
  ∧ (afterPartitionKey pkFilter).(FilterExpression) = None.
Proof. destruct pkFilter; (split; [split; simpl; eauto|done]). Qed.

Section BuilderOutcome.
Context `{Platform}.
Variable pkName : string.

Lemma buildFilterExpression_eq (filters : list IFilterQuery) :
  buildFilterExpression pkName filters
  = match filters with
    | [] => Ok emptyExpression
    | _ =>
        forEachR (λ filter : IFilterQuery,
                    validateFieldName filter.(field);; validateValue filter.(value))
                 filters;;
        '(_, expr) ← match (extractPartitionKeyFilter pkName filters).2 with
                     | [] => Ok (tt, afterPartitionKey
                                       (extractPartitionKeyFilter pkName filters).1)
                     | _ => addFilterExpressions
                              (extractPartitionKeyFilter pkName filters).2
                              (afterPartitionKey
                                 (extractPartitionKeyFilter pkName filters).1)
                     end;
        Ok expr
    end.
Proof.
  unfold buildFilterExpression.
  destruct filters as [|x r] eqn:Hfilters; [done|].
  rewrite <- Hfilters. clear x r Hfilters.
  unfold mbind at 1 4, Result_bind at 1 4.
  destruct (forEachR _ filters) as [[]|]; [|done].
  destruct (extractPartitionKeyFilter pkName filters) as [[pk|] remaining];
    reflexivity.
Qed.

Lemma validated_each (filters : list IFilterQuery) :
  forEachR (λ filter : IFilterQuery,
              validateFieldName filter.(field);; validateValue filter.(value))
           filters = Ok tt
  ↔ Forall (λ f : IFilterQuery,
              validateFieldName f.(field) = Ok tt ∧ validateValue f.(value) = Ok tt)
           filters.
Proof.
  rewrite forEachR_Ok. apply Forall_proper; [|done]. intros f.
  unfold mbind, Result_bind.
  destruct (validateFieldName f.(field)) as [[]|]; [|by split; [|intros [? _]]].
  by split; [|intros [_ ?]].
Qed.

Lemma known_or_not (remaining : list IFilterQuery) :
  Forall (λ f : IFilterQuery, is_Some (operatorMap_get f.(operator))) remaining
  ∨ ∃ f, f ∈ remaining ∧ operatorMap_get f.(operator) = None.
Proof.
  induction remaining as [|f r [IH|(g & Hg & Hnone)]].
  - left. constructor.
  - destruct (operatorMap_get f.(operator)) as [d|] eqn:Hop.
    + left. constructor; [by eexists|done].
    + right. exists f. split; [apply list_elem_of_here|done].
  - right. exists g. split; [by apply list_elem_of_further|done].
Qed.

Lemma buildFilterExpression_outcome (filters : list IFilterQuery) :
  ((∃ expr, buildFilterExpression pkName filters = Ok expr) ↔
   Forall (λ f : IFilterQuery,
             validateFieldName f.(field) = Ok tt ∧ validateValue f.(value) = Ok tt)
          filters
   ∧ Forall (λ f : IFilterQuery, is_Some (operatorMap_get f.(operator)))
            (extractPartitionKeyFilter pkName filters).2)
  ∧ ∀ e, buildFilterExpression pkName filters = Throw e →
         instanceofDynamoValidationError e = true
         ∨ e = TypeError "Cannot convert undefined or null to object".
Proof.
  rewrite buildFilterExpression_eq.
  destruct filters as [|x r] eqn:Hfilters.
  { split; [|done]. split; [by split; constructor|by eexists]. }
  rewrite <- Hfilters. clear x r Hfilters.
  rewrite <- validated_each.
  set (pkFilter := (extractPartitionKeyFilter pkName filters).1).
  set (remaining := (extractPartitionKeyFilter pkName filters).2).
  destruct (mapsPresent_afterPartitionKey pkFilter) as [Hp Hnone].
  unfold mbind at 1 3, Result_bind at 1 3.
  destruct (forEachR _ filters) as [[]|e0] eqn:Hvalid.
  2:{ split; [split; [by intros [? ?]|by intros [? _]]|].
      intros e [= <-]. apply forEachR_Throw in Hvalid as (f & _ & Hf).
      unfold mbind, Result_bind in Hf.
      destruct (validateFieldName f.(field)) as [[]|e1] eqn:Hfield.
      - apply validateValue_thrown in Hf. unfold validateValueErrors in Hf.
        rewrite !elem_of_cons, elem_of_nil in Hf.
        destruct Hf as [-> | [-> | [-> | [-> | []]]]]; auto.
      - injection Hf as <-. left. by eapply validateFieldName_throws. }
  destruct (known_or_not remaining) as [Hknown|(f & Hf & Hunknown)].
  - destruct (remaining_settled remaining _ Hp Hnone Hknown) as (e2 & _ & -> & _).
    split; [|done]. split; [done|by eexists].
  - destruct (addFilterExpressions_unsupported remaining _ f Hp Hf Hunknown)
      as (g & Hg & Hgnone & Hthrow).
    assert (¬ Forall (λ f : IFilterQuery, is_Some (operatorMap_get f.(operator)))
              remaining) as Hnot.
    { intros Hall. rewrite Forall_forall in Hall. destruct (Hall f Hf). congruence. }
    destruct remaining as [|x r] eqn:Hrem; [by apply elem_of_nil in Hf|].
    rewrite <- Hrem in *. rewrite Hthrow. unfold mbind, Result_bind.
    split; [split; [by intros [? ?]|by intros [_ ?]]|].
    intros e [= <-]. by left.
Qed.

(** X12. [buildFilterExpression] returns an expression exactly when every
    predicate passes [validateFieldName] and [validateValue] and, apart from
    the predicate taken for the key condition, every operator is one the
    builder finds in its table. When it throws, the exception is a
    [DynamoValidationError] or the [TypeError] of a [null] or [undefined]
    value. *)
Theorem buildFilterExpression_returns_iff (filters : list IFilterQuery) :
  ((∃ expr, buildFilterExpression pkName filters = Ok expr) ↔
   Forall (λ f : IFilterQuery,
             validateFieldName f.(field) = Ok tt ∧ validateValue f.(value) = Ok tt)
          filters
   ∧ Forall (λ f : IFilterQuery, is_Some (operatorMap_get f.(operator)))
            (extractPartitionKeyFilter pkName filters).2)
  ∧ ∀ e, buildFilterExpression pkName filters = Throw e →
         instanceofDynamoValidationError e = true
         ∨ e = TypeError "Cannot convert undefined or null to object".
Proof. exact (buildFilterExpression_outcome filters). Qed.

End BuilderOutcome.

(** ** The texts of the expression *)

Lemma append_nonempty_l (a b : string) : a ≠ "" → a +:+ b ≠ "".
Proof. destruct a; [done|]. by rewrite append_cons. Qed.

Lemma append_nonempty_r (a b : string) : b ≠ "" → a +:+ b ≠ "".
Proof.
  intros Hb. destruct a; [by rewrite append_nil_l|]. by rewrite append_cons.
Qed.

Lemma join_nonempty (sep : string) (parts : list string) :
  parts ≠ [] → Forall (λ part, part ≠ "") parts → join sep parts ≠ "".
Proof.
  intros Hne Hparts. destruct Hparts as [|x r Hx Hr]; [done|].
  destruct r; [done|]. by apply append_nonempty_l.
Qed.

Lemma mapWithIndex_outputs {A B} (P : B → Prop) (f : A → nat → Builder B)
    l start e ys e' :
  (∀ x i e0 y e0', f x i e0 = Ok (y, e0') → P y) →
  mapWithIndex f l start e = Ok (ys, e') →
  Forall P ys ∧ length ys = length l.
Proof.
  intros Hf. revert start e ys.
  induction l as [|x r IH]; intros start e ys Hrun; simpl in Hrun.
  - by injection Hrun as <- <-.
  - unfold mbind, Builder_bind in Hrun.
    destruct (f x start e) as [[y e1]|] eqn:Hx; [|done].
    fold (@mapWithIndex A B) in Hrun.
    destruct (mapWithIndex f r (S start) e1) as [[ys' e2]|] eqn:Hr; [|done].
    injection Hrun as <- <-. destruct (IH _ _ _ Hr) as [Hall Hlen].
    split; [|simpl; by rewrite Hlen]. constructor; [by eapply Hf|done].
Qed.

Section ExpressionTexts.
Context `{Platform}.

Lemma buildSubExpression_nonempty fieldName operator value index e s e' :
  buildSubExpression fieldName operator value index e = Ok (s, e') → s ≠ "".
Proof.
  unfold buildSubExpression. cbv zeta. unfold mbind at 1, Builder_bind at 1.
  destruct (mapWithIndex _ (split "." fieldName) 0%nat e) as [[units e1]|]; [|done].
  set (path := join "." _).
  destruct (String.eqb operator "like" || String.eqb operator "not like").
  { unfold buildLikeExpression. cbv zeta.
    destruct (List.filter _ _) as [|t0 ts] eqn:Hterms.
    { intros [= <- <-]. by destruct (String.eqb operator "not like"). }
    rewrite <- Hterms.
    set (f := λ (term : string) (termIndex : nat), _).
    unfold mbind, Builder_bind.
    destruct (mapWithIndex f _ 0%nat e1) as [[texts e2]|] eqn:Hrun; [|done].
    intros [= <- <-].
    assert (∀ x i e0 y e0', f x i e0 = Ok (y, e0') → y ≠ "") as Hstep.
    { intros term i e0 y e0' Hy. subst f. cbv beta zeta in Hy.
      unfold mbind, Builder_bind in Hy.
      destruct (setAttributeValue _ _ e0) as [[[] e3]|]; [|done].
      destruct (setAttributeValue _ _ e3) as [[[] e4]|]; [|done].
      destruct (setAttributeValue _ _ e4) as [[[] e5]|]; [|done].
      injection Hy as <- <-. by destruct (String.eqb operator "not like"). }
    destruct (mapWithIndex_outputs (λ y, y ≠ "") f _ _ _ _ _ Hstep Hrun)
      as [Hall Hlen].
    destruct (String.eqb operator "not like"); [|done].
    apply join_nonempty; [|done]. rewrite Hterms in Hlen. by destruct texts. }
  destruct (String.eqb operator "in" || String.eqb operator "not in").
  { unfold buildInExpression. cbv zeta. unfold mbind, Builder_bind.
    destruct (mapWithIndex _ _ 0%nat e1) as [[checks e2]|]; [|done].
    intros [= <- <-]. by destruct (String.eqb operator "not in"). }
  unfold buildBasicExpression. cbv zeta. unfold mbind, Builder_bind.
  destruct (setAttributeValue _ _ e1) as [[[] e2]|]; [|done].
  destruct (operatorMap_get operator) as [dynOp|]; [|done].
  destruct (String.eqb dynOp ""); [done|].
  intros [= <- <-]. by apply append_nonempty_r.
Qed.

End ExpressionTexts.


Lemma sortKey_not_owned (index : nat) : ¬ ownedBy index "#sortKey".
Proof.
  intros (rest & [Hk|Hk] & _);
    rewrite !append_cons, ?append_nil_l in Hk; by simplify_eq.
Qed.

Section BuiltTexts.
Context `{Platform}.

Lemma addFilterExpressions_text (filters : list IFilterQuery) e e' :
  filters ≠ [] →
  addFilterExpressions filters e = Ok (tt, e') →
  truthy e'.(FilterExpression) = true.
Proof.
  intros Hne. unfold addFilterExpressions.
  set (step := λ (filter : IFilterQuery) (i : nat), _).
  unfold mbind, Builder_bind.
  destruct (mapWithIndex step filters 0%nat e) as [[subs e1]|] eqn:Hrun; [|done].
  intros [= <-]. simpl.
  assert (∀ x i e0 y e0', step x i e0 = Ok (y, e0') → y ≠ "") as Hstep.
  { intros x i e0 y e0' Hy. by eapply buildSubExpression_nonempty. }
  destruct (mapWithIndex_outputs (λ y, y ≠ "") step _ _ _ _ _ Hstep Hrun)
    as [Hall Hlen].
  apply negb_true_iff, String.eqb_neq, join_nonempty; [|done].
  destruct subs; [|done]. by destruct filters.
Qed.

Lemma addFilterExpressions_owned (filters : list IFilterQuery) e e' :
  mapsPresent e →
  addFilterExpressions filters e = Ok (tt, e') →
  ∀ key, key ∈ placeholders (default "" e'.(FilterExpression)) → ∃ i, ownedBy i key.
Proof.
  intros Hp Hrun key Hkey.
  destruct (addFilterExpressions_settled filters e e' Hp Hrun)
    as (subs & Hfilter & _ & _ & Hall).
  rewrite Hfilter in Hkey. simpl in Hkey.
  rewrite placeholders_join in Hkey by reflexivity.
  apply list_elem_of_In, in_concat in Hkey as (ps & Hps & Hkey).
  apply in_map_iff in Hps as (s & <- & Hs).
  apply list_elem_of_In, list_elem_of_lookup in Hs as [i Hi]. exists i.
  pose proof (Hall i s Hi) as Hsettled. unfold settled in Hsettled.
  rewrite Forall_forall in Hsettled.
  apply list_elem_of_In in Hkey. by destruct (Hsettled key Hkey).
Qed.

Variable pkName : string.

(** The two texts of a built expression: the key condition is there exactly
    when a predicate was taken for it, the filter expression is not empty
    when it is there, and it refers to generated placeholders only. *)
Lemma buildFilterExpression_texts (filters : list IFilterQuery) expr :
  buildFilterExpression pkName filters = Ok expr →
  expr.(KeyConditionExpression)
  = match (extractPartitionKeyFilter pkName filters).1 with
    | Some _ => Some "#pk = :pkVal"
    | None => None
    end
  ∧ (expr.(FilterExpression) = None ∨ truthy expr.(FilterExpression) = true)
  ∧ ∀ key, key ∈ placeholders (default "" expr.(FilterExpression)) →
           ∃ i, ownedBy i key.
Proof.
  intros Hrun.
  destruct (buildFilterExpression_run pkName filters expr Hrun) as [[Hkey _] _].
  split; [rewrite Hkey; by destruct ((extractPartitionKeyFilter pkName filters).1)|].
  rewrite buildFilterExpression_eq in Hrun.
  destruct filters as [|x r] eqn:Hfilters.
  { injection Hrun as <-. split; [by left|]. intros key Hk. by apply elem_of_nil in Hk. }
  rewrite <- Hfilters in *. clear x r Hfilters.
  unfold mbind at 1, Result_bind at 1 in Hrun.
  destruct (forEachR _ filters) as [[]|]; [|done].
  destruct (mapsPresent_afterPartitionKey (extractPartitionKeyFilter pkName filters).1)
    as [Hp Hnone].
  destruct ((extractPartitionKeyFilter pkName filters).2) as [|x r] eqn:Hrem.
  { injection Hrun as <-. rewrite Hnone. split; [by left|].
    intros key Hk. by apply elem_of_nil in Hk. }
  rewrite <- Hrem in *.
  unfold mbind, Result_bind in Hrun.
  destruct (addFilterExpressions _ _) as [[[] e2]|] eqn:Hadd; [|done].
  injection Hrun as <-. split.
  - right. eapply addFilterExpressions_text; [|exact Hadd]. by rewrite Hrem.
  - by eapply addFilterExpressions_owned.
Qed.

End BuiltTexts.

(** ** The parameters of the command *)

Lemma buildQueryParams_throws tableName expr pagination e :
  buildQueryParams tableName expr pagination = Throw e →
  instanceofDynamoValidationError e = true.
Proof.
  unfold buildQueryParams. cbv zeta. unfold mbind at 1, Result_bind at 1.
  destruct (truthy expr.(KeyConditionExpression)); [|done].
  destruct pagination as [p|]; [|done].
  destruct (truthy p.(sortBy)); [|done].
  unfold mbind, Result_bind.
  destruct (validateFieldName _) as [[]|e'] eqn:Hfield; [done|].
  intros [= <-]. by eapply validateFieldName_throws.
Qed.

Lemma buildQueryParams_returns tableName expr pagination params :
  buildQueryParams tableName expr pagination = Ok params →
  params.(CommandInput.TableName) = tableName
  ∧ params.(CommandInput.KeyConditionExpression)
    = (if truthy expr.(KeyConditionExpression)
       then expr.(KeyConditionExpression) else None)
  ∧ params.(CommandInput.FilterExpression)
    = (if truthy expr.(FilterExpression) then expr.(FilterExpression) else None)
  ∧ params.(CommandInput.ExpressionAttributeValues) = expr.(ExpressionAttributeValues)
  ∧ ∀ key, key ≠ "#sortKey" →
      default ∅ params.(CommandInput.ExpressionAttributeNames) !! key = nameOf expr key.
Proof.
  unfold buildQueryParams, nameOf. cbv zeta. unfold mbind at 1, Result_bind at 1.
  assert (∀ (names : gmap string string) s key, key ≠ "#sortKey" →
            spread (Some (<["#sortKey" := s]> ∅)) (Some names) !! key = names !! key)
    as Hspread.
  { intros names s key Hne. unfold spread. simpl.
    apply lookup_union_l. by rewrite lookup_insert_ne. }
  assert (∀ (names : gmap string string), spread None (Some names) = names)
    as Hspread'.
  { intros names. unfold spread. simpl. apply (right_id _ _). }
  destruct (truthy expr.(KeyConditionExpression)).
  - destruct pagination as [p|].
    + destruct (truthy p.(sortBy)).
      * unfold mbind, Result_bind.
        destruct (validateFieldName _) as [[]|]; [|done].
        intros [= <-]. simpl. repeat split; try done.
        { by destruct (ExpressionAttributeValues expr). }
        intros key Hne. destruct (ExpressionAttributeNames expr); simpl.
        -- by apply Hspread.
        -- by rewrite lookup_insert_ne, lookup_empty.
      * intros [= <-]. simpl. repeat split; try done.
        { by destruct (ExpressionAttributeValues expr). }
        intros key Hne. destruct (ExpressionAttributeNames expr); simpl; [|done].
        by rewrite Hspread'.
    + intros [= <-]. simpl. repeat split; try done.
      { by destruct (ExpressionAttributeValues expr). }
      intros key Hne. destruct (ExpressionAttributeNames expr); simpl; [|done].
      by rewrite Hspread'.
  - intros [= <-]. simpl. repeat split; try done.
    { by destruct (ExpressionAttributeValues expr). }
    intros key Hne. destruct (ExpressionAttributeNames expr); simpl; [|done].
    by rewrite Hspread'.
Qed.


Section Commands.
Context `{Platform}.
Variables (tableName pkName : string).

Lemma SortingService_prepare_cases (query : IGenericFilterQuery) :
  let p := default emptyPagination query.(pagination) in
  let filters := default [] query.(filters) in
  match SortingService.prepareQueryParameters tableName pkName query with
  | Throw e =>
      validatePagination p = Throw e
      ∨ (Qeq_bool (calculatePaginationValues p).1 0 = false
         ∧ (buildFilterExpression pkName filters = Throw e
            ∨ ∃ expr, buildFilterExpression pkName filters = Ok expr
                      ∧ buildQueryParams tableName expr (Some p) = Throw e))
  | Ok (params, _, _, p') =>
      p' = p
      ∧ validatePagination p = Ok tt
      ∧ if Qeq_bool (calculatePaginationValues p).1 0
        then params = CommandInput.ofTable tableName
        else ∃ expr, buildFilterExpression pkName filters = Ok expr
                     ∧ buildQueryParams tableName expr (Some p) = Ok params
  end.
Proof.
  intros p filters. unfold SortingService.prepareQueryParameters. cbv zeta.
  fold p filters. unfold mbind at 1, Result_bind at 1.
  destruct (validatePagination p) as [[]|e]; [|by left].
  destruct (calculatePaginationValues p) as [lim off]. cbn [fst].
  destruct (Qeq_bool lim 0); [done|].
  unfold mbind, Result_bind.
  destruct (buildFilterExpression pkName filters) as [expr|e]; [|by right; split; [|left]].
  destruct (buildQueryParams tableName expr (Some p)) as [params|e] eqn:Hparams.
  - split; [done|]. split; [done|]. by exists expr.
  - right. split; [done|]. right. by exists expr.
Qed.

Lemma PlainService_prepare_cases (query : IGenericFilterQuery) :
  let p := default emptyPagination query.(pagination) in
  let filters := default [] query.(filters) in
  match PlainService.prepareQueryParameters tableName pkName query with
  | Throw e =>
      validatePagination p = Throw e
      ∨ (Qeq_bool (calculatePaginationValues p).1 0 = false
         ∧ (buildFilterExpression pkName filters = Throw e
            ∨ ∃ expr, buildFilterExpression pkName filters = Ok expr
                      ∧ buildQueryParams tableName expr None = Throw e))
  | Ok (params, _, _) =>
      validatePagination p = Ok tt
      ∧ if Qeq_bool (calculatePaginationValues p).1 0
        then params = CommandInput.ofTable tableName
        else ∃ expr, buildFilterExpression pkName filters = Ok expr
                     ∧ buildQueryParams tableName expr None = Ok params
  end.
Proof.
  intros p filters. unfold PlainService.prepareQueryParameters. cbv zeta.
  fold p filters. unfold mbind at 1, Result_bind at 1.
  destruct (validatePagination p) as [[]|e]; [|by left].
  destruct (calculatePaginationValues p) as [lim off]. cbn [fst].
  destruct (Qeq_bool lim 0); [done|].
  unfold mbind, Result_bind.
  destruct (buildFilterExpression pkName filters) as [expr|e]; [|by right; split; [|left]].
  destruct (buildQueryParams tableName expr None) as [params|e] eqn:Hparams.
  - split; [done|]. by exists expr.
  - right. split; [done|]. right. by exists expr.
Qed.

(** What the parameters built from a built expression are. *)
Lemma built_params (filters : list IFilterQuery) expr pagination params :
  buildFilterExpression pkName filters = Ok expr →
  buildQueryParams tableName expr pagination = Ok params →
  ((∃ input, commandFor params = QueryCommand input)
   ↔ ∃ f, f ∈ filters ∧ f.(field) = pkName ∧ f.(operator) = "=")
  ∧ params.(CommandInput.TableName) = tableName
  ∧ params.(CommandInput.KeyConditionExpression) = expr.(KeyConditionExpression)
  ∧ params.(CommandInput.FilterExpression) = expr.(FilterExpression)
  ∧ params.(CommandInput.ExpressionAttributeValues) = expr.(ExpressionAttributeValues)
  ∧ ∀ key, key ≠ "#sortKey" →
      default ∅ params.(CommandInput.ExpressionAttributeNames) !! key = nameOf expr key.
Proof.
  intros Hexpr Hparams.
  destruct (buildFilterExpression_texts pkName filters expr Hexpr)
    as (Hkey & Hfilter & _).
  destruct (buildQueryParams_returns _ _ _ _ Hparams)
    as (Htable & Hk & Hf & Hvalues & Hnames).
  assert (params.(CommandInput.KeyConditionExpression) = expr.(KeyConditionExpression))
    as Hk'.
  { rewrite Hk, Hkey. by destruct ((extractPartitionKeyFilter pkName filters).1). }
  assert (params.(CommandInput.FilterExpression) = expr.(FilterExpression)) as Hf'.
  { rewrite Hf. by destruct Hfilter as [-> | ->]. }
  split; [|done].
  unfold commandFor, hasKeyCondition. rewrite Hk', Hkey.
  destruct (extractPartitionKeyFilter_cases pkName filters)
    as [[Hnone ->]|(before & pk & after & Hsplit & _ & [Hfield Hop] & ->)];
    cbn [fst].
  - split; [by intros [? ?]|]. intros (f & Hf'' & Hq).
    rewrite Forall_forall in Hnone. by destruct (Hnone f Hf'').
  - split; [|by eexists]. intros _. exists pk. split; [|done].
    rewrite Hsplit, elem_of_app, elem_of_cons. auto.
Qed.

(** X13. A call of either executor that asks for a limit other than 0 and
    reaches the store sends one command built from the expression of
    [buildFilterExpression]: the table name, the key condition, the filter
    expression and the value placeholders are those of the expression, and
    so is every name placeholder other than [#sortKey]. The command is a
    query exactly when a predicate tests the partition key with [=], and a
    scan otherwise. With a limit of 0 the command is a scan of the table
    without any condition. *)
Theorem sent_command_carries_expression (query : IGenericFilterQuery)
    (dynamoDBClient : Client) (run : FetchRun) (command : Command) :
  run ∈ [SortingService.fetchWithFiltersAndPagination tableName pkName query
           dynamoDBClient;
         PlainService.fetchWithFiltersAndPagination tableName pkName query
           dynamoDBClient] →
  run.(sent) = [command] →
  let filters := default [] query.(filters) in
  if Qeq_bool (calculatePaginationValues
                 (default emptyPagination query.(pagination))).1 0
  then command = ScanCommand (CommandInput.ofTable tableName)
  else
    ∃ expr params,
      buildFilterExpression pkName filters = Ok expr
      ∧ command = commandFor params
      ∧ ((∃ input, command = QueryCommand input)
         ↔ ∃ f, f ∈ filters ∧ f.(field) = pkName ∧ f.(operator) = "=")
      ∧ params.(CommandInput.TableName) = tableName
      ∧ params.(CommandInput.KeyConditionExpression) = expr.(KeyConditionExpression)
      ∧ params.(CommandInput.FilterExpression) = expr.(FilterExpression)
      ∧ params.(CommandInput.ExpressionAttributeValues)
        = expr.(ExpressionAttributeValues)
      ∧ ∀ key, key ≠ "#sortKey" →
          default ∅ params.(CommandInput.ExpressionAttributeNames) !! key
          = nameOf expr key.
Proof.
  rewrite !elem_of_cons, elem_of_nil. intros [-> | [-> | []]] Hsent filters.
  - unfold SortingService.fetchWithFiltersAndPagination in Hsent.
    pose proof (SortingService_prepare_cases query) as Hprep. cbv zeta in Hprep.
    destruct (SortingService.prepareQueryParameters _ _ _)
      as [[[[params lim] off] p]|e]; [|done].
    destruct Hprep as (_ & _ & Hprep).
    assert (command = commandFor params) as ->.
    { pose proof (executeQuery_sent params dynamoDBClient p) as Hfst.
      destruct (SortingService.executeQuery params dynamoDBClient p)
        as [commands [items|e]]; simpl in Hfst, Hsent; rewrite Hfst in Hsent;
        by injection Hsent as <-. }
    destruct (Qeq_bool _ 0); [by rewrite Hprep|].
    destruct Hprep as (expr & Hexpr & Hparams).
    exists expr, params. split; [done|]. split; [done|].
    by eapply built_params.
  - unfold PlainService.fetchWithFiltersAndPagination in Hsent.
    pose proof (PlainService_prepare_cases query) as Hprep. cbv zeta in Hprep.
    destruct (PlainService.prepareQueryParameters _ _ _)
      as [[[params lim] off]|e]; [|done].
    destruct Hprep as (_ & Hprep).
    assert (command = commandFor params) as ->.
    { unfold PlainService.executeQuery in Hsent. cbv zeta in Hsent.
      destruct (_ ≫= _) in Hsent; by injection Hsent as <-. }
    destruct (Qeq_bool _ 0); [by rewrite Hprep|].
    destruct Hprep as (expr & Hexpr & Hparams).
    exists expr, params. split; [done|]. split; [done|].
    by eapply built_params.
Qed.

(** X14. When a call of either executor fails, the exception is written to
    the error log once and rethrown as it is. Either nothing was sent, and
    the exception is a [DynamoValidationError] or the [TypeError] of a
    [null] or [undefined] value; or one command was sent, and the exception
    is the one the store answered with or, in the executor that sorts, the
    one the codec threw at the member that an item without the [sortBy]
    attribute inherits under that name. *)
Theorem failed_call (query : IGenericFilterQuery) (dynamoDBClient : Client)
    (run : FetchRun) (e : JsError) :
  run ∈ [SortingService.fetchWithFiltersAndPagination tableName pkName query
           dynamoDBClient;
         PlainService.fetchWithFiltersAndPagination tableName pkName query
           dynamoDBClient] →
  run.(outcome) = Throw e →
  run.(errorLog) = [handleError e]
  ∧ ((run.(sent) = []
      ∧ (instanceofDynamoValidationError e = true
         ∨ e = TypeError "Cannot convert undefined or null to object"))
     ∨ ∃ command,
         run.(sent) = [command]
         ∧ (dynamoDBClient command = Throw e
            ∨ ∃ response item sortKey,
                run = SortingService.fetchWithFiltersAndPagination tableName pkName
                        query dynamoDBClient
                ∧ dynamoDBClient command = Ok response
                ∧ (default emptyPagination query.(pagination)).(sortBy) = Some sortKey
                ∧ item ∈ default [] response.(Items)
                ∧ item !! sortKey = None
                ∧ is_Some (assoc sortKey Object_prototype)
                ∧ fromDynamoDBValue_member sortKey = Throw e)).
Proof.
  assert (∀ p filters e0,
            validatePagination p = Throw e0
            ∨ (Qeq_bool (calculatePaginationValues p).1 0 = false
               ∧ (buildFilterExpression pkName filters = Throw e0
                  ∨ ∃ expr pg, buildFilterExpression pkName filters = Ok expr
                               ∧ buildQueryParams tableName expr pg = Throw e0)) →
            instanceofDynamoValidationError e0 = true
            ∨ e0 = TypeError "Cannot convert undefined or null to object") as Hkind.
  { intros p filters e0 [Hp|[_ [Hb|(expr & pg & _ & Hq)]]].
    - left. by apply (proj2 (validatePagination_cases p)).
    - by apply (proj2 (buildFilterExpression_outcome pkName filters)).
    - left. by eapply buildQueryParams_throws. }
  rewrite !elem_of_cons, elem_of_nil. intros [-> | [-> | []]].
  - pose proof (SortingService_fetch_run tableName pkName query dynamoDBClient) as Hrun.
    pose proof (SortingService_prepare_cases query) as Hprep.
    cbv zeta in Hrun, Hprep. revert Hrun Hprep.
    destruct (SortingService.prepareQueryParameters _ _ _)
      as [[[[params lim] off] p]|e0].
    + intros Hrun (-> & _ & _).
      pose proof (executeQuery_outcome params dynamoDBClient
                    (default emptyPagination query.(pagination))) as Hout.
      revert Hrun Hout.
      destruct (SortingService.executeQuery params dynamoDBClient _).2
        as [ordered|e0]; intros Hrun Hout; rewrite Hrun;
        cbn [outcome sent errorLog]; [done|].
      intros [= <-]. split; [done|]. right. exists (commandFor params).
      split; [done|].
      destruct Hout as [Hthrow|(response & item & Hsend & Htruthy & Hitem & Hthrow)];
        [by left|].
      right.
      destruct (sortBy (default emptyPagination query.(pagination)))
        as [sortKey|] eqn:Hsort; [|done].
      change (default "" (Some sortKey)) with sortKey in Hthrow.
      destruct (sortValue_cases sortKey item)
        as [(? & _ & Hv)|[(Hnone & Hsome & Hv)|(_ & _ & Hv)]];
        rewrite Hv in Hthrow; try done.
      by exists response, item, sortKey.
    + intros Hrun Hprep. rewrite Hrun. cbn [outcome sent errorLog].
      intros [= <-]. split; [done|]. left.
      split; [done|]. eapply Hkind.
      destruct Hprep as [?|[? [?|(expr & ? & ?)]]]; [by left|by right; split; [|left]|].
      right. split; [done|]. right. by eexists _, _.
  - unfold PlainService.fetchWithFiltersAndPagination.
    pose proof (PlainService_prepare_cases query) as Hprep. cbv zeta in Hprep.
    destruct (PlainService.prepareQueryParameters _ _ _)
      as [[[params lim] off]|e0].
    + unfold PlainService.executeQuery. cbv zeta.
      destruct (dynamoDBClient (commandFor params)) as [response|e0] eqn:Hsend.
      * done.
      * unfold mbind, Result_bind. cbn [outcome sent errorLog].
        intros [= <-]. split; [done|]. right. exists (commandFor params).
        split; [done|]. by left.
    + cbn [outcome sent errorLog]. intros [= <-]. split; [done|]. left.
      split; [done|]. eapply Hkind.
      destruct Hprep as [?|[? [?|(expr & ? & ?)]]]; [by left|by right; split; [|left]|].
      right. split; [done|]. right. by eexists _, _.
Qed.

End Commands.


(** ** The sort key *)

Section SortKey.
Context `{Platform}.
Variables (tableName pkName : string).

(** X15. [buildQueryParams] looks at [sortBy] only when the expression has
    a key condition. Without one, a [sortBy] that [validateFieldName] would
    reject passes unnoticed and the parameters are those of a call without
    pagination. With one, a rejected [sortBy] is thrown; an accepted one
    sets [ScanIndexForward], true unless the direction is [desc], and
    enters the name placeholders as [#sortKey], to which neither the key
    condition nor the filter expression refers. *)
Theorem sortBy_only_with_key_condition (filters : list IFilterQuery)
    (expr : DynamoDBFilterExpression) (p : IPaginationQuery) (s : string) :
  buildFilterExpression pkName filters = Ok expr →
  p.(sortBy) = Some s →
  s ≠ "" →
  match (extractPartitionKeyFilter pkName filters).1 with
  | None =>
      buildQueryParams tableName expr (Some p) = buildQueryParams tableName expr None
  | Some _ =>
      match validateFieldName s with
      | Throw e => buildQueryParams tableName expr (Some p) = Throw e
      | Ok _ =>
          ∃ params,
            buildQueryParams tableName expr (Some p) = Ok params
            ∧ params.(CommandInput.ScanIndexForward)
              = Some (negb (bool_decide (p.(sortDirection) = Some "desc")))
            ∧ default ∅ params.(CommandInput.ExpressionAttributeNames) !! "#sortKey"
              = Some s
            ∧ ("#sortKey" ∉ placeholders
                              (default "" params.(CommandInput.KeyConditionExpression)))
            ∧ ("#sortKey" ∉ placeholders
                              (default "" params.(CommandInput.FilterExpression)))
      end
  end.
Proof.
  intros Hexpr Hsort Hne.
  destruct (buildFilterExpression_texts pkName filters expr Hexpr)
    as (Hkey & Hfilter & Howned).
  destruct (buildFilterExpression_run pkName filters expr Hexpr) as [[_ Hkeeps] _].
  destruct (Hkeeps "#sortKey") as [Hname _].
  { intros [i Hi]. by apply sortKey_not_owned in Hi. }
  assert (truthy p.(sortBy) = true) as Htruthy.
  { rewrite Hsort. simpl. by apply negb_true_iff, String.eqb_neq. }
  destruct ((extractPartitionKeyFilter pkName filters).1) as [pk|].
  - unfold buildQueryParams. cbv zeta. unfold mbind at 1, Result_bind at 1.
    rewrite Hkey. cbn [truthy String.eqb negb]. rewrite Htruthy, Hsort.
    cbn [default id]. unfold mbind at 1, Result_bind at 1.
    destruct (validateFieldName s) as [[]|e]; [|done].
    eexists. split; [reflexivity|]. cbn. split; [done|].
    assert (expr.(FilterExpression) = None
            ∨ ∃ t, expr.(FilterExpression) = Some t ∧ String.eqb t "" = false)
      as [Hf|(t & Hf & Ht)].
    { destruct Hfilter as [?|Ht]; [by left|]. right.
      destruct (FilterExpression expr) as [t|]; [|done].
      exists t. split; [done|]. by apply negb_true_iff. }
    + rewrite Hf. cbn. split; [|split; [|apply not_elem_of_nil]].
      * unfold nameOf, afterPartitionKey in Hname. cbn in Hname.
        rewrite lookup_insert_ne, lookup_empty in Hname by done.
        destruct (ExpressionAttributeNames expr) as [names|]; cbn.
        -- unfold spread. cbn. rewrite lookup_union_r by done.
           by rewrite lookup_insert_eq.
        -- by rewrite lookup_insert_eq.
      * rewrite !not_elem_of_cons. repeat split; try done. apply not_elem_of_nil.
    + rewrite Hf. cbn. rewrite Ht. cbn. split; [|split].
      * unfold nameOf, afterPartitionKey in Hname. cbn in Hname.
        rewrite lookup_insert_ne, lookup_empty in Hname by done.
        destruct (ExpressionAttributeNames expr) as [names|]; cbn.
        -- unfold spread. cbn. rewrite lookup_union_r by done.
           by rewrite lookup_insert_eq.
        -- by rewrite lookup_insert_eq.
      * rewrite !not_elem_of_cons. repeat split; try done. apply not_elem_of_nil.
      * intros Hin. rewrite Hf in Howned. destruct (Howned _ Hin) as [i Hi].
        by apply sortKey_not_owned in Hi.
  - unfold buildQueryParams. cbv zeta. unfold mbind at 1 3, Result_bind at 1 3.
    by rewrite Hkey.
Qed.

End SortKey.

Lemma sortBy_only_with_key_condition_witness :
  ∃ params,
    @buildQueryParams "People"
      {| KeyConditionExpression := Some "#pk = :pkVal"; FilterExpression := None;
         ExpressionAttributeNames := Some (<["#pk" := "id"]> ∅);
         ExpressionAttributeValues := Some (<[":pkVal" := toDynamoDBValue (JStr "1")]> ∅) |}
      (Some (paginationOf None None None (Some "age") None)) = Ok params
    ∧ default ∅ params.(CommandInput.ExpressionAttributeNames) !! "#sortKey" = Some "age".
Proof.
  pose proof (@sortBy_only_with_key_condition examplePlatform "People" "id"
                [{| field := "id"; operator := "="; value := JStr "1" |}]
                _ (paginationOf None None None (Some "age") None) "age"
                eq_refl eq_refl ltac:(done)) as Hsort.
  cbn in Hsort. destruct Hsort as (params & Hparams & _ & Hname & _).
  exists params. by split.
Defined.


(** ** Field paths *)

Lemma split_nonempty (sep : ascii) (s : string) : split sep s ≠ [].
Proof.
  destruct s as [|c r]; [done|]. simpl.
  destruct (Ascii.eqb c sep); [done|]. by destruct (split sep r).
Qed.

Lemma join_split (sep : ascii) (s : string) :
  join (String sep "") (split sep s) = s.
Proof.
  induction s as [|c r IH]; [done|]. simpl.
  pose proof (split_nonempty sep r) as Hne.
  destruct (Ascii.eqb_spec c sep) as [->|_].
  - destruct (split sep r) as [|x xs]; [done|].
    change (join (String sep "") ("" :: x :: xs))
      with ("" +:+ String sep "" +:+ join (String sep "") (x :: xs)).
    by rewrite IH.
  - destruct (split sep r) as [|x xs]; [done|]. destruct xs as [|y ys].
    + simpl in *. by rewrite IH.
    + change (join (String sep "") (String c x :: y :: ys))
        with (String c x +:+ String sep "" +:+ join (String sep "") (y :: ys)).
      rewrite append_cons. f_equal. exact IH.
Qed.

Section FieldPaths.
Context `{Platform}.
Variable pkName : string.

(** X16. In the expression that [buildFilterExpression] returns, the path
    of the remaining predicate at index [i] is one name placeholder for each
    segment of the field name; reading the names these placeholders stand
    for and joining them with dots gives back the field name. *)
Theorem path_resolves_to_field (filters : list IFilterQuery)
    (expr : DynamoDBFilterExpression) (i : nat) (f : IFilterQuery) :
  buildFilterExpression pkName filters = Ok expr →
  (extractPartitionKeyFilter pkName filters).2 !! i = Some f →
  join "." <$> mapM (nameOf expr)
                 (imap (λ (j : nat) (_ : string), nameKey i j) (split "." f.(field)))
  = Some f.(field).
Proof.
  intros Hrun Hf.
  destruct (buildFilterExpression_run pkName filters expr Hrun) as [_ Hall].
  destruct (Hall i f Hf) as [Hnames _].
  assert (mapM (nameOf expr)
            (imap (λ (j : nat) (_ : string), nameKey i j) (split "." f.(field)))
          = Some (split "." f.(field))) as ->.
  { apply mapM_Some. apply Forall2_same_length_lookup. split.
    - by rewrite length_imap.
    - intros j key part Hkey Hpart. rewrite list_lookup_imap, Hpart in Hkey.
      injection Hkey as <-. by apply Hnames. }
  simpl. by rewrite join_split.
Qed.

End FieldPaths.

(** ** A search for nothing *)

Lemma isWhiteSpace_charToLower (c : ascii) :
  isWhiteSpace (charToLower c) = isWhiteSpace c.
Proof. by destruct c as [[] [] [] [] [] [] [] []]. Qed.

Lemma allChars_isWhiteSpace_toLowerCase (s : string) :
  allChars isWhiteSpace (toLowerCase s) = allChars isWhiteSpace s.
Proof.
  unfold toLowerCase. induction s as [|c r IH]; [done|]. simpl.
  by rewrite isWhiteSpace_charToLower, IH.
Qed.

Lemma splitWhiteSpaceFrom_blank (inGap : bool) (s : string) :
  allChars isWhiteSpace s = true →
  Forall (λ term, term = "") (splitWhiteSpaceFrom inGap s).
Proof.
  revert inGap. induction s as [|c r IH]; intros inGap; simpl.
  - intros _. by constructor.
  - rewrite andb_true_iff. intros [-> Hr].
    destruct inGap; [by apply IH|]. constructor; [done|by apply IH].
Qed.

Lemma filter_blank (terms : list string) :
  Forall (λ term, term = "") terms →
  List.filter (λ term, (0 <? String.length term)%nat) terms = [].
Proof. induction 1 as [|x r -> _ IH]; [done|]. simpl. exact IH. Qed.

Section BlankSearch.
Context `{Platform}.

(** X17. A [like] predicate whose search text is empty or all white space
    compiles to [attribute_not_exists(path)], and a [not like] one to
    [attribute_exists(path)]; no value placeholder is written for it. *)
Theorem blank_like_tests_existence (path : string) (value : JsValue) (index : nat)
    (isNot : bool) (expr : DynamoDBFilterExpression) :
  allChars isWhiteSpace (ToString value) = true →
  buildLikeExpression path value index isNot expr
  = Ok (if isNot then "attribute_exists(" +:+ path +:+ ")"
        else "attribute_not_exists(" +:+ path +:+ ")", expr).
Proof.
  intros Hblank. unfold buildLikeExpression. cbv zeta.
  rewrite filter_blank; [done|].
  apply splitWhiteSpaceFrom_blank. by rewrite allChars_isWhiteSpace_toLowerCase.
Qed.

End BlankSearch.

Lemma blank_like_tests_existence_witness :
  @buildLikeExpression examplePlatform "#key0_0" (JStr "  ") 0 false emptyExpression
  = Ok ("attribute_not_exists(#key0_0)", emptyExpression).
Proof.
  exact (@blank_like_tests_existence examplePlatform "#key0_0" (JStr "  ") 0 false
           emptyExpression eq_refl).
Defined.


(** ** Examples of calls *)

Lemma path_resolves_to_field_witness :
  ∃ expr, @buildFilterExpression examplePlatform "id" threeFilters = Ok expr
          ∧ join "." <$> mapM (nameOf expr)
                           (imap (λ (j : nat) (_ : string), nameKey 1 j)
                                 (split "." "address.city"))
            = Some "address.city".
Proof.
  eexists. split; [vm_compute; reflexivity|].
  apply (@path_resolves_to_field examplePlatform "id" threeFilters _ 1
           {| field := "address.city"; operator := "in";
              value := JArr [JStr "Oslo"; JStr "Rome"] |});
    vm_compute; reflexivity.
Defined.

(** A scan with a filter expression, which the example store does not
    interpret. *)
Lemma sent_command_carries_expression_witness :
  ∃ command expr params,
    (@SortingService.fetchWithFiltersAndPagination examplePlatform "People" "id"
       annQuery (wholeTableStore people)).(sent) = [command]
    ∧ @buildFilterExpression examplePlatform "id" (default [] annQuery.(filters))
      = Ok expr
    ∧ command = commandFor params
    ∧ params.(CommandInput.FilterExpression) = expr.(FilterExpression).
Proof.
  assert (∃ command,
            (@SortingService.fetchWithFiltersAndPagination examplePlatform "People" "id"
               annQuery (wholeTableStore people)).(sent) = [command])
    as [command Hsent] by (eexists; vm_compute; reflexivity).
  pose proof (@sent_command_carries_expression examplePlatform "People" "id" annQuery
                (wholeTableStore people) _ command (list_elem_of_here _ _) Hsent)
    as Hcommand.
  cbv zeta in Hcommand.
  destruct (Qeq_bool _ 0) eqn:Hzero in Hcommand; [by vm_compute in Hzero|].
  destruct Hcommand as (expr & params & Hexpr & Hcmd & _ & _ & _ & Hfilter & _).
  by exists command, expr, params.
Defined.

Lemma failed_call_witness :
  (@SortingService.fetchWithFiltersAndPagination examplePlatform "People" "id"
     annQuery (wholeTableStore people)).(errorLog)
  = [handleError (StoreError "expression not interpreted")].
Proof.
  refine (proj1 (@failed_call examplePlatform "People" "id" annQuery
                   (wholeTableStore people) _ _ (list_elem_of_here _ _) _)).
  vm_compute; reflexivity.
Defined.

(** ** The page of a call *)

Lemma prepared_window (items : list Item) (p : IPaginationQuery) (lim off : Q) :
  validatePagination p = Ok tt →
  (lim, off) = calculatePaginationValues p
  ∨ (Qeq_bool (calculatePaginationValues p).1 0 = true ∧ lim = 0%Q ∧ off = 0%Q) →
  processResults items lim off
  = List.map mapDynamoDBItemToType
      (take (Z.to_nat (Qfloor (calculatePaginationValues p).1))
            (drop (Z.to_nat (Qfloor (calculatePaginationValues p).2)) items)).
Proof.
  intros Hvalid Hprepared.
  destruct (validatePagination_offset p Hvalid) as (K & HK & Hoff).
  rewrite (Qfloor_comp _ _ Hoff), Qfloor_Z.
  rewrite calculatePaginationValues_eq in Hprepared, Hoff |- *. cbn [fst snd] in *.
  rewrite Qfloor_Z.
  destruct Hprepared as [[= -> ->]|(Hzero & -> & ->)].
  - apply processResults_slice; [reflexivity|done|unfold specLimit; lia|done].
  - apply Qeq_bool_iff in Hzero.
    assert (specLimit p = 0) as -> by (by apply inject_Z_injective).
    done.
Qed.

Section ReturnedPage.
Context `{Platform}.
Variables (tableName pkName : string).

Lemma SortingService_prepared_values (query : IGenericFilterQuery) params lim off p' :
  SortingService.prepareQueryParameters tableName pkName query
  = Ok (params, lim, off, p') →
  let p := default emptyPagination query.(pagination) in
  p' = p
  ∧ validatePagination p = Ok tt
  ∧ ((lim, off) = calculatePaginationValues p
     ∨ (Qeq_bool (calculatePaginationValues p).1 0 = true ∧ lim = 0%Q ∧ off = 0%Q)).
Proof.
  unfold SortingService.prepareQueryParameters. cbv zeta.
  unfold mbind at 1, Result_bind at 1.
  destruct (validatePagination _) as [[]|]; [|done].
  destruct (calculatePaginationValues _) as [l o]. cbn [fst].
  destruct (Qeq_bool l 0).
  { intros [= <- <- <- <-]. split; [done|]. split; [done|]. by right. }
  unfold mbind, Result_bind.
  destruct (buildFilterExpression _ _); [|done].
  destruct (buildQueryParams _ _ _); [|done].
  intros [= <- <- <- <-]. split; [done|]. split; [done|]. by left.
Qed.

Lemma PlainService_prepared_values (query : IGenericFilterQuery) params lim off :
  PlainService.prepareQueryParameters tableName pkName query
  = Ok (params, lim, off) →
  let p := default emptyPagination query.(pagination) in
  validatePagination p = Ok tt
  ∧ ((lim, off) = calculatePaginationValues p
     ∨ (Qeq_bool (calculatePaginationValues p).1 0 = true ∧ lim = 0%Q ∧ off = 0%Q)).
Proof.
  unfold PlainService.prepareQueryParameters. cbv zeta.
  unfold mbind at 1, Result_bind at 1.
  destruct (validatePagination _) as [[]|]; [|done].
  destruct (calculatePaginationValues _) as [l o]. cbn [fst].
  destruct (Qeq_bool l 0).
  { intros [= <- <- <-]. split; [done|]. by right. }
  unfold mbind, Result_bind.
  destruct (buildFilterExpression _ _); [|done].
  destruct (buildQueryParams _ _ _); [|done].
  intros [= <- <- <-]. split; [done|]. by left.
Qed.

(** X18. What a call of the sorting executor returns is determined by the
    one answer of the store and by what [sort] makes of it: [total] is the
    number of items in the answer, and [data] is the decoded window of
    [limit] items from [offset] on, as [calculatePaginationValues] gives
    them, of the answer's items, which are first rearranged by [sort] with
    the comparison of [sortBy] when a [sortBy] is given. The window is taken
    after the sort, and of the items of this one answer only. *)
Theorem SortingService_returned_page (query : IGenericFilterQuery)
    (dynamoDBClient : Client) (returned : Page) :
  (SortingService.fetchWithFiltersAndPagination tableName pkName query
     dynamoDBClient).(outcome) = Ok returned →
  let p := default emptyPagination query.(pagination) in
  ∃ command response ordered,
    (SortingService.fetchWithFiltersAndPagination tableName pkName query
       dynamoDBClient).(sent) = [command]
    ∧ dynamoDBClient command = Ok response
    ∧ let items := default [] response.(Items) in
      (if truthy p.(sortBy) then
         Array_sort (SortingService.compareItems (default "" p.(sortBy))
                       (negb (bool_decide (p.(sortDirection) = Some "desc"))))
                    items
         = Ok ordered
       else ordered = items)
      ∧ ordered ≡ₚ items
      ∧ returned
        = {| data := List.map mapDynamoDBItemToType
                       (take (Z.to_nat (Qfloor (calculatePaginationValues p).1))
                             (drop (Z.to_nat (Qfloor (calculatePaginationValues p).2))
                                   ordered));
             total := length items |}.
Proof.
  pose proof (SortingService_fetch_run tableName pkName query dynamoDBClient) as Hrun.
  cbv zeta in Hrun. revert Hrun.
  destruct (SortingService.prepareQueryParameters _ _ _)
    as [[[[params lim] off] p']|e] eqn:Hprep; [|by intros ->].
  destruct (SortingService_prepared_values _ _ _ _ _ Hprep) as (-> & Hvalid & Hvalues).
  pose proof (executeQuery_outcome params dynamoDBClient
                (default emptyPagination query.(pagination))) as Hout.
  revert Hout.
  destruct (SortingService.executeQuery params dynamoDBClient _).2 as [ordered|e];
    intros Hout ->; cbn [outcome sent]; [|done].
  intros [= <-]. destruct Hout as (response & Hsend & Hsorted & Hperm).
  exists (commandFor params), response, ordered.
  split; [done|]. split; [done|]. cbv zeta. split; [done|]. split; [done|].
  rewrite (Permutation_length Hperm). f_equal. by apply prepared_window.
Qed.

(** X19. What a call of the executor without the sort returns is determined
    by the one answer of the store: [total] is the number of items in the
    answer, and [data] is the decoded window of [limit] items from [offset]
    on, as [calculatePaginationValues] gives them, of the answer's items in
    the order of the answer, whatever [sortBy] is. *)
Theorem PlainService_returned_page (query : IGenericFilterQuery)
    (dynamoDBClient : Client) (returned : Page) :
  (PlainService.fetchWithFiltersAndPagination tableName pkName query
     dynamoDBClient).(outcome) = Ok returned →
  let p := default emptyPagination query.(pagination) in
  ∃ command response,
    (PlainService.fetchWithFiltersAndPagination tableName pkName query
       dynamoDBClient).(sent) = [command]
    ∧ dynamoDBClient command = Ok response
    ∧ let items := default [] response.(Items) in
      returned
      = {| data := List.map mapDynamoDBItemToType
                     (take (Z.to_nat (Qfloor (calculatePaginationValues p).1))
                           (drop (Z.to_nat (Qfloor (calculatePaginationValues p).2))
                                 items));
           total := length items |}.
Proof.
  unfold PlainService.fetchWithFiltersAndPagination.
  destruct (PlainService.prepareQueryParameters _ _ _)
    as [[[params lim] off]|e] eqn:Hprep; [|done].
  destruct (PlainService_prepared_values _ _ _ _ Hprep) as (Hvalid & Hvalues).
  unfold PlainService.executeQuery. cbv zeta.
  destruct (dynamoDBClient (commandFor params)) as [response|e] eqn:Hsend; [|done].
  unfold mbind, Result_bind. cbn [outcome sent]. intros [= <-].
  exists (commandFor params), response. split; [done|]. split; [done|].
  cbv zeta. f_equal. by apply prepared_window.
Qed.

End ReturnedPage.

(** The second page of one person a page: by age it holds Cy, and in the
    order of the table Bob. *)
Lemma SortingService_returned_page_witness :
  (@SortingService.fetchWithFiltersAndPagination examplePlatform "People" "id"
     secondByAgeQuery (wholeTableStore people)).(outcome)
  = Ok {| data := List.map mapDynamoDBItemToType [person "Cy" 20]; total := 3 |}
  ∧ ∃ command response,
      (@SortingService.fetchWithFiltersAndPagination examplePlatform "People" "id"
         secondByAgeQuery (wholeTableStore people)).(sent) = [command]
      ∧ wholeTableStore people command = Ok response.
Proof.
  split; [vm_compute; reflexivity|].
  destruct (@SortingService_returned_page examplePlatform "People" "id"
              secondByAgeQuery (wholeTableStore people)
              {| data := List.map mapDynamoDBItemToType [person "Cy" 20]; total := 3 |})
    as (command & response & ordered & Hsent & Hanswer & _);
    [vm_compute; reflexivity|].
  by exists command, response.
Defined.

Lemma PlainService_returned_page_witness :
  (@PlainService.fetchWithFiltersAndPagination examplePlatform "People" "id"
     secondByAgeQuery (wholeTableStore people)).(outcome)
  = Ok {| data := List.map mapDynamoDBItemToType [person "Bob" 10]; total := 3 |}
  ∧ ∃ command response,
      (@PlainService.fetchWithFiltersAndPagination examplePlatform "People" "id"
         secondByAgeQuery (wholeTableStore people)).(sent) = [command]
      ∧ wholeTableStore people command = Ok response.
Proof.
  split; [vm_compute; reflexivity|].
  destruct (@PlainService_returned_page examplePlatform "People" "id"
              secondByAgeQuery (wholeTableStore people)
              {| data := List.map mapDynamoDBItemToType [person "Bob" 10]; total := 3 |})
    as (command & response & Hsent & Hanswer & _); [vm_compute; reflexivity|].
  by exists command, response.
Defined.

(** ** The attribute names that reach the store *)

Lemma mapWithIndex_invariant {A B} (I : DynamoDBFilterExpression → Prop)
    (f : A → nat → Builder B) l start e ys e' :
  (∀ x i e0 y e0', x ∈ l → I e0 → f x i e0 = Ok (y, e0') → I e0') →
  I e →
  mapWithIndex f l start e = Ok (ys, e') →
  I e'.
Proof.
  revert start e ys.
  induction l as [|x r IH]; intros start e ys Hf He Hrun; simpl in Hrun.
  - by injection Hrun as <- <-.
  - unfold mbind, Builder_bind in Hrun.
    destruct (f x start e) as [[y e1]|] eqn:Hx; [|done].
    fold (@mapWithIndex A B) in Hrun.
    destruct (mapWithIndex f r (S start) e1) as [[ys' e2]|] eqn:Hr; [|done].
    injection Hrun as <- <-.
    apply (IH (S start) e1 ys'); [|by eapply Hf; [apply list_elem_of_here|..]|done].
    intros z i e0 y0 e0' Hz. apply Hf. by apply list_elem_of_further.
Qed.

Lemma setAttributeName_names (Q : string → Prop) key name e u e' :
  Q name → namesSatisfy Q e →
  setAttributeName key name e = Ok (u, e') →
  namesSatisfy Q e'.
Proof.
  intros Hname He. unfold setAttributeName.
  destruct (ExpressionAttributeNames e) as [names|] eqn:Hnames; [|done].
  intros [= <- <-] k n. unfold nameOf. simpl.
  destruct (decide (key = k)) as [->|Hne].
  - rewrite lookup_insert_eq. by intros [= <-].
  - rewrite lookup_insert_ne by done. intros Hk. apply (He k n).
    unfold nameOf. by rewrite Hnames.
Qed.

Lemma setAttributeValue_names (Q : string → Prop) key attr e u e' :
  namesSatisfy Q e →
  setAttributeValue key attr e = Ok (u, e') →
  namesSatisfy Q e'.
Proof.
  intros He. unfold setAttributeValue.
  destruct (ExpressionAttributeValues e) as [values|]; [|done].
  by intros [= <- <-].
Qed.

Section NamesSent.
Context `{Platform}.

Lemma buildSubExpression_names (Q : string → Prop) (f : IFilterQuery) index e s e' :
  Forall Q (split "." f.(field)) →
  namesSatisfy Q e →
  buildSubExpression f.(field) f.(operator) f.(value) index e = Ok (s, e') →
  namesSatisfy Q e'.
Proof.
  intros Hparts He. unfold buildSubExpression. cbv zeta.
  unfold mbind at 1, Builder_bind at 1.
  destruct (mapWithIndex _ (split "." f.(field)) 0%nat e) as [[units e1]|] eqn:Hnames;
    [|done].
  assert (namesSatisfy Q e1) as He1.
  { eapply (mapWithIndex_invariant (namesSatisfy Q)); [|exact He|exact Hnames].
    intros part j e0 [] e0' Hpart He0 Hset. cbv beta in Hset.
    eapply setAttributeName_names; [|exact He0|exact Hset].
    rewrite Forall_forall in Hparts. by apply Hparts. }
  destruct (String.eqb f.(operator) "like" || String.eqb f.(operator) "not like").
  { unfold buildLikeExpression. cbv zeta.
    destruct (List.filter _ _) as [|t0 ts] eqn:Hterms; [by intros [= <- <-]|].
    rewrite <- Hterms. unfold mbind, Builder_bind.
    destruct (mapWithIndex _ _ 0%nat e1) as [[texts e2]|] eqn:Hrun; [|done].
    intros [= <- <-].
    eapply (mapWithIndex_invariant (namesSatisfy Q)); [|exact He1|exact Hrun].
    intros term j e0 y e0' _ He0 Hstep. cbv beta zeta in Hstep.
    unfold mbind, Builder_bind in Hstep.
    destruct (setAttributeValue _ _ e0) as [[[] e3]|] eqn:Hset1; [|done].
    destruct (setAttributeValue _ _ e3) as [[[] e4]|] eqn:Hset2; [|done].
    destruct (setAttributeValue _ _ e4) as [[[] e5]|] eqn:Hset3; [|done].
    injection Hstep as <- <-.
    eapply setAttributeValue_names; [|exact Hset3].
    eapply setAttributeValue_names; [|exact Hset2].
    by eapply setAttributeValue_names; [|exact Hset1]. }
  destruct (String.eqb f.(operator) "in" || String.eqb f.(operator) "not in").
  { unfold buildInExpression. cbv zeta. unfold mbind, Builder_bind.
    destruct (mapWithIndex _ _ 0%nat e1) as [[checks e2]|] eqn:Hrun; [|done].
    intros [= <- <-].
    eapply (mapWithIndex_invariant (namesSatisfy Q)); [|exact He1|exact Hrun].
    intros v j e0 y e0' _ He0 Hstep. cbv beta zeta in Hstep.
    unfold mbind, Builder_bind in Hstep.
    destruct (setAttributeValue _ _ e0) as [[[] e3]|] eqn:Hset; [|done].
    injection Hstep as <- <-. by eapply setAttributeValue_names; [|exact Hset]. }
  unfold buildBasicExpression. cbv zeta. unfold mbind, Builder_bind.
  destruct (setAttributeValue _ _ e1) as [[[] e2]|] eqn:Hset; [|done].
  destruct (operatorMap_get f.(operator)) as [dynOp|]; [|done].
  destruct (String.eqb dynOp ""); [done|].
  intros [= <- <-]. by eapply setAttributeValue_names; [|exact Hset].
Qed.

Lemma addFilterExpressions_names (Q : string → Prop) (filters : list IFilterQuery) e e' :
  Forall (λ f : IFilterQuery, Forall Q (split "." f.(field))) filters →
  namesSatisfy Q e →
  addFilterExpressions filters e = Ok (tt, e') →
  namesSatisfy Q e'.
Proof.
  intros Hfilters He. unfold addFilterExpressions. unfold mbind, Builder_bind.
  destruct (mapWithIndex _ filters 0%nat e) as [[subs e1]|] eqn:Hrun; [|done].
  intros [= <-].
  assert (namesSatisfy Q e1) as He1; [|exact He1].
  eapply (mapWithIndex_invariant (namesSatisfy Q)); [|exact He|exact Hrun].
  intros f i e0 y e0' Hf He0 Hstep. cbv beta in Hstep.
  eapply buildSubExpression_names; [|exact He0|exact Hstep].
  rewrite Forall_forall in Hfilters. by apply Hfilters.
Qed.

Variable pkName : string.

(** X20. Every attribute name in [ExpressionAttributeNames] of the
    expression that [buildFilterExpression] returns is the partition key's
    name or a segment of a validated field name: a letter followed by
    letters, digits and underscores, of at most 255 characters. No other
    text of a request becomes an attribute name. *)
Theorem bound_names_are_identifiers (filters : list IFilterQuery)
    (expr : DynamoDBFilterExpression) (key name : string) :
  buildFilterExpression pkName filters = Ok expr →
  nameOf expr key = Some name →
  name = pkName
  ∨ (VALID_FIELD_REGEX_test name = true ∧ (String.length name ≤ 255)%nat).
Proof.
  intros Hrun. revert key name.
  change (namesSatisfy
            (λ name, name = pkName
                     ∨ (VALID_FIELD_REGEX_test name = true
                        ∧ (String.length name ≤ 255)%nat)) expr).
  set (Q := λ name : string, _).
  pose proof (proj1 (proj1 (buildFilterExpression_outcome pkName filters))
                (ex_intro _ expr Hrun)) as [Hvalid _].
  assert (Forall (λ f : IFilterQuery, Forall Q (split "." f.(field))) filters) as Hfields.
  { eapply Forall_impl; [exact Hvalid|]. intros f [Hfield _]. cbv beta.
    unfold validateFieldName in Hfield.
    destruct (String.eqb f.(field) ""); [done|].
    destruct (existsb _ UNSAFE_PATTERNS); [done|].
    destruct (MAX_FIELD_DEPTH <? _)%Z; [done|].
    apply forEachR_Ok in Hfield.
    eapply Forall_impl; [exact Hfield|]. intros part Hpart. right.
    apply validateFieldName_part in Hpart as [? ?]. by split. }
  assert (namesSatisfy Q (afterPartitionKey (extractPartitionKeyFilter pkName filters).1))
    as Hstart.
  { destruct (extractPartitionKeyFilter_cases pkName filters)
      as [[_ ->]|(before & pk & after & _ & _ & [Hfield _] & ->)];
      cbn [fst afterPartitionKey]; intros k n; unfold nameOf; simpl.
    - by rewrite lookup_empty.
    - destruct (decide ("#pk" = k)) as [<-|Hne].
      + rewrite lookup_insert_eq. intros [= <-]. by left.
      + by rewrite lookup_insert_ne, lookup_empty. }
  assert (Forall (λ f : IFilterQuery, Forall Q (split "." f.(field)))
                 (extractPartitionKeyFilter pkName filters).2) as Hremaining.
  { destruct (extractPartitionKeyFilter_cases pkName filters)
      as [[_ ->]|(before & pk & after & Hsplit & _ & _ & ->)]; cbn [snd]; [done|].
    rewrite Hsplit in Hfields. apply Forall_app in Hfields as [Hb Ha].
    apply Forall_cons in Ha as [_ Ha]. by apply Forall_app. }
  rewrite buildFilterExpression_eq in Hrun.
  destruct filters as [|x r] eqn:Hfilters.
  { injection Hrun as <-. intros k n. unfold nameOf. simpl. by rewrite lookup_empty. }
  rewrite <- Hfilters in *. clear x r Hfilters.
  unfold mbind at 1, Result_bind at 1 in Hrun.
  destruct (forEachR _ filters) as [[]|]; [|done].
  destruct ((extractPartitionKeyFilter pkName filters).2) as [|x r] eqn:Hrem.
  { by injection Hrun as <-. }
  rewrite <- Hrem in *.
  unfold mbind, Result_bind in Hrun.
  destruct (addFilterExpressions _ _) as [[[] e2]|] eqn:Hadd; [|done].
  injection Hrun as <-. by eapply addFilterExpressions_names.
Qed.

End NamesSent.

Lemma bound_names_are_identifiers_witness :
  ∃ expr, @buildFilterExpression examplePlatform "id" threeFilters = Ok expr
          ∧ nameOf expr (nameKey 1 0) = Some "address"
          ∧ ("address" = "id"
             ∨ (VALID_FIELD_REGEX_test "address" = true
                ∧ (String.length "address" ≤ 255)%nat)).
Proof.
  eexists. split; [vm_compute; reflexivity|].
  match goal with
  | |- nameOf ?expr _ = _ ∧ _ =>
      assert (@buildFilterExpression examplePlatform "id" threeFilters = Ok expr)
        as Hrun by (vm_compute; reflexivity);
      assert (nameOf expr (nameKey 1 0) = Some "address")
        as Hname by (vm_compute; reflexivity);
      exact (conj Hname
               (@bound_names_are_identifiers examplePlatform "id" threeFilters expr
                  (nameKey 1 0) "address" Hrun Hname))
  end.
Defined.
